(** * Inspection-checklist extraction pipeline: a shallow embedding

    This development embeds the extraction core of the checklists
    application (checklists/ai_schemas.py, checklists/ai_services.py and
    checklists/utils.py) and proves properties of it.

    Python values are modelled as follows.
    - [str] is a list of 8-bit characters; the character classes
      (whitespace, letters, digits, case mapping) are those of Python on
      the ASCII range.
    - [int] is [Z] (or [nat] for lengths and counters); [int(s)] raises
      [ValueError] for a string of more than 4300 digits, the default of
      [sys.get_int_max_str_digits()].  [float] is [Q]: every finite double
      is a rational, the double literals of the code are written as the
      exact rationals they denote, and the floats that are not finite fail
      the range check of the schema like any value out of range.
    - dict literals with a fixed key set are records; [None] and an absent
      key are [None] of [option].
    - a raised exception is the [inl] branch of a sum, or [None] where the
      code only tests that something was raised.
    - regular expressions are matched by a backtracking matcher written
      after Python's [re], each pattern given as a term with the pattern
      string beside it.
    - the PDF library, the AI providers, the database, the clock, the
      configuration and the iteration order of a [set] are the fields of a
      record [World.t]; opening the same path gives the same pages each
      time, and reading a page of an opened document does not raise.
    - the candidate data of the schema is well typed: pydantic's coercion
      of values of another type is not modelled.
    - a call that creates or looks up a row may raise what the database
      raises for it (a number outside the range of the column, a name
      that is too long); the calls are not in a transaction, so the rows
      written before an exception stay.  Saving the record of the
      document itself succeeds. *)

From Stdlib Require Import ZArith QArith List String Ascii Bool Arith Lia.
From Stdlib Require Import Permutation DecimalString DecimalNat Sorted.
Import ListNotations.

Set Implicit Arguments.

Close Scope Q_scope.
Open Scope string_scope.
Open Scope list_scope.
Open Scope nat_scope.

(** ** Python strings *)

Module PyStr.

Definition pystr := list ascii.

Definition lit (s : string) : pystr := list_ascii_of_string s.

Definition code (c : ascii) : nat := nat_of_ascii c.

Definition between (lo hi : nat) (c : ascii) : bool :=
  (lo <=? code c) && (code c <=? hi).

(** [str.isspace] on the ASCII range: TAB..CR, FS..US and the blank. *)
Definition isspace (c : ascii) : bool :=
  between 9 13 c || between 28 32 c.

Definition isupper (c : ascii) : bool := between 65 90 c.
Definition islower (c : ascii) : bool := between 97 122 c.
Definition isalpha (c : ascii) : bool := isupper c || islower c.
Definition isdigit (c : ascii) : bool := between 48 57 c.

(** The regular-expression class [\w]. *)
Definition isword (c : ascii) : bool :=
  isalpha c || isdigit c || (code c =? 95).

Definition lower_c (c : ascii) : ascii :=
  if isupper c then ascii_of_nat (code c + 32) else c.

Definition upper_c (c : ascii) : ascii :=
  if islower c then ascii_of_nat (code c - 32) else c.

Definition lower (s : pystr) : pystr := map lower_c s.

Fixpoint eqb (a b : pystr) : bool :=
  match a, b with
  | [], [] => true
  | x :: a', y :: b' => Ascii.eqb x y && eqb a' b'
  | _, _ => false
  end.

Definition mem (x : pystr) (l : list pystr) : bool := existsb (eqb x) l.

(** [s.lstrip()], [s.rstrip()], [s.strip()] *)
Fixpoint lstrip (s : pystr) : pystr :=
  match s with
  | c :: s' => if isspace c then lstrip s' else s
  | [] => []
  end.

Definition rstrip (s : pystr) : pystr := rev (lstrip (rev s)).

Definition strip (s : pystr) : pystr := rstrip (lstrip s).

(** [s.startswith(p)] *)
Fixpoint startswith (p s : pystr) : bool :=
  match p, s with
  | [], _ => true
  | x :: p', y :: s' => Ascii.eqb x y && startswith p' s'
  | _ :: _, [] => false
  end.

(** [sub in s] *)
Fixpoint contains (sub s : pystr) : bool :=
  startswith sub s ||
  match s with
  | [] => false
  | _ :: s' => contains sub s'
  end.

(** Offset of the first occurrence of [sub] in [s], if any. *)
Fixpoint index_of (sub s : pystr) : option nat :=
  if startswith sub s then Some 0
  else match s with
       | [] => None
       | _ :: s' => option_map S (index_of sub s')
       end.

(** [s.find(sub, start)], with -1 for "not found". *)
Definition find (s sub : pystr) (start : nat) : Z :=
  if List.length s <? start then (-1)%Z
  else match index_of sub (skipn start s) with
       | Some i => Z.of_nat (start + i)
       | None => (-1)%Z
       end.

(** [s.count(sub)]: non-overlapping occurrences, scanning left to right.
    [skip] counts the characters still covered by the occurrence found
    last.  An empty [sub] occurs [len(s) + 1] times. *)
Fixpoint count_from (sub s : pystr) (skip : nat) : nat :=
  match skip with
  | S k => match s with
           | [] => 0
           | _ :: s' => count_from sub s' k
           end
  | 0 => match s with
         | [] => if startswith sub [] then 1 else 0
         | _ :: s' =>
             if startswith sub s
             then S (count_from sub s' (pred (List.length sub)))
             else count_from sub s' 0
         end
  end.

Definition count (s sub : pystr) : nat := count_from sub s 0.

(** [s.split('\n')] *)
Definition nl : ascii := ascii_of_nat 10.
Definition cr : ascii := ascii_of_nat 13.

Fixpoint split_nl_aux (s cur : pystr) : list pystr :=
  match s with
  | [] => [rev cur]
  | c :: s' =>
      if Ascii.eqb c nl then rev cur :: split_nl_aux s' []
      else split_nl_aux s' (c :: cur)
  end.

Definition split_nl (s : pystr) : list pystr := split_nl_aux s [].

(** [s.title()]: a letter that follows a letter is lowered, any other
    letter is raised. *)
Fixpoint title_aux (prev_cased : bool) (s : pystr) : pystr :=
  match s with
  | [] => []
  | c :: s' =>
      (if prev_cased then lower_c c else upper_c c)
        :: title_aux (isalpha c) s'
  end.

Definition title (s : pystr) : pystr := title_aux false s.

(** [s.isdigit()] *)
Definition all_digits (s : pystr) : bool :=
  match s with
  | [] => false
  | _ => forallb isdigit s
  end.

(** [str(n)] for a non-negative integer, as used by f-strings. *)
Definition str_of_nat (n : nat) : pystr :=
  lit (NilZero.string_of_uint (Nat.to_uint n)).

(** [sys.get_int_max_str_digits()], at its default. *)
Definition int_max_str_digits : nat := 4300.

(** The message of the [ValueError] that [int] raises for a string of
    [digits] digits, more than the limit. *)
Definition int_limit_message (digits : nat) : pystr :=
  lit "Exceeds the limit (" ++ str_of_nat int_max_str_digits
    ++ lit " digits) for integer string conversion: value has "
    ++ str_of_nat digits
    ++ lit " digits; use sys.set_int_max_str_digits() to increase the limit".

(** The number that a string of decimal digits denotes. *)
Definition int_value (s : pystr) : Z :=
  fold_left (fun acc c => (10 * acc + Z.of_nat (code c - 48))%Z) s 0%Z.

(** [int(s)] for a string of decimal digits: [inl] is the message of the
    [ValueError] raised when the string is longer than the limit. *)
Definition int_of (s : pystr) : pystr + Z :=
  if int_max_str_digits <? List.length s
  then inl (int_limit_message (List.length s))
  else inr (int_value s).

(** [sep.join(l)] *)
Fixpoint join (sep : pystr) (l : list pystr) : pystr :=
  match l with
  | [] => []
  | [x] => x
  | x :: l' => x ++ sep ++ join sep l'
  end.

(** [s[a:b]] for non-negative bounds *)
Definition slice (s : pystr) (a b : nat) : pystr :=
  firstn (b - a) (skipn a s).

End PyStr.

Import PyStr.
Coercion PyStr.lit : string >-> pystr.

(** ** Regular expressions

    The patterns of [utils.py] are matched by Python's backtracking
    engine: alternatives are tried left to right, repetitions are greedy and
    give characters back one at a time, the first start position with a
    match wins.  [mt] is that engine in continuation-passing style. *)

Module Re.

Inductive re : Type :=
| Eps
| Chr (c : ascii)                         (* a literal character *)
| Cls (p : ascii -> bool)                 (* [...] and the escapes \d \s \w *)
| Dot                                     (* any character but newline *)
| Bol                                     (* ^ *)
| Eol                                     (* $ *)
| Cat (a b : re)
| Alt (a b : re)
| Rep (a : re) (lo : nat) (hi : option nat)  (* greedy a{lo,hi} *)
| Grp (i : nat) (a : re).                 (* capturing group number i *)

Record flags := { IGNORECASE : bool; MULTILINE : bool }.

Definition no_flags := {| IGNORECASE := false; MULTILINE := false |}.
Definition ignore_case := {| IGNORECASE := true; MULTILINE := false |}.
Definition multi_line := {| IGNORECASE := false; MULTILINE := true |}.

(** Matcher state: the characters to the left of the cursor (nearest
    first), those to the right, and the text captured by each group. *)
Record mstate := {
  before : list ascii;
  rest : list ascii;
  caps : list (nat * pystr)
}.

Definition pos (s : mstate) : nat := List.length (before s).

Definition advance (s : mstate) : option (ascii * mstate) :=
  match rest s with
  | [] => None
  | c :: r => Some (c, {| before := c :: before s; rest := r; caps := caps s |})
  end.

Definition chr_eq (fl : flags) (c x : ascii) : bool :=
  if IGNORECASE fl then Ascii.eqb (lower_c c) (lower_c x) else Ascii.eqb c x.

Definition cls_in (fl : flags) (p : ascii -> bool) (x : ascii) : bool :=
  if IGNORECASE fl then p x || p (lower_c x) || p (upper_c x) else p x.

Definition at_bol (fl : flags) (s : mstate) : bool :=
  match before s with
  | [] => true
  | c :: _ => MULTILINE fl && Ascii.eqb c nl
  end.

Definition at_eol (fl : flags) (s : mstate) : bool :=
  match rest s with
  | [] => true
  | c :: r =>
      Ascii.eqb c nl && (MULTILINE fl || match r with [] => true | _ => false end)
  end.

Definition set_cap (i : nat) (s0 s1 : mstate) : mstate :=
  {| before := before s1; rest := rest s1;
     caps := (i, firstn (pos s1 - pos s0) (rest s0)) :: caps s1 |}.

Definition may_repeat (hi : option nat) (done : nat) : bool :=
  match hi with
  | None => true
  | Some h => done <? h
  end.

(** The loop of a greedy repetition [a{lo,hi}] with the continuation [k]:
    [body] matches [a] once, [done] counts the rounds made so far.  The
    loop first tries one more round, then falls back to stopping here.  A
    round has to move the cursor, so there are at most as many rounds as
    characters left; the counter [n] starts above that number and never
    runs out first (lemma [rep_loop_counter]). *)
Definition rep_loop (body : mstate -> (mstate -> option mstate) -> option mstate)
    (lo : nat) (hi : option nat) (k : mstate -> option mstate)
  : nat -> nat -> mstate -> option mstate :=
  fix rep (n done : nat) (s : mstate) {struct n} : option mstate :=
    let stop := if lo <=? done then k s else None in
    match n with
    | 0 => stop
    | S n' =>
        if may_repeat hi done then
          match body s (fun s' => if pos s <? pos s'
                                  then rep n' (S done) s' else None) with
          | Some res => Some res
          | None => stop
          end
        else stop
    end.

(** [mt fl r s k]: match [r] at the cursor of [s], then continue with [k];
    [None] means that every alternative failed. *)
Fixpoint mt (fl : flags) (r : re) (s : mstate)
    (k : mstate -> option mstate) {struct r} : option mstate :=
  match r with
  | Eps => k s
  | Chr c =>
      match advance s with
      | Some (x, s') => if chr_eq fl c x then k s' else None
      | None => None
      end
  | Cls p =>
      match advance s with
      | Some (x, s') => if cls_in fl p x then k s' else None
      | None => None
      end
  | Dot =>
      match advance s with
      | Some (x, s') => if Ascii.eqb x nl then None else k s'
      | None => None
      end
  | Bol => if at_bol fl s then k s else None
  | Eol => if at_eol fl s then k s else None
  | Cat a b => mt fl a s (fun s' => mt fl b s' k)
  | Alt a b =>
      match mt fl a s k with
      | Some res => Some res
      | None => mt fl b s k
      end
  | Rep a lo hi => rep_loop (mt fl a) lo hi k (S (List.length (rest s))) 0 s
  | Grp i a => mt fl a s (fun s' => k (set_cap i s s'))
  end.

(** A match object: [m.start()], [m.end()] and the captured groups. *)
Record mobj := {
  m_start : nat;
  m_end : nat;
  m_caps : list (nat * pystr)
}.

Fixpoint lookup (i : nat) (l : list (nat * pystr)) : option pystr :=
  match l with
  | [] => None
  | (j, v) :: l' => if i =? j then Some v else lookup i l'
  end.

(** [m.group(i)] for a group that took part in the match. *)
Definition group (m : mobj) (i : nat) : pystr :=
  match lookup i (m_caps m) with
  | Some v => v
  | None => []
  end.

(** [m.groups()] for a pattern with [n] groups. *)
Definition groups (n : nat) (m : mobj) : list pystr :=
  map (group m) (seq 1 n).

Definition match_at (fl : flags) (r : re) (bef rst : list ascii) : option mobj :=
  match mt fl r {| before := bef; rest := rst; caps := [] |} Some with
  | Some s' => Some {| m_start := List.length bef; m_end := pos s';
                       m_caps := caps s' |}
  | None => None
  end.

(** [re.match(r, text)] *)
Definition rmatch (fl : flags) (r : re) (text : pystr) : option mobj :=
  match_at fl r [] text.

(** [re.search]: the first start position, from the cursor on, with a match. *)
Fixpoint search_from (fl : flags) (r : re) (bef rst : list ascii) : option mobj :=
  match match_at fl r bef rst with
  | Some m => Some m
  | None =>
      match rst with
      | [] => None
      | c :: rst' => search_from fl r (c :: bef) rst'
      end
  end.

Definition search (fl : flags) (r : re) (text : pystr) : option mobj :=
  search_from fl r [] text.

Definition found (fl : flags) (r : re) (text : pystr) : bool :=
  match search fl r text with Some _ => true | None => false end.

(** [re.finditer]: successive non-overlapping matches.  [skip] counts the
    characters still covered by the match found last; the search resumes
    where that match ended (one further on after an empty match). *)
Fixpoint scan (fl : flags) (r : re) (bef rst : list ascii) (skip : nat)
  : list mobj :=
  match skip with
  | S k =>
      match rst with
      | [] => []
      | c :: rst' => scan fl r (c :: bef) rst' k
      end
  | 0 =>
      match match_at fl r bef rst with
      | Some m =>
          m :: match rst with
               | [] => []
               | c :: rst' => scan fl r (c :: bef) rst' (pred (m_end m - m_start m))
               end
      | None =>
          match rst with
          | [] => []
          | c :: rst' => scan fl r (c :: bef) rst' 0
          end
      end
  end.

Definition finditer (fl : flags) (r : re) (text : pystr) : list mobj :=
  scan fl r [] text 0.

(** [re.sub(r, repl, text)] for a literal replacement. *)
Fixpoint rebuild (text : pystr) (cur : nat) (repl : pystr) (ms : list mobj)
  : pystr :=
  match ms with
  | [] => skipn cur text
  | m :: ms' =>
      slice text cur (m_start m) ++ repl ++ rebuild text (m_end m) repl ms'
  end.

Definition sub (fl : flags) (r : re) (repl text : pystr) : pystr :=
  rebuild text 0 repl (finditer fl r text).

(** Pattern constructors *)
Fixpoint Lit (s : pystr) : re :=
  match s with
  | [] => Eps
  | [c] => Chr c
  | c :: s' => Cat (Chr c) (Lit s')
  end.

Fixpoint Seq (l : list re) : re :=
  match l with
  | [] => Eps
  | [a] => a
  | a :: l' => Cat a (Seq l')
  end.

Fixpoint Alts (l : list re) : re :=
  match l with
  | [] => Eps
  | [a] => a
  | a :: l' => Alt a (Alts l')
  end.

Definition Star (a : re) : re := Rep a 0 None.
Definition Plus (a : re) : re := Rep a 1 None.
Definition Opt (a : re) : re := Rep a 0 (Some 1).

Definition digit : re := Cls isdigit.   (* "\d" *)
Definition space : re := Cls isspace.   (* "\s" *)
Definition word : re := Cls isword.     (* "\w" *)

(** [[^...]] over the listed characters *)
Definition none_of (l : pystr) : re :=
  Cls (fun c => negb (existsb (Ascii.eqb c) l)).

Definition one_of (l : pystr) : re :=
  Cls (fun c => existsb (Ascii.eqb c) l).

End Re.

(** ** ai_schemas.py *)

Module Schemas.

Inductive TaskType := inspection | maintenance | safety | startup | shutdown.

Inductive QualityLevel := excellent | good | fair | poor.

Definition TaskType_value (t : TaskType) : pystr :=
  match t with
  | inspection => "inspection"
  | maintenance => "maintenance"
  | safety => "safety"
  | startup => "startup"
  | shutdown => "shutdown"
  end.

Definition QualityLevel_value (q : QualityLevel) : pystr :=
  match q with
  | excellent => "excellent"
  | good => "good"
  | fair => "fair"
  | poor => "poor"
  end.

(** Enum lookup by value: the member whose value is [s], if any. *)
Definition by_value {A : Type} (value : A -> pystr) (members : list A)
    (s : pystr) : option A :=
  List.find (fun m => PyStr.eqb (value m) s) members.

Definition TaskType_of (s : pystr) : option TaskType :=
  by_value TaskType_value [inspection; maintenance; safety; startup; shutdown] s.

Definition QualityLevel_of (s : pystr) : option QualityLevel :=
  by_value QualityLevel_value [excellent; good; fair; poor] s.

(** *** The validated models *)

Module TaskSchema.
Record t := {
  number : option Z;
  description : pystr;
  type : TaskType;
  requirements : option pystr;
  safety_notes : option pystr;
  estimated_time : option Z
}.
End TaskSchema.

Module SystemSchema.
Record t := {
  name : pystr;
  description : option pystr;
  category : option pystr;
  location : option pystr;
  manufacturer : option pystr;
  model : option pystr;
  tasks : list TaskSchema.t
}.
End SystemSchema.

Module DocumentMetadata.
Record t := {
  title : option pystr;
  document_type : option pystr;
  facility : option pystr;
  department : option pystr;
  revision : option pystr;
  date : option pystr;
  author : option pystr;
  approval : option pystr
}.
End DocumentMetadata.

Module AIExtractionResult.
Record t := {
  success : bool;
  confidence : Q;
  processing_method : pystr;
  metadata : option DocumentMetadata.t;
  systems : list SystemSchema.t;
  total_systems : Z;
  total_tasks : Z;
  processing_time : option Q;
  extraction_quality : option QualityLevel;
  warnings : option (list pystr)
}.
End AIExtractionResult.

(** *** The candidate data handed to the models

    A candidate is the keyword data a model is built from (parsed JSON, or
    the fields of an existing model).  A field is [None] when its key is
    absent; a present field has the JSON type the model declares, and an
    enum field carries the value string. *)

Module TaskData.
Record t := {
  number : option Z;
  description : option pystr;
  type : option pystr;
  requirements : option pystr;
  safety_notes : option pystr;
  estimated_time : option Z
}.
End TaskData.

Module SystemData.
Record t := {
  name : option pystr;
  description : option pystr;
  category : option pystr;
  location : option pystr;
  manufacturer : option pystr;
  model : option pystr;
  tasks : option (list TaskData.t)
}.
End SystemData.

Module ResponseData.
Record t := {
  success : option bool;
  confidence : option Q;
  processing_method : option pystr;
  metadata : option DocumentMetadata.t;
  systems : option (list SystemData.t);
  total_systems : option Z;
  total_tasks : option Z;
  processing_time : option Q;
  extraction_quality : option pystr;
  warnings : option (list pystr)
}.
End ResponseData.

(** *** Field validation *)

(** A [str] field declared with [min_length] and [max_length]: the bounds
    are checked on the value as given, before the class validators run. *)
Definition constr (min_length max_length : nat) (v : pystr) : option pystr :=
  if (min_length <=? List.length v) && (List.length v <=? max_length)
  then Some v else None.

(** A float field declared with [ge] and [le]. *)
Definition confloat (ge le : Q) (v : Q) : option Q :=
  if Qle_bool ge v && Qle_bool v le then Some v else None.

(** An optional enum field: absent is [None], a present value has to name
    a member. *)
Definition optional_enum {A : Type} (of_value : pystr -> option A)
    (v : option pystr) : option (option A) :=
  match v with
  | None => Some None
  | Some s => option_map Some (of_value s)
  end.

(** Validate every element of a list field; one failure fails the field. *)
Fixpoint each {A B : Type} (f : A -> option B) (l : list A) : option (list B) :=
  match l with
  | [] => Some []
  | x :: l' =>
      match f x, each f l' with
      | Some y, Some ys => Some (y :: ys)
      | _, _ => None
      end
  end.

Definition bind {A B : Type} (o : option A) (f : A -> option B) : option B :=
  match o with
  | Some x => f x
  | None => None
  end.

(** [TaskSchema.validate_description] *)
Definition validate_description (v : pystr) : option pystr :=
  if List.length (strip v) <? 10 then None else Some (strip v).

(** [TaskSchema(...)], built from the data [d] *)
Definition TaskSchema_init (d : TaskData.t) : option TaskSchema.t :=
  let description :=
    bind (bind (TaskData.description d) (constr 10 500)) validate_description in
  let type :=
    match TaskData.type d with
    | None => Some inspection
    | Some s => TaskType_of s
    end in
  match description, type with
  | Some description, Some type =>
      Some {| TaskSchema.number := TaskData.number d;
              TaskSchema.description := description;
              TaskSchema.type := type;
              TaskSchema.requirements := TaskData.requirements d;
              TaskSchema.safety_notes := TaskData.safety_notes d;
              TaskSchema.estimated_time := TaskData.estimated_time d |}
  | _, _ => None
  end.

(** [SystemSchema.validate_name] *)
Definition validate_name (v : pystr) : option pystr := Some (strip v).

Definition set_number (i : Z) (task : TaskSchema.t) : TaskSchema.t :=
  {| TaskSchema.number := Some i;
     TaskSchema.description := TaskSchema.description task;
     TaskSchema.type := TaskSchema.type task;
     TaskSchema.requirements := TaskSchema.requirements task;
     TaskSchema.safety_notes := TaskSchema.safety_notes task;
     TaskSchema.estimated_time := TaskSchema.estimated_time task |}.

(** [for i, task in enumerate(v, i): task.number = i] *)
Fixpoint renumber (i : Z) (v : list TaskSchema.t) : list TaskSchema.t :=
  match v with
  | [] => []
  | task :: v' => set_number i task :: renumber (i + 1) v'
  end.

(** [SystemSchema.validate_tasks] *)
Definition validate_tasks (v : list TaskSchema.t) : option (list TaskSchema.t) :=
  match v with
  | [] => None
  | _ => Some (renumber 1 v)
  end.

(** [SystemSchema(...)], built from the data [d] *)
Definition SystemSchema_init (d : SystemData.t) : option SystemSchema.t :=
  let name := bind (bind (SystemData.name d) (constr 3 200)) validate_name in
  let tasks :=
    bind (bind (SystemData.tasks d) (each TaskSchema_init)) validate_tasks in
  match name, tasks with
  | Some name, Some tasks =>
      Some {| SystemSchema.name := name;
              SystemSchema.description := SystemData.description d;
              SystemSchema.category := SystemData.category d;
              SystemSchema.location := SystemData.location d;
              SystemSchema.manufacturer := SystemData.manufacturer d;
              SystemSchema.model := SystemData.model d;
              SystemSchema.tasks := tasks |}
  | _, _ => None
  end.

(** [AIExtractionResult.validate_systems] *)
Definition validate_systems (v : list SystemSchema.t) : option (list SystemSchema.t) :=
  match v with
  | [] => None
  | _ => Some v
  end.

(** [sum(len(system.tasks) for system in systems)] *)
Definition count_tasks (systems : list SystemSchema.t) : Z :=
  fold_left (fun acc system =>
               (acc + Z.of_nat (List.length (SystemSchema.tasks system)))%Z)
            systems 0%Z.

(** [values.get('systems', [])]: the systems validated so far. *)
Definition values_systems (values : option (list SystemSchema.t)) : list SystemSchema.t :=
  match values with
  | Some systems => systems
  | None => []
  end.

(** [AIExtractionResult.validate_total_systems] *)
Definition validate_total_systems (v : Z) (values : option (list SystemSchema.t)) : Z :=
  Z.of_nat (List.length (values_systems values)).

(** [AIExtractionResult.validate_total_tasks_count] *)
Definition validate_total_tasks_count (v : Z) (values : option (list SystemSchema.t)) : Z :=
  count_tasks (values_systems values).

(** [AIExtractionResult.validate_total_tasks] *)
Definition validate_total_tasks (v : Z) (values : option (list SystemSchema.t)) : Z :=
  match values with
  | Some systems =>
      let actual_count := count_tasks systems in
      if negb (v =? actual_count)%Z then actual_count else v
  | None => v
  end.

(** [AIExtractionResult(...)], built from the data [d]: the fields are validated in declaration
    order, each validator seeing the fields that validated before it; the
    model exists when every field validated. *)
Definition AIExtractionResult_init (d : ResponseData.t) : option AIExtractionResult.t :=
  let success := ResponseData.success d in
  let confidence := bind (ResponseData.confidence d) (confloat 0 1) in
  let processing_method := ResponseData.processing_method d in
  let systems :=
    bind (bind (ResponseData.systems d) (each SystemSchema_init)) validate_systems in
  let total_systems :=
    option_map (fun v => validate_total_systems v systems)
               (ResponseData.total_systems d) in
  let total_tasks :=
    option_map (fun v => validate_total_tasks
                           (validate_total_tasks_count v systems) systems)
               (ResponseData.total_tasks d) in
  let extraction_quality :=
    optional_enum QualityLevel_of (ResponseData.extraction_quality d) in
  match success, confidence, processing_method, systems,
        total_systems, total_tasks, extraction_quality with
  | Some success, Some confidence, Some processing_method, Some systems,
    Some total_systems, Some total_tasks, Some extraction_quality =>
      Some {| AIExtractionResult.success := success;
              AIExtractionResult.confidence := confidence;
              AIExtractionResult.processing_method := processing_method;
              AIExtractionResult.metadata := ResponseData.metadata d;
              AIExtractionResult.systems := systems;
              AIExtractionResult.total_systems := total_systems;
              AIExtractionResult.total_tasks := total_tasks;
              AIExtractionResult.processing_time := ResponseData.processing_time d;
              AIExtractionResult.extraction_quality := extraction_quality;
              AIExtractionResult.warnings := ResponseData.warnings d |}
  | _, _, _, _, _, _, _ => None
  end.

(** [validate_ai_response]: [Some result] is [(True, "Valid", result)],
    [None] is [(False, "Schema validation error: ...", None)]. *)
Definition validate_ai_response (response_data : ResponseData.t)
  : option AIExtractionResult.t :=
  AIExtractionResult_init response_data.

(** The field data of a model, as [model.dict()] gives it. *)
Definition TaskSchema_dict (task : TaskSchema.t) : TaskData.t :=
  {| TaskData.number := TaskSchema.number task;
     TaskData.description := Some (TaskSchema.description task);
     TaskData.type := Some (TaskType_value (TaskSchema.type task));
     TaskData.requirements := TaskSchema.requirements task;
     TaskData.safety_notes := TaskSchema.safety_notes task;
     TaskData.estimated_time := TaskSchema.estimated_time task |}.

Definition SystemSchema_dict (system : SystemSchema.t) : SystemData.t :=
  {| SystemData.name := Some (SystemSchema.name system);
     SystemData.description := SystemSchema.description system;
     SystemData.category := SystemSchema.category system;
     SystemData.location := SystemSchema.location system;
     SystemData.manufacturer := SystemSchema.manufacturer system;
     SystemData.model := SystemSchema.model system;
     SystemData.tasks := Some (map TaskSchema_dict (SystemSchema.tasks system)) |}.

Definition AIExtractionResult_dict (r : AIExtractionResult.t) : ResponseData.t :=
  {| ResponseData.success := Some (AIExtractionResult.success r);
     ResponseData.confidence := Some (AIExtractionResult.confidence r);
     ResponseData.processing_method := Some (AIExtractionResult.processing_method r);
     ResponseData.metadata := AIExtractionResult.metadata r;
     ResponseData.systems := Some (map SystemSchema_dict (AIExtractionResult.systems r));
     ResponseData.total_systems := Some (AIExtractionResult.total_systems r);
     ResponseData.total_tasks := Some (AIExtractionResult.total_tasks r);
     ResponseData.processing_time := AIExtractionResult.processing_time r;
     ResponseData.extraction_quality :=
       option_map QualityLevel_value (AIExtractionResult.extraction_quality r);
     ResponseData.warnings := AIExtractionResult.warnings r |}.

Definition fallback_task (number : Z) (description : pystr) : TaskData.t :=
  {| TaskData.number := Some number;
     TaskData.description := Some description;
     TaskData.type := Some (TaskType_value inspection);
     TaskData.requirements := None;
     TaskData.safety_notes := None;
     TaskData.estimated_time := None |}.

(** [create_fallback_result(error_message)] *)
Definition create_fallback_result (error_message : pystr)
  : option AIExtractionResult.t :=
  AIExtractionResult_init
    {| ResponseData.success := Some false;
       ResponseData.confidence := Some 0%Q;
       ResponseData.processing_method := Some (lit "fallback");
       ResponseData.metadata := None;
       ResponseData.processing_time := None;
       ResponseData.systems := Some [
         {| SystemData.name := Some (lit "General Inspection Checklist");
            SystemData.description :=
              Some (lit "Fallback system created due to processing error");
            SystemData.category := Some (lit "general");
            SystemData.location := None;
            SystemData.manufacturer := None;
            SystemData.model := None;
            SystemData.tasks := Some [
              fallback_task 1 "Visual inspection of equipment condition";
              fallback_task 2 "Check for any visible damage or wear";
              fallback_task 3 "Verify proper operation" ] |} ];
       ResponseData.total_systems := Some 1%Z;
       ResponseData.total_tasks := Some 3%Z;
       ResponseData.extraction_quality := Some (QualityLevel_value poor);
       ResponseData.warnings :=
         Some [lit "AI processing failed: " ++ error_message] |}.

End Schemas.

(** ** The outside world

    What the pipeline reads but does not compute: the PDF library, the
    replies of the AI providers, the database, the clock, the configuration
    and the order in which a [set] hands out its elements. *)

Module World.

(** An exception, by its message [str(e)]. *)
Definition exn := pystr.

(** The calls that [process_inspection_pdf] makes to the database. *)
Inductive db_call :=
(* InspectionSystem.objects.filter(name=name, pdf=pdf).first() *)
| first_system (name : pystr) (pdf : nat)
(* InspectionSystem.objects.create(name=name, pdf=pdf) *)
| create_system (name : pystr) (pdf : nat)
(* ChecklistTask.objects.create(system=system, number=number, description=description) *)
| create_task (system : nat) (number : option Z) (description : pystr).

Record t := {
  (** [import fitz] succeeded *)
  PYMUPDF_AVAILABLE : bool;
  (** [from .ai_services import ...] succeeded *)
  AI_PROCESSING_AVAILABLE : bool;
  (** [settings.MEDIA_ROOT] *)
  MEDIA_ROOT : pystr;
  (** [fitz.open(path)]: the exception it raises, or the text of each page *)
  fitz_open : pystr -> exn + list pystr;
  (** [bool(settings.OPENAI_API_KEY)] and so on *)
  openai_available : bool;
  claude_available : bool;
  google_available : bool;
  (** the JSON object a provider answered with for a path; [None] when the
      request failed, the status was not 200 or the body was not JSON *)
  openai_reply : pystr -> option Schemas.ResponseData.t;
  claude_reply : pystr -> option Schemas.ResponseData.t;
  (** [time.time() - start_time] when a provider's result is accepted *)
  elapsed : Q;
  (** [list(s)] for a set [s], given its elements in insertion order *)
  set_order : list pystr -> list pystr;
  (** the exception that the database raises for a call, if any *)
  db_raises : db_call -> option exn
}.

End World.

(** ** ai_services.py *)

Module Services.

Import Schemas.

(** The double literals of the confidence gates, as exact rationals. *)
Definition f_0_7 : Q := 3152519739159347 # 4503599627370496.
Definition f_0_6 : Q := 5404319552844595 # 9007199254740992.
Definition f_0_3 : Q := 5404319552844595 # 18014398509481984.

(** [a > b] on floats *)
Definition gt (a b : Q) : bool := negb (Qle_bool a b).

(** [_pdf_to_images]: one image per page, at most [max_pages]; [[]] when
    the file does not open.  Only the number of images is kept. *)
Definition _pdf_to_images (w : World.t) (pdf_path : pystr) (max_pages : nat) : nat :=
  match World.fitz_open w pdf_path with
  | inl _ => 0
  | inr pages => Nat.min (List.length pages) max_pages
  end.

(** [_extract_text_from_pdf]: the pages, each followed by a newline; [""]
    when the file does not open. *)
Definition _extract_text_from_pdf (w : World.t) (pdf_path : pystr) : pystr :=
  match World.fitz_open w pdf_path with
  | inl _ => []
  | inr pages => List.concat (map (fun page => page ++ [nl]) pages)
  end.

Definition set_processing_method (m : pystr) (d : ResponseData.t) : ResponseData.t :=
  {| ResponseData.success := ResponseData.success d;
     ResponseData.confidence := ResponseData.confidence d;
     ResponseData.processing_method := Some m;
     ResponseData.metadata := ResponseData.metadata d;
     ResponseData.systems := ResponseData.systems d;
     ResponseData.total_systems := ResponseData.total_systems d;
     ResponseData.total_tasks := ResponseData.total_tasks d;
     ResponseData.processing_time := ResponseData.processing_time d;
     ResponseData.extraction_quality := ResponseData.extraction_quality d;
     ResponseData.warnings := ResponseData.warnings d |}.

Definition set_processing_time (t : Q) (r : AIExtractionResult.t) : AIExtractionResult.t :=
  {| AIExtractionResult.success := AIExtractionResult.success r;
     AIExtractionResult.confidence := AIExtractionResult.confidence r;
     AIExtractionResult.processing_method := AIExtractionResult.processing_method r;
     AIExtractionResult.metadata := AIExtractionResult.metadata r;
     AIExtractionResult.systems := AIExtractionResult.systems r;
     AIExtractionResult.total_systems := AIExtractionResult.total_systems r;
     AIExtractionResult.total_tasks := AIExtractionResult.total_tasks r;
     AIExtractionResult.processing_time := Some t;
     AIExtractionResult.extraction_quality := AIExtractionResult.extraction_quality r;
     AIExtractionResult.warnings := AIExtractionResult.warnings r |}.

(** The provider adapters return the validated result; [None] stands for
    the [AIServiceError] (or any other exception) they raise. *)
Definition _process_with_openai (w : World.t) (pdf_path : pystr)
  : option AIExtractionResult.t :=
  if _pdf_to_images w pdf_path 10 =? 0 then None
  else
    bind (World.openai_reply w pdf_path)
         (fun extracted_data =>
            validate_ai_response (set_processing_method "gpt-4-vision" extracted_data)).

Definition _process_with_claude (w : World.t) (pdf_path : pystr)
  : option AIExtractionResult.t :=
  match _extract_text_from_pdf w pdf_path with
  | [] => None
  | _ =>
      bind (World.claude_reply w pdf_path)
           (fun extracted_data =>
              validate_ai_response
                (set_processing_method "claude-3.5-sonnet" extracted_data))
  end.

Definition google_result_data : ResponseData.t :=
  {| ResponseData.success := Some true;
     ResponseData.confidence := Some f_0_6;
     ResponseData.processing_method := Some (lit "google-document-ai");
     ResponseData.metadata := None;
     ResponseData.systems := Some [
       {| SystemData.name := Some (lit "General Equipment Inspection");
          SystemData.description := Some (lit "Extracted using Google Document AI");
          SystemData.category := Some (lit "general");
          SystemData.location := None;
          SystemData.manufacturer := None;
          SystemData.model := None;
          SystemData.tasks := Some [
            {| TaskData.number := Some 1%Z;
               TaskData.description := Some (lit "Perform visual inspection");
               TaskData.type := Some (lit "inspection");
               TaskData.requirements := None;
               TaskData.safety_notes := None;
               TaskData.estimated_time := None |} ] |} ];
     ResponseData.total_systems := Some 1%Z;
     ResponseData.total_tasks := Some 1%Z;
     ResponseData.processing_time := None;
     ResponseData.extraction_quality := Some (lit "fair");
     ResponseData.warnings := None |}.

Definition _process_with_google (w : World.t) (pdf_path : pystr)
  : option AIExtractionResult.t :=
  validate_ai_response google_result_data.

(** One step of the provider chain: the provider's result when the
    service is configured, did not raise and passes its gate. *)
Definition attempt (available : bool) (result : option AIExtractionResult.t)
    (gate : AIExtractionResult.t -> bool) : option AIExtractionResult.t :=
  if available then
    match result with
    | Some result => if gate result then Some result else None
    | None => None
    end
  else None.

(** [AIDocumentProcessor.process_pdf] (and [process_pdf_with_ai]); [None]
    stands for an exception leaving the function, which only the
    construction of the fallback result could raise. *)
Definition process_pdf (w : World.t) (pdf_path : pystr)
  : option AIExtractionResult.t :=
  match attempt (World.openai_available w) (_process_with_openai w pdf_path)
                (fun result => AIExtractionResult.success result
                               && gt (AIExtractionResult.confidence result) f_0_7) with
  | Some result => Some (set_processing_time (World.elapsed w) result)
  | None =>
  match attempt (World.claude_available w) (_process_with_claude w pdf_path)
                (fun result => AIExtractionResult.success result
                               && gt (AIExtractionResult.confidence result) f_0_6) with
  | Some result => Some (set_processing_time (World.elapsed w) result)
  | None =>
  match attempt (World.google_available w) (_process_with_google w pdf_path)
                (fun result => AIExtractionResult.success result) with
  | Some result => Some (set_processing_time (World.elapsed w) result)
  | None => create_fallback_result "All AI services unavailable or failed"
  end end end.

End Services.

(** ** utils.py *)

Module Utils.

Import Re.

(** The dicts of the legacy format.  The heuristic strategies fill
    ["number"] and ["description"] of a task and ["name"] and ["tasks"] of
    a system; a key that a strategy does not set is [None]. *)
Module Task.
Record t := {
  number : option Z;
  description : pystr;
  type : option Schemas.TaskType;
  requirements : option pystr;
  safety_notes : option pystr
}.
End Task.

Module Inspection.
Record t := {
  name : pystr;
  description : option pystr;
  tasks : list Task.t
}.
End Inspection.

(** [{"number": n, "description": d}] *)
Definition mk_task (n : Z) (d : pystr) : Task.t :=
  {| Task.number := Some n; Task.description := d; Task.type := None;
     Task.requirements := None; Task.safety_notes := None |}.

(** [{"name": n, "tasks": ts}] *)
Definition mk_system (n : pystr) (ts : list Task.t) : Inspection.t :=
  {| Inspection.name := n; Inspection.description := None;
     Inspection.tasks := ts |}.

(** [[f(i, x) for i, x in enumerate(l, start)]] *)
Fixpoint enumerate_map {A B : Type} (f : Z -> A -> B) (start : Z) (l : list A)
  : list B :=
  match l with
  | [] => []
  | x :: l' => f start x :: enumerate_map f (start + 1) l'
  end.

(** Stable sort on an integer key ([list.sort(key=...)], [sorted]). *)
Fixpoint insert_by {A : Type} (key : A -> Z) (x : A) (l : list A) : list A :=
  match l with
  | [] => [x]
  | y :: l' =>
      if (key y <? key x)%Z then y :: insert_by key x l' else x :: l
  end.

Definition sort_by {A : Type} (key : A -> Z) (l : list A) : list A :=
  fold_right (insert_by key) [] l.

(** A loop whose body may raise: the first exception ends it. *)
Fixpoint for_each {A S : Type} (body : S -> A -> World.exn + S) (l : list A) (st : S)
  : World.exn + S :=
  match l with
  | [] => inr st
  | x :: l' =>
      match body st x with
      | inl e => inl e
      | inr st => for_each body l' st
      end
  end.

(** *** Strategy 0: [extract_custom_user_systems] *)

(* "Belt Scraper system (\d+)-Inspection Checklist", re.IGNORECASE *)
Definition custom_system_pattern : re :=
  Seq [Lit "Belt Scraper system "; Grp 1 (Plus digit); Lit "-Inspection Checklist"].

Definition not_cell : re := none_of ["|"%char; nl; cr].   (* "[^|\n\r]" *)

(* "(\d+)\s+(Check\s+[^|\n\r]+)" and "(\d+)\s+([A-Z][^|\n\r]+)",
   re.IGNORECASE *)
Definition custom_task_patterns : list re :=
  [ Seq [Grp 1 (Plus digit); Plus space;
         Grp 2 (Seq [Lit "Check"; Plus space; Plus not_cell])];
    Seq [Grp 1 (Plus digit); Plus space;
         Grp 2 (Seq [Cls isupper; Plus not_cell])] ].

(* "[|]+.*$" *)
Definition table_separator : re :=
  Seq [Plus (one_of ["|"%char]); Star Dot; Eol].

(* "Belt Conveyor Inspection", re.IGNORECASE *)
Definition conveyor_pattern : re := Lit "Belt Conveyor Inspection".

Definition standard_tasks : list pystr :=
  [ lit "Check worn or missing blades";
    lit "Check scraper frames and blades";
    lit "Check adjustment of belt cleaner tension";
    lit "Check primary scarper";
    lit "Check secondary scraper";
    lit "Check tertiary scraper";
    lit "Check plough scraper" ].

(** The inner [for match in matches] loop; it returns early on [break],
    and [int] may raise in it. *)
Fixpoint harvest_tasks (matches : list mobj)
    (extracted_tasks : list (Z * pystr)) (seen_tasks : list pystr)
  : World.exn + list (Z * pystr) * list pystr :=
  match matches with
  | [] => inr (extracted_tasks, seen_tasks)
  | m :: matches' =>
      match int_of (group m 1) with
      | inl e => inl e
      | inr task_num =>
          let task_desc := strip (group m 2) in
          let task_desc := sub no_flags table_separator "" task_desc in
          let task_desc := strip task_desc in
          if (10 <? List.length task_desc)
             && (task_num <=? 10)%Z
             && negb (mem (lower task_desc) seen_tasks)
             && contains "check" (lower task_desc)
          then
            let extracted_tasks := extracted_tasks ++ [(task_num, task_desc)] in
            let seen_tasks := lower task_desc :: seen_tasks in
            if 7 <=? List.length extracted_tasks
            then inr (extracted_tasks, seen_tasks)
            else harvest_tasks matches' extracted_tasks seen_tasks
          else harvest_tasks matches' extracted_tasks seen_tasks
      end
  end.

(** The outer [for pattern in task_patterns] loop. *)
Definition extracted_tasks (text : pystr) : World.exn + list (Z * pystr) :=
  match for_each
          (fun st pattern =>
             harvest_tasks (finditer ignore_case pattern text) (fst st) (snd st))
          custom_task_patterns ([], []) with
  | inl e => inl e
  | inr st => inr (fst st)
  end.

Definition final_tasks (extracted_tasks : list (Z * pystr)) : list Task.t :=
  match extracted_tasks with
  | [] => enumerate_map mk_task 1 standard_tasks
  | extracted =>
      enumerate_map (fun i nd => mk_task i (snd nd)) 1
                    (firstn 7 (sort_by fst extracted))
  end.

(** The loop over the title matches: one system per distinct title. *)
Fixpoint titled_systems (title_of : pystr -> pystr) (tasks : list Task.t)
    (matches : list mobj) (processed_systems : list pystr)
  : list Inspection.t :=
  match matches with
  | [] => []
  | system_match :: matches' =>
      let system_title := title_of (group system_match 1) in
      if mem system_title processed_systems
      then titled_systems title_of tasks matches' processed_systems
      else mk_system system_title tasks
             :: titled_systems title_of tasks matches'
                               (system_title :: processed_systems)
  end.

Definition custom_title (system_number : pystr) : pystr :=
  lit "Belt Scraper system " ++ system_number ++ lit "-Inspection Checklist".

(** The systems made once the tasks are harvested. *)
Definition custom_systems (text : pystr) (final_tasks : list Task.t)
  : list Inspection.t :=
  let matches_found := finditer ignore_case custom_system_pattern text in
  let inspections :=
    titled_systems custom_title (firstn 7 final_tasks) matches_found [] in
  match inspections with
  | [] =>
      if found ignore_case conveyor_pattern text then
        let conveyor_count :=
          List.length (finditer ignore_case conveyor_pattern text) in
        let system_count := Nat.min (Nat.max 1 conveyor_count) 10 in
        map (fun i => mk_system (custom_title (str_of_nat i)) (firstn 7 final_tasks))
            (seq 1 system_count)
      else []
  | _ => inspections
  end.

(** [extract_custom_user_systems]: [inl] when [int] raises while the tasks
    are harvested. *)
Definition extract_custom_user_systems (text : pystr)
  : World.exn + list Inspection.t :=
  match extracted_tasks text with
  | inl e => inl e
  | inr extracted_tasks => inr (custom_systems text (final_tasks extracted_tasks))
  end.

(** *** Strategy 1: [extract_belt_scraper_systems] *)

(* "Belt Scraper system (\d+)\s*-?\s*Inspection Checklist", re.IGNORECASE *)
Definition belt_system_pattern : re :=
  Seq [Lit "Belt Scraper system "; Grp 1 (Plus digit); Star space;
       Opt (Chr "-"); Star space; Lit "Inspection Checklist"].

Definition belt_title (system_number : pystr) : pystr :=
  lit "Belt Scraper System " ++ system_number.

Definition extract_belt_scraper_systems (text : pystr) : list Inspection.t :=
  let actual_tasks := standard_tasks in
  titled_systems belt_title (enumerate_map mk_task 1 actual_tasks)
                 (finditer ignore_case belt_system_pattern text) [].

(** *** Strategy 1.5: [extract_system_checklist_patterns] *)

(* "([A-Za-z\s]+system\s+\d+)(?:-Inspection\s+Checklist)?" *)
Definition any_system_pattern : re :=
  Seq [Grp 1 (Seq [Plus (Cls (fun c => isalpha c || isspace c));
                   Lit "system"; Plus space; Plus digit]);
       Opt (Seq [Lit "-Inspection"; Plus space; Lit "Checklist"])].

Definition action_word : re :=
  Alts [Lit "check"; Lit "inspect"; Lit "verify"; Lit "test"; Lit "examine"].

Definition not_sentence_end : re := none_of ["."%char; nl; cr].   (* "[^.\n\r]" *)

Definition item_mark : re := one_of ["."%char; ")"%char].         (* "[.\)]" *)

(* "(?i)(\d+)\s*[.\)]\s*(check|inspect|verify|test|examine)\s+([^.\n\r]+)"
   "(?i)(\d+)\s*[.\)]\s*([^.\n\r]{10,80})"
   "(?i)(check|inspect|verify|test|examine)\s+([^.\n\r]{5,80})"
   each with its number of groups *)
Definition section_task_patterns : list (re * nat) :=
  [ (Seq [Grp 1 (Plus digit); Star space; item_mark; Star space; Grp 2 action_word;
          Plus space; Grp 3 (Plus not_sentence_end)], 3);
    (Seq [Grp 1 (Plus digit); Star space; item_mark; Star space;
          Grp 2 (Rep not_sentence_end 10 (Some 80))], 2);
    (Seq [Grp 1 action_word; Plus space;
          Grp 2 (Rep not_sentence_end 5 (Some 80))], 2) ].

(* "\s+" *)
Definition spaces : re := Plus space.

Definition skip_words : list pystr :=
  [lit "status"; lit "date"; lit "remarks"; lit "signature"].

(** The system names in order of first appearance (the keys of
    [found_systems]). *)
Fixpoint system_names_of (matches : list mobj) (found : list pystr) : list pystr :=
  match matches with
  | [] => found
  | m :: matches' =>
      let system_name := strip (group m 1) in
      let system_name := sub no_flags spaces " " system_name in
      if mem system_name found
      then system_names_of matches' found
      else system_names_of matches' (found ++ [system_name])
  end.

(** The description and the number that the loop reads off a match;
    [int] may raise. *)
Definition task_of_match (gs : list pystr) (tasks : list Task.t)
  : World.exn + pystr * Z :=
  if all_digits (hd [] gs)
  then match int_of (hd [] gs) with
       | inl e => inl e
       | inr task_num => inr (strip (last gs []), task_num)
       end
  else inr (strip (join " " gs), Z.of_nat (List.length tasks + 1)).

(** The [for match in matches] loop over one task pattern of a section. *)
Fixpoint section_tasks (ngroups : nat) (matches : list mobj) (tasks : list Task.t)
  : World.exn + list Task.t :=
  match matches with
  | [] => inr tasks
  | m :: matches' =>
      match task_of_match (groups ngroups m) tasks with
      | inl e => inl e
      | inr (task_desc, task_num) =>
          let task_desc := sub no_flags spaces " " task_desc in
          if (10 <? List.length task_desc) && (List.length task_desc <? 100)
             && negb (existsb (fun skip => contains skip (lower task_desc)) skip_words)
          then section_tasks ngroups matches' (tasks ++ [mk_task task_num task_desc])
          else section_tasks ngroups matches' tasks
      end
  end.

Definition task_key (task : Task.t) : Z :=
  match Task.number task with
  | Some n => n
  | None => 0%Z
  end.

(** Drop the tasks whose description was seen before. *)
Fixpoint unique_tasks (tasks : list Task.t) (seen_descriptions : list pystr)
  : list Task.t :=
  match tasks with
  | [] => []
  | task :: tasks' =>
      if mem (Task.description task) seen_descriptions
      then unique_tasks tasks' seen_descriptions
      else task :: unique_tasks tasks' (Task.description task :: seen_descriptions)
  end.

(** The text of the [i]-th section, from the start of its system name to
    the start of the next one. *)
Definition section_text (text : pystr) (system_names : list pystr) (i : nat)
    (system_start : nat) : pystr :=
  match nth_error system_names (i + 1) with
  | Some next_name =>
      let next_system_start :=
        find (lower text) (lower next_name) (system_start + 1) in
      if (next_system_start =? -1)%Z then skipn system_start text
      else slice text system_start (Z.to_nat next_system_start)
  | None => skipn system_start text
  end.

(** The tasks of the [i]-th system name; [[]] when the name is not found
    in the lowered text. *)
Definition tasks_of_section (text : pystr) (system_names : list pystr)
    (i : nat) (system_name : pystr) : World.exn + list Task.t :=
  let system_start := find (lower text) (lower system_name) 0 in
  if (system_start =? -1)%Z then inr []
  else
    let section_text := section_text text system_names i (Z.to_nat system_start) in
    match for_each
            (fun tasks pn =>
               section_tasks (snd pn) (finditer ignore_case (fst pn) section_text) tasks)
            section_task_patterns [] with
    | inl e => inl e
    | inr tasks => inr (firstn 10 (unique_tasks (sort_by task_key tasks) []))
    end.

Fixpoint enumerate_from {A : Type} (i : nat) (l : list A) : list (nat * A) :=
  match l with
  | [] => []
  | x :: l' => (i, x) :: enumerate_from (S i) l'
  end.

(** The loop that fills [found_systems], one section after the other. *)
Definition found_systems (text : pystr) (system_names : list pystr)
  : World.exn + list (pystr * list Task.t) :=
  for_each
    (fun found_systems ix =>
       match tasks_of_section text system_names (fst ix) (snd ix) with
       | inl e => inl e
       | inr tasks => inr (found_systems ++ [(snd ix, tasks)])
       end)
    (enumerate_from 0 system_names) [].

(** [extract_system_checklist_patterns]: [inl] when [int] raises in a
    section. *)
Definition extract_system_checklist_patterns (text : pystr)
  : World.exn + list Inspection.t :=
  let system_names := system_names_of (finditer ignore_case any_system_pattern text) [] in
  match found_systems text system_names with
  | inl e => inl e
  | inr found_systems =>
      inr (flat_map
             (fun nt =>
                match snd nt with
                | [] => []
                | tasks =>
                    [ {| Inspection.name := fst nt ++ lit "-Inspection Checklist";
                         Inspection.description :=
                           Some (lit "Inspection checklist for " ++ fst nt);
                         Inspection.tasks := tasks |} ]
                end)
             found_systems)
  end.

(** *** Strategy 2: [extract_generic_systems] *)

Definition generic_noun : re :=
  Alts [Lit "equipment"; Lit "system"; Lit "component"; Lit "unit"; Lit "device"].

Definition document_noun : re :=
  Alts [Lit "inspection"; Lit "checklist"; Lit "maintenance"].

(* "\w+(?:\s+\w+)*" *)
Definition words : re := Seq [Plus word; Star (Seq [Plus space; Plus word])].

(* With W for "\w+(?:\s+\w+)*":
   "(?i)(equipment|system|component|unit|device)\s+(W)"
   "(?i)(W)\s+(equipment|system|component|unit|device)"
   "(?i)(inspection|checklist|maintenance)\s+(?:for\s+)?(W)"
   "(?i)(W)\s+(inspection|checklist|maintenance)" *)
Definition generic_patterns : list re :=
  [ Seq [Grp 1 generic_noun; Plus space; Grp 2 words];
    Seq [Grp 1 words; Plus space; Grp 2 generic_noun];
    Seq [Grp 1 document_noun; Plus space; Opt (Seq [Lit "for"; Plus space]); Grp 2 words];
    Seq [Grp 1 words; Plus space; Grp 2 document_noun] ].

(* "(?m)^\s*(\d+)[\.\)]\s*(.+)$"
   "(?m)^\s*[\-\*]\s*(.+)$"
   "(?i)check\s+(.+)"   "(?i)inspect\s+(.+)"   "(?i)verify\s+(.+)"   "(?i)test\s+(.+)"
   each with its flags and its last group *)
Definition generic_task_patterns : list (flags * re * nat) :=
  [ (multi_line,
     Seq [Bol; Star space; Grp 1 (Plus digit); item_mark; Star space;
          Grp 2 (Plus Dot); Eol], 2);
    (multi_line,
     Seq [Bol; Star space; one_of ["-"%char; "*"%char]; Star space;
          Grp 1 (Plus Dot); Eol], 1);
    (ignore_case, Seq [Lit "check"; Plus space; Grp 1 (Plus Dot)], 1);
    (ignore_case, Seq [Lit "inspect"; Plus space; Grp 1 (Plus Dot)], 1);
    (ignore_case, Seq [Lit "verify"; Plus space; Grp 1 (Plus Dot)], 1);
    (ignore_case, Seq [Lit "test"; Plus space; Grp 1 (Plus Dot)], 1) ].

(** [system_names.add(...)] over the matches of one pattern; the set is
    kept as the list of its elements in insertion order. *)
Fixpoint add_system_names (matches : list mobj) (system_names : list pystr)
  : list pystr :=
  match matches with
  | [] => system_names
  | m :: matches' =>
      let name := strip (group m 1 ++ lit " " ++ group m 2) in
      if (5 <? List.length name) && (List.length name <? 100)
      then
        if mem (title name) system_names
        then add_system_names matches' system_names
        else add_system_names matches' (system_names ++ [title name])
      else add_system_names matches' system_names
  end.

(** The [for match in matches] loop over one task pattern; the state is
    the task list and [task_number]; it returns early on [break]. *)
Fixpoint add_generic_tasks (last_group : nat) (matches : list mobj)
    (tasks : list Task.t) (task_number : Z) : list Task.t * Z :=
  match matches with
  | [] => (tasks, task_number)
  | m :: matches' =>
      let task_desc := strip (group m last_group) in
      if (10 <? List.length task_desc) && (List.length task_desc <? 200)
      then
        let tasks := tasks ++ [mk_task task_number task_desc] in
        let task_number := (task_number + 1)%Z in
        if (20 <? task_number)%Z then (tasks, task_number)
        else add_generic_tasks last_group matches' tasks task_number
      else add_generic_tasks last_group matches' tasks task_number
  end.

Definition generic_tasks (text : pystr) : list Task.t :=
  fst (fold_left
         (fun st p =>
            let '(fl, pattern, last_group) := p in
            add_generic_tasks last_group (finditer fl pattern text) (fst st) (snd st))
         generic_task_patterns ([], 1%Z)).

Definition extract_generic_systems (w : World.t) (text : pystr)
  : list Inspection.t :=
  let system_names :=
    fold_left (fun names pattern => add_system_names (finditer ignore_case pattern text) names)
              generic_patterns [] in
  let tasks := generic_tasks text in
  flat_map
    (fun system_name =>
       match firstn (Nat.min (List.length tasks) 10) tasks with
       | [] => []
       | system_tasks => [mk_system system_name system_tasks]
       end)
    (firstn 5 (World.set_order w system_names)).

(** *** Strategy 3: [extract_checklist_items] *)

(* "(?i)checklist|inspection|maintenance|safety|procedure"
   "(?i)equipment|system|component|device|machinery"
   "(?i)task|item|step|check|verify|test|inspect" *)
Definition checklist_patterns : list re :=
  [ Alts [Lit "checklist"; Lit "inspection"; Lit "maintenance"; Lit "safety";
          Lit "procedure"];
    Alts [Lit "equipment"; Lit "system"; Lit "component"; Lit "device";
          Lit "machinery"];
    Alts [Lit "task"; Lit "item"; Lit "step"; Lit "check"; Lit "verify";
          Lit "test"; Lit "inspect"] ].

(* "^\d+[\.\)]\s*(.+)" *)
Definition numbered_item : re :=
  Seq [Bol; Plus digit; item_mark; Star space; Grp 1 (Plus Dot)].

Record checklist_state := {
  inspections : list Inspection.t;
  current_system : option pystr;
  current_tasks : list Task.t;
  task_number : Z
}.

(** [current_system and current_tasks] *)
Definition has_system_with_tasks (st : checklist_state) : option pystr :=
  match current_system st, current_tasks st with
  | Some [], _ => None
  | Some system, _ :: _ => Some system
  | _, _ => None
  end.

Definition flush (st : checklist_state) : list Inspection.t :=
  match has_system_with_tasks st with
  | Some system => inspections st ++ [mk_system system (current_tasks st)]
  | None => inspections st
  end.

Definition add_task (st : checklist_state) (description : pystr) : checklist_state :=
  {| inspections := inspections st;
     current_system := current_system st;
     current_tasks := current_tasks st ++ [mk_task (task_number st) description];
     task_number := (task_number st + 1)%Z |}.

(** The body of the loop over the lines. *)
Definition checklist_line (st : checklist_state) (line : pystr) : checklist_state :=
  let line := strip line in
  match line with
  | [] => st
  | _ =>
      if existsb (fun pattern => found ignore_case pattern line) (firstn 2 checklist_patterns)
      then
        if (10 <? List.length line) && (List.length line <? 100)
        then {| inspections := flush st;
                current_system := Some (title line);
                current_tasks := [];
                task_number := 1 |}
        else st
      else if existsb (fun pattern => found ignore_case pattern line) (skipn 2 checklist_patterns)
      then
        if (15 <? List.length line) && (List.length line <? 200)
        then add_task st line
        else st
      else
        match rmatch no_flags numbered_item line with
        | Some m =>
            if 10 <? List.length (group m 1) then add_task st (group m 1) else st
        | None => st
        end
  end.

Definition extract_checklist_items (text : pystr) : list Inspection.t :=
  flush (fold_left checklist_line (split_nl text)
                   {| inspections := []; current_system := None;
                      current_tasks := []; task_number := 1 |}).

(** *** Strategy 4: [create_intelligent_fallback] *)

Definition create_intelligent_fallback (text : pystr) : list Inspection.t :=
  let text_lower := lower text in
  if contains "belt" text_lower || contains "conveyor" text_lower then
    [ mk_system "Belt Conveyor Inspection"
        [ mk_task 1 "Check belt alignment and tracking";
          mk_task 2 "Inspect belt condition for wear and damage";
          mk_task 3 "Check belt tension and adjustment";
          mk_task 4 "Inspect pulleys and rollers";
          mk_task 5 "Check belt cleaners and scrapers" ] ]
  else if contains "electrical" text_lower || contains "motor" text_lower then
    [ mk_system "Electrical Equipment Inspection"
        [ mk_task 1 "Check electrical connections and terminals";
          mk_task 2 "Inspect motor condition and operation";
          mk_task 3 "Test electrical safety systems";
          mk_task 4 "Check control panel and switches";
          mk_task 5 "Verify grounding and insulation" ] ]
  else if contains "pump" text_lower || contains "hydraulic" text_lower then
    [ mk_system "Pump and Hydraulic System Inspection"
        [ mk_task 1 "Check pump operation and performance";
          mk_task 2 "Inspect hydraulic lines and connections";
          mk_task 3 "Check fluid levels and quality";
          mk_task 4 "Test pressure relief valves";
          mk_task 5 "Inspect seals and gaskets for leaks" ] ]
  else
    [ mk_system "Equipment Inspection Checklist"
        [ mk_task 1 "Visual inspection of equipment condition";
          mk_task 2 "Check for any visible damage or wear";
          mk_task 3 "Verify proper operation and functionality";
          mk_task 4 "Check safety features and protective guards";
          mk_task 5 "Document any issues or recommendations" ] ].

(** *** [_detect_document_type] *)

Definition equipment_indicators : list (pystr * list pystr) :=
  [ (lit "conveyor", [lit "belt"; lit "conveyor"; lit "scraper"; lit "pulley"; lit "roller"]);
    (lit "electrical", [lit "electrical"; lit "motor"; lit "electric"; lit "control";
                        lit "panel"; lit "circuit"]);
    (lit "hydraulic", [lit "hydraulic"; lit "pump"; lit "fluid"; lit "pressure";
                       lit "valve"; lit "cylinder"]);
    (lit "mechanical", [lit "mechanical"; lit "bearing"; lit "gear"; lit "shaft";
                        lit "coupling"; lit "vibration"]);
    (lit "safety", [lit "safety"; lit "emergency"; lit "guard"; lit "lockout";
                    lit "loto"; lit "hazard"]);
    (lit "hvac", [lit "hvac"; lit "air"; lit "ventilation"; lit "cooling";
                  lit "heating"; lit "filter"]);
    (lit "general", [lit "inspection"; lit "maintenance"; lit "checklist"; lit "audit";
                     lit "service"]) ].

(** [os.path.basename] *)
Fixpoint basename_aux (path cur : pystr) : pystr :=
  match path with
  | [] => rev cur
  | c :: path' =>
      if Ascii.eqb c "/" then basename_aux path' []
      else basename_aux path' (c :: cur)
  end.

Definition basename (path : pystr) : pystr := basename_aux path [].

(** [sum(1 for keyword in keywords if keyword in filename)] *)
Definition filename_score (filename : pystr) (keywords : list pystr) : nat :=
  List.length (filter (fun keyword => contains keyword filename) keywords).

(** [sum(sample_text.count(keyword) for keyword in keywords)] *)
Definition content_score (sample_text : pystr) (keywords : list pystr) : nat :=
  list_sum (map (fun keyword => count sample_text keyword) keywords).

(** A dict of scores holding the categories with a positive score, in the
    declared order of the categories. *)
Definition positive_scores (score : list pystr -> nat) : list (pystr * nat) :=
  filter (fun cs => 0 <? snd cs)
         (map (fun ck => (fst ck, score (snd ck))) equipment_indicators).

(** [scores.get(category, 0)] *)
Fixpoint get (scores : list (pystr * nat)) (category : pystr) : nat :=
  match scores with
  | [] => 0
  | (c, n) :: scores' => if PyStr.eqb c category then n else get scores' category
  end.

(** [set(a) | set(b)], as the list of its elements in insertion order *)
Fixpoint union (a b : list pystr) : list pystr :=
  match b with
  | [] => a
  | x :: b' => if mem x a then union a b' else union (a ++ [x]) b'
  end.

(** [max(scores.keys(), key=lambda k: scores[k])]: the first key, in
    iteration order, whose score no other key exceeds. *)
Fixpoint max_key (scores : list (pystr * nat)) (best : pystr * nat) : pystr :=
  match scores with
  | [] => fst best
  | cs :: scores' =>
      if snd best <? snd cs then max_key scores' cs else max_key scores' best
  end.

Definition max_of (scores : list (pystr * nat)) : option pystr :=
  match scores with
  | [] => None
  | cs :: scores' => Some (max_key scores' cs)
  end.

(** The text sampled from the first pages. *)
Definition sample_text (pages : list pystr) : pystr :=
  lower (List.concat (map (firstn 1000) (firstn 3 pages))).

Definition total_scores (w : World.t) (filename_scores content_scores : list (pystr * nat))
  : list (pystr * nat) :=
  map (fun category =>
         (category, get filename_scores category * 1 + get content_scores category * 2))
      (World.set_order w (union (map fst filename_scores) (map fst content_scores))).

Definition _detect_document_type (w : World.t) (pdf_path : pystr) : pystr :=
  let filename := lower (basename pdf_path) in
  let filename_scores := positive_scores (filename_score filename) in
  let from_filename :=
    match max_of filename_scores with
    | Some best_filename_category => best_filename_category
    | None => lit "general"
    end in
  if World.PYMUPDF_AVAILABLE w then
    match World.fitz_open w pdf_path with
    | inr pages =>
        let content_scores := positive_scores (content_score (sample_text pages)) in
        match max_of (total_scores w filename_scores content_scores) with
        | Some best_category => best_category
        | None => from_filename
        end
    | inl _ => from_filename
    end
  else from_filename.

(** *** [_convert_ai_result_to_legacy_format] *)

(** [x or ""] *)
Definition or_empty (x : option pystr) : pystr :=
  match x with
  | Some ((_ :: _) as v) => v
  | _ => []
  end.

Definition _convert_ai_result_to_legacy_format (ai_result : Schemas.AIExtractionResult.t)
  : list Inspection.t :=
  map (fun system =>
         {| Inspection.name := Schemas.SystemSchema.name system;
            Inspection.description :=
              Some (or_empty (Schemas.SystemSchema.description system));
            Inspection.tasks :=
              map (fun task =>
                     {| Task.number := Schemas.TaskSchema.number task;
                        Task.description := Schemas.TaskSchema.description task;
                        Task.type := Some (Schemas.TaskSchema.type task);
                        Task.requirements :=
                          Some (or_empty (Schemas.TaskSchema.requirements task));
                        Task.safety_notes :=
                          Some (or_empty (Schemas.TaskSchema.safety_notes task)) |})
                  (Schemas.SystemSchema.tasks system) |})
      (Schemas.AIExtractionResult.systems ai_result).

(** *** [extract_inspections_from_pdf] *)

(** The text of all pages, each followed by a newline; [inl] when
    [fitz.open] raises. *)
Definition read_all_text (w : World.t) (pdf_path : pystr) : World.exn + pystr :=
  match World.fitz_open w pdf_path with
  | inl e => inl e
  | inr pages => inr (List.concat (map (fun page_text => page_text ++ [nl]) pages))
  end.

(** The premium-AI block: the converted result when the AI result passes
    the gate; [None] when the gate fails or an exception was caught. *)
Definition premium_ai (w : World.t) (pdf_path : pystr) : option (list Inspection.t) :=
  let document_type := _detect_document_type w pdf_path in
  match Services.process_pdf w pdf_path with
  | Some ai_result =>
      if Schemas.AIExtractionResult.success ai_result
         && Services.gt (Schemas.AIExtractionResult.confidence ai_result) Services.f_0_3
      then Some (_convert_ai_result_to_legacy_format ai_result)
      else None
  | None => None
  end.

(** The heuristic strategies, by the order of their calls. *)
Inductive strategy :=
| Custom              (* extract_custom_user_systems *)
| BeltScraper         (* extract_belt_scraper_systems *)
| SystemChecklist     (* extract_system_checklist_patterns *)
| Generic             (* extract_generic_systems *)
| ChecklistItems      (* extract_checklist_items *)
| IntelligentFallback (* create_intelligent_fallback *).

Definition run (w : World.t) (s : strategy) (text : pystr)
  : World.exn + list Inspection.t :=
  match s with
  | Custom => extract_custom_user_systems text
  | BeltScraper => inr (extract_belt_scraper_systems text)
  | SystemChecklist => extract_system_checklist_patterns text
  | Generic => inr (extract_generic_systems w text)
  | ChecklistItems => inr (extract_checklist_items text)
  | IntelligentFallback => inr (create_intelligent_fallback text)
  end.

(** The state of the chain: the [inspections] list, the strategies called
    so far (kept to speak about which calls are made), and the exception
    that a strategy raised, after which nothing more is run. *)
Record chain := {
  found_inspections : list Inspection.t;
  calls : list strategy;
  raised : option World.exn
}.

(** [xs = strategy(all_text); if xs: inspections.extend(xs)] *)
Definition call (w : World.t) (text : pystr) (s : strategy) (st : chain) : chain :=
  match raised st with
  | Some _ => st
  | None =>
      match run w s text with
      | inr xs =>
          {| found_inspections := found_inspections st ++ xs;
             calls := calls st ++ [s];
             raised := None |}
      | inl e =>
          {| found_inspections := found_inspections st;
             calls := calls st ++ [s];
             raised := Some e |}
      end
  end.

(** [if not inspections: ...] *)
Definition unless_found (st : chain) (step : chain -> chain) : chain :=
  match raised st with
  | Some _ => st
  | None =>
      match found_inspections st with
      | [] => step st
      | _ => st
      end
  end.

Definition legacy_chain (w : World.t) (all_text : pystr) : chain :=
  let st := {| found_inspections := []; calls := []; raised := None |} in
  let st := call w all_text Custom st in
  let st := unless_found st (call w all_text BeltScraper) in
  let st := unless_found st (call w all_text SystemChecklist) in
  let st := unless_found st (fun st =>
              if World.PYMUPDF_AVAILABLE w
              then call w all_text ChecklistItems (call w all_text Generic st)
              else st) in
  let st := unless_found st (call w all_text IntelligentFallback) in
  st.

Definition no_pymupdf_text : pystr :=
  "Fallback inspection data - PyMuPDF not available for text extraction".

(** [extract_inspections_from_pdf]: [inl e] when the exception [e] is
    logged and raised again. *)
Definition extract_inspections_from_pdf (w : World.t) (pdf_path : pystr)
  : World.exn + list Inspection.t :=
  match (if World.PYMUPDF_AVAILABLE w then read_all_text w pdf_path else inr []) with
  | inl e => inl e
  | inr _ =>
      match (if World.AI_PROCESSING_AVAILABLE w then premium_ai w pdf_path else None) with
      | Some inspections => inr inspections
      | None =>
          match (if World.PYMUPDF_AVAILABLE w then read_all_text w pdf_path
                 else inr no_pymupdf_text) with
          | inl e => inl e
          | inr all_text =>
              let st := legacy_chain w all_text in
              match raised st with
              | Some e => inl e
              | None => inr (found_inspections st)
              end
          end
      end
  end.

(** *** [process_inspection_pdf] *)

Module InspectionPDF.
Record t := {
  id : nat;
  file_name : pystr;
  processed : bool;
  processing_errors : option pystr
}.
End InspectionPDF.

Module InspectionSystem.
Record t := {
  id : nat;
  name : pystr;
  pdf : nat
}.
End InspectionSystem.

Module ChecklistTask.
Record t := {
  system : nat;
  number : option Z;
  description : pystr
}.
End ChecklistTask.

(** The tables the function writes to. *)
Record database := {
  inspection_pdfs : list InspectionPDF.t;
  inspection_systems : list InspectionSystem.t;
  checklist_tasks : list ChecklistTask.t
}.

(** [os.path.join(a, b)] *)
Definition path_join (a b : pystr) : pystr :=
  if startswith "/" b then b
  else match rev a with
       | [] => b
       | c :: _ => if Ascii.eqb c "/" then a ++ b else a ++ lit "/" ++ b
       end.

(** [InspectionSystem.objects.filter(name=..., pdf=...).first()] *)
Definition existing_system (db : database) (system_name : pystr) (pdf : nat)
  : option InspectionSystem.t :=
  List.find (fun s => PyStr.eqb (InspectionSystem.name s) system_name
                      && (InspectionSystem.pdf s =? pdf))
            (inspection_systems db).

(** [inspection_pdf.save()] *)
Definition save (inspection_pdf : InspectionPDF.t) (db : database) : database :=
  {| inspection_pdfs :=
       inspection_pdf
         :: filter (fun p => negb (InspectionPDF.id p =? InspectionPDF.id inspection_pdf))
                   (inspection_pdfs db);
     inspection_systems := inspection_systems db;
     checklist_tasks := checklist_tasks db |}.

(** [InspectionSystem.objects.create(name=..., pdf=...)], accepted: the
    new row gets the next id. *)
Definition add_system (system_name : pystr) (pdf : nat) (db : database)
  : nat * database :=
  let system_id := S (list_max (map InspectionSystem.id (inspection_systems db))) in
  (system_id,
   {| inspection_pdfs := inspection_pdfs db;
      inspection_systems :=
        inspection_systems db
          ++ [ {| InspectionSystem.id := system_id;
                  InspectionSystem.name := system_name;
                  InspectionSystem.pdf := pdf |} ];
      checklist_tasks := checklist_tasks db |}).

(** The row that [ChecklistTask.objects.create(system=..., number=...,
    description=...)] writes for a task. *)
Definition task_row (system : nat) (task : Task.t) : ChecklistTask.t :=
  {| ChecklistTask.system := system;
     ChecklistTask.number := Task.number task;
     ChecklistTask.description := Task.description task |}.

(** [ChecklistTask.objects.create(...)], accepted. *)
Definition add_task_row (system : nat) (task : Task.t) (db : database) : database :=
  {| inspection_pdfs := inspection_pdfs db;
     inspection_systems := inspection_systems db;
     checklist_tasks := checklist_tasks db ++ [task_row system task] |}.

(** The loop over the tasks of a new system: the exception that ended it,
    if any, and the database then.  The rows written before an exception
    stay. *)
Fixpoint create_tasks (w : World.t) (system : nat) (tasks : list Task.t)
    (db : database) : option World.exn * database :=
  match tasks with
  | [] => (None, db)
  | task :: tasks' =>
      match World.db_raises w
              (World.create_task system (Task.number task) (Task.description task)) with
      | Some e => (Some e, db)
      | None => create_tasks w system tasks' (add_task_row system task db)
      end
  end.

(** One round of the loop over the inspections. *)
Definition store_inspection (w : World.t) (pdf : nat) (db : database)
    (inspection : Inspection.t) : option World.exn * database :=
  let system_name := Inspection.name inspection in
  match World.db_raises w (World.first_system system_name pdf) with
  | Some e => (Some e, db)
  | None =>
      match existing_system db system_name pdf with
      | Some _ => (None, db)
      | None =>
          match World.db_raises w (World.create_system system_name pdf) with
          | Some e => (Some e, db)
          | None =>
              let '(system_id, db) := add_system system_name pdf db in
              create_tasks w system_id (Inspection.tasks inspection) db
          end
      end
  end.

(** The loop over the inspections. *)
Fixpoint store_inspections (w : World.t) (pdf : nat) (inspections : list Inspection.t)
    (db : database) : option World.exn * database :=
  match inspections with
  | [] => (None, db)
  | inspection :: inspections' =>
      match store_inspection w pdf db inspection with
      | (Some e, db) => (Some e, db)
      | (None, db) => store_inspections w pdf inspections' db
      end
  end.

Definition set_processed (inspection_pdf : InspectionPDF.t) : InspectionPDF.t :=
  {| InspectionPDF.id := InspectionPDF.id inspection_pdf;
     InspectionPDF.file_name := InspectionPDF.file_name inspection_pdf;
     InspectionPDF.processed := true;
     InspectionPDF.processing_errors := InspectionPDF.processing_errors inspection_pdf |}.

Definition set_processing_errors (error_message : pystr)
    (inspection_pdf : InspectionPDF.t) : InspectionPDF.t :=
  {| InspectionPDF.id := InspectionPDF.id inspection_pdf;
     InspectionPDF.file_name := InspectionPDF.file_name inspection_pdf;
     InspectionPDF.processed := InspectionPDF.processed inspection_pdf;
     InspectionPDF.processing_errors := Some error_message |}.

(** The [except Exception as e:] branch. *)
Definition record_error (e : World.exn) (inspection_pdf : InspectionPDF.t)
    (db : database) : bool * InspectionPDF.t * database :=
  let error_message := lit "Error processing PDF: " ++ e in
  let inspection_pdf := set_processing_errors error_message inspection_pdf in
  (false, inspection_pdf, save inspection_pdf db).

(** What the [try] block raises, if anything, and the database when it
    ends. *)
Definition try_block (w : World.t) (inspection_pdf : InspectionPDF.t) (db : database)
  : option World.exn * database :=
  let pdf_path := path_join (World.MEDIA_ROOT w) (InspectionPDF.file_name inspection_pdf) in
  match extract_inspections_from_pdf w pdf_path with
  | inr inspections =>
      store_inspections w (InspectionPDF.id inspection_pdf) inspections db
  | inl e => (Some e, db)
  end.

(** [process_inspection_pdf]: the value returned, the model instance and
    the database afterwards. *)
Definition process_inspection_pdf (w : World.t) (inspection_pdf : InspectionPDF.t)
    (db : database) : bool * InspectionPDF.t * database :=
  match try_block w inspection_pdf db with
  | (None, db) =>
      let inspection_pdf := set_processed inspection_pdf in
      (true, inspection_pdf, save inspection_pdf db)
  | (Some e, db) => record_error e inspection_pdf db
  end.

End Utils.

(** * Vocabulary of the statements *)

Import Schemas Re Utils.

(** The candidate [d] with other totals. *)
Definition with_totals (total_systems total_tasks : option Z) (d : ResponseData.t)
  : ResponseData.t :=
  {| ResponseData.success := ResponseData.success d;
     ResponseData.confidence := ResponseData.confidence d;
     ResponseData.processing_method := ResponseData.processing_method d;
     ResponseData.metadata := ResponseData.metadata d;
     ResponseData.systems := ResponseData.systems d;
     ResponseData.total_systems := total_systems;
     ResponseData.total_tasks := total_tasks;
     ResponseData.processing_time := ResponseData.processing_time d;
     ResponseData.extraction_quality := ResponseData.extraction_quality d;
     ResponseData.warnings := ResponseData.warnings d |}.





(** The [type] of a task is absent or names a member of the enum. *)
Definition type_known (d : TaskData.t) : Prop :=
  match TaskData.type d with
  | None => True
  | Some s => TaskType_of s <> None
  end.

(** The tasks of a system are present, valid and not empty. *)
Definition tasks_valid (d : SystemData.t) : Prop :=
  exists raw t ts,
    SystemData.tasks d = Some raw /\ each TaskSchema_init raw = Some (t :: ts).

(** A task that validation has produced: its description is a trimmed
    string of 10 to 500 characters. *)
Definition trimmed_task (task : TaskSchema.t) : Prop :=
  exists v, TaskSchema.description task = strip v /\
            10 <= List.length (strip v) <= 500.

(** A system that validation has produced: its name is a trimmed string
    of at most 200 characters, its tasks are validated tasks numbered from
    1 on. *)
Definition validated_system (system : SystemSchema.t) : Prop :=
  (exists v, SystemSchema.name system = strip v) /\
  List.length (SystemSchema.name system) <= 200 /\
  SystemSchema.tasks system <> [] /\
  Forall trimmed_task (SystemSchema.tasks system) /\
  renumber 1 (SystemSchema.tasks system) = SystemSchema.tasks system.

(** The matcher state [n] characters further on. *)
Definition skip_state (n : nat) (s : mstate) : mstate :=
  {| before := rev (firstn n (rest s)) ++ before s;
     rest := skipn n (rest s);
     caps := caps s |}.

(** The number of characters of the text a state belongs to. *)
Definition text_length (s : mstate) : nat :=
  List.length (before s) + List.length (rest s).

(** [s'] is a state of the same text, at or after the cursor of [s]. *)
Definition further (s s' : mstate) : Prop :=
  text_length s' = text_length s /\ pos s <= pos s'.

(** Every system of a list has at least one task. *)
Definition all_have_tasks (l : list Inspection.t) : Prop :=
  Forall (fun s => Inspection.tasks s <> []) l.

(** The stages of the heuristic chain: the strategies that run together. *)
Definition stages (w : World.t) : list (list strategy) :=
  [ [Custom]; [BeltScraper]; [SystemChecklist] ]
  ++ (if World.PYMUPDF_AVAILABLE w then [ [Generic; ChecklistItems] ] else [])
  ++ [ [IntelligentFallback] ].

(** What a stage contributes: the results of its strategies, in order, or
    the exception that one of them raises. *)
Definition run_stage (w : World.t) (text : pystr) (stage : list strategy)
  : World.exn + list Inspection.t :=
  for_each (fun found s =>
              match run w s text with
              | inl e => inl e
              | inr xs => inr (found ++ xs)
              end)
           stage [].

(** The systems that a call returns; none when it raises. *)
Definition returned (result : World.exn + list Inspection.t) : list Inspection.t :=
  match result with
  | inr inspections => inspections
  | inl _ => []
  end.

(** [sub] occurs in [s]. *)
Definition substring (sub s : pystr) : Prop := exists a b, s = a ++ sub ++ b.

(** No run of digits in the text is longer than [int] accepts. *)
Definition numbers_fit (text : pystr) : Prop :=
  forall run, substring run text -> forallb isdigit run = true ->
              List.length run <= int_max_str_digits.

(** The [ValueError] that [int] raises for a string of more digits than
    the limit. *)
Definition digit_limit_error (e : World.exn) : Prop :=
  exists digits, int_max_str_digits < digits /\ e = int_limit_message digits.

(** The numbers of the groups of a pattern all satisfy [G]. *)
Fixpoint groups_all (G : nat -> Prop) (r : re) : Prop :=
  match r with
  | Cat a b | Alt a b => groups_all G a /\ groups_all G b
  | Rep a _ _ => groups_all G a
  | Grp j a => G j /\ groups_all G a
  | _ => True
  end.

(** What the configured backend, PostgreSQL, refuses: a name of more than
    255 characters for the [varchar(255)] column, a number outside the
    32-bit range of the [integer] column, a missing number.  The texts
    stand for the messages of the server, to which the driver may add. *)
Definition postgresql (c : World.db_call) : option World.exn :=
  match c with
  | World.first_system _ _ => None
  | World.create_system name _ =>
      if 255 <? List.length name
      then Some (lit "value too long for type character varying(255)")
      else None
  | World.create_task _ (Some number) _ =>
      if ((-2147483648 <=? number) && (number <=? 2147483647))%Z
      then None
      else Some (lit "integer out of range")
  | World.create_task _ None _ =>
      Some (lit "null value in column number violates not-null constraint")
  end.

(** The text the classifier samples, when it can read the file. *)
Definition sampled (w : World.t) (pdf_path : pystr) : option pystr :=
  if World.PYMUPDF_AVAILABLE w then
    match World.fitz_open w pdf_path with
    | inr pages => Some (sample_text pages)
    | inl _ => None
    end
  else None.

(** The score the code gives to a category with the keywords [keywords]:
    one per keyword present in the file name, two per occurrence of a
    keyword in the sampled text. *)
Definition score (w : World.t) (pdf_path : pystr) (keywords : list pystr) : nat :=
  filename_score (lower (basename pdf_path)) keywords * 1
  + match sampled w pdf_path with
    | Some text => content_score text keywords
    | None => 0
    end * 2.

(** Following the spec's words: the score of a category counts the
    occurrences of its keywords in the file name once and in the sampled
    text twice. *)
Definition occurrence_score (filename text : pystr) (keywords : list pystr) : nat :=
  list_sum (map (count filename) keywords) * 1
  + list_sum (map (count text) keywords) * 2.

(** The keywords declared for a category. *)
Definition keywords_of (category : pystr) : list pystr :=
  match List.find (fun ck => PyStr.eqb (fst ck) category) equipment_indicators with
  | Some ck => snd ck
  | None => []
  end.

(** An entry of a score dict, and the test that keeps it. *)
Definition entry (sc : list pystr -> nat) (ck : pystr * list pystr) : pystr * nat :=
  (fst ck, sc (snd ck)).

Definition positive (cs : pystr * nat) : bool := 0 <? snd cs.

(** * Sample inputs *)

Definition a_task (number : option Z) (description : pystr) : TaskData.t :=
  {| TaskData.number := number;
     TaskData.description := Some description;
     TaskData.type := None;
     TaskData.requirements := None;
     TaskData.safety_notes := None;
     TaskData.estimated_time := None |}.

Definition a_system (name : pystr) (tasks : list TaskData.t) : SystemData.t :=
  {| SystemData.name := Some name;
     SystemData.description := None;
     SystemData.category := None;
     SystemData.location := None;
     SystemData.manufacturer := None;
     SystemData.model := None;
     SystemData.tasks := Some tasks |}.

Definition a_response (confidence : option Q) (systems : list SystemData.t)
    (total_systems total_tasks : Z) : ResponseData.t :=
  {| ResponseData.success := Some true;
     ResponseData.confidence := confidence;
     ResponseData.processing_method := Some (lit "gpt-4-vision");
     ResponseData.metadata := None;
     ResponseData.systems := Some systems;
     ResponseData.total_systems := Some total_systems;
     ResponseData.total_tasks := Some total_tasks;
     ResponseData.processing_time := None;
     ResponseData.extraction_quality := None;
     ResponseData.warnings := None |}.

(** Two systems with badly numbered tasks and wrong totals. *)
Definition pump_and_motor : ResponseData.t :=
  a_response (Some (9 # 10)%Q)
    [ a_system "Pump P-101"
        [ a_task (Some 7%Z) "Check the pump seal for leaks";
          a_task (Some 7%Z) "  Inspect the coupling guard  ";
          a_task None "Verify the discharge pressure" ];
      a_system "Motor M-7"
        [ a_task (Some 3%Z) "Check motor bearing temperature";
          a_task (Some 1%Z) "Test the emergency stop" ] ]
    40 1.

(** A system whose name is two letters between blanks. *)
Definition padded_name : ResponseData.t :=
  a_response (Some (9 # 10)%Q)
    [ a_system "  ab  " [ a_task (Some 1%Z) "Check the pump seal for leaks" ] ]
    1 1.

(** One pump with one task, under a given confidence. *)
Definition with_confidence (confidence : option Q) : ResponseData.t :=
  a_response confidence
    [ a_system "Pump P-101" [ a_task (Some 1%Z) "Check the pump seal for leaks" ] ]
    1 1.

(** A description of 19 characters followed by 482 blanks. *)
Definition padded_description : pystr :=
  lit "Check the pump seal" ++ repeat " "%char 482.

(** Two pages that carry the general title only. *)
Definition two_reports : pystr :=
  "Belt Conveyor Inspection - page 1
BELT CONVEYOR INSPECTION - page 2
".

(** A note that names one device and one check. *)
Definition pump_notes : pystr :=
  "Main pump device:
verify pressure relief valve opens".

(** Two titled checklists (scenario A of the spec). *)
Definition two_scrapers : pystr :=
  "Belt Scraper system 1-Inspection Checklist
Belt Scraper system 2-Inspection Checklist
".

(** A document with the given pages, no AI service loaded; sets hand out
    their elements in insertion order. *)
Definition offline (pages : list pystr) : World.t :=
  {| World.PYMUPDF_AVAILABLE := true;
     World.AI_PROCESSING_AVAILABLE := false;
     World.MEDIA_ROOT := "/srv/media";
     World.fitz_open := fun _ => inr pages;
     World.openai_available := false;
     World.claude_available := false;
     World.google_available := false;
     World.openai_reply := fun _ => None;
     World.claude_reply := fun _ => None;
     World.elapsed := 1%Q;
     World.set_order := fun l => l;
     World.db_raises := postgresql |}.

(** A scanned document: one page whose text names no keyword; the AI
    module is loaded but no service is configured; sets hand out their
    elements in the order [order]. *)
Definition scanned (order : list pystr -> list pystr) : World.t :=
  {| World.PYMUPDF_AVAILABLE := true;
     World.AI_PROCESSING_AVAILABLE := true;
     World.MEDIA_ROOT := "/srv/media";
     World.fitz_open := fun _ => inr [lit "Scanned copy"];
     World.openai_available := false;
     World.claude_available := false;
     World.google_available := false;
     World.openai_reply := fun _ => None;
     World.claude_reply := fun _ => None;
     World.elapsed := 1%Q;
     World.set_order := order;
     World.db_raises := postgresql |}.

(** A file that the PDF library cannot open, all services configured. *)
Definition unreadable : World.t :=
  {| World.PYMUPDF_AVAILABLE := true;
     World.AI_PROCESSING_AVAILABLE := true;
     World.MEDIA_ROOT := "/srv/media";
     World.fitz_open := fun _ => inl (lit "cannot open broken document");
     World.openai_available := true;
     World.claude_available := true;
     World.google_available := true;
     World.openai_reply := fun _ => None;
     World.claude_reply := fun _ => None;
     World.elapsed := 1%Q;
     World.set_order := fun l => l;
     World.db_raises := postgresql |}.

(** A report with the general phrase and a task line whose number has 4301
    digits. *)
Definition long_number_report : pystr :=
  lit "Belt Conveyor Inspection" ++ [nl] ++ repeat "9"%char 4301
    ++ lit " Check the belt tension".

Definition report_pdf : InspectionPDF.t :=
  {| InspectionPDF.id := 1;
     InspectionPDF.file_name := "pdfs/report.pdf";
     InspectionPDF.processed := false;
     InspectionPDF.processing_errors := None |}.

Definition empty_database : database :=
  {| inspection_pdfs := []; inspection_systems := []; checklist_tasks := [] |}.

(** A section with a task line whose number does not fit the 32-bit
    column. *)
Definition oversized_number : pystr :=
  "Pump system 1
99999999999999999999. Check the oil level in the tank
".

(** * Further vocabulary *)

(** The tasks are numbered 1, 2, 3, ... in list order. *)
Definition numbered_from_one (tasks : list Task.t) : Prop :=
  map Task.number tasks
  = map (fun i => Some (Z.of_nat i)) (seq 1 (List.length tasks)).

(** A string that neither starts nor ends with a whitespace character. *)
Definition no_outer_space (s : pystr) : Prop :=
  match s with [] => True | c :: _ => isspace c = false end /\
  match rev s with [] => True | c :: _ => isspace c = false end.

(** What validation keeps of a candidate task: every field but the number,
    the description trimmed, an absent type read as "inspection". *)
Definition same_task (td : TaskData.t) (t : TaskSchema.t) : Prop :=
  (exists v, TaskData.description td = Some v /\ TaskSchema.description t = strip v) /\
  match TaskData.type td with
  | Some s => s = TaskType_value (TaskSchema.type t)
  | None => TaskSchema.type t = inspection
  end /\
  TaskSchema.requirements t = TaskData.requirements td /\
  TaskSchema.safety_notes t = TaskData.safety_notes td /\
  TaskSchema.estimated_time t = TaskData.estimated_time td.

(** What validation keeps of a candidate system: every field, the name
    trimmed, the tasks one for one and in order. *)
Definition same_system (sd : SystemData.t) (s : SystemSchema.t) : Prop :=
  (exists v, SystemData.name sd = Some v /\ SystemSchema.name s = strip v) /\
  SystemSchema.description s = SystemData.description sd /\
  SystemSchema.category s = SystemData.category sd /\
  SystemSchema.location s = SystemData.location sd /\
  SystemSchema.manufacturer s = SystemData.manufacturer sd /\
  SystemSchema.model s = SystemData.model sd /\
  exists tasks, SystemData.tasks sd = Some tasks /\
                Forall2 same_task tasks (SystemSchema.tasks s).

(** * Further sample inputs *)

(** A pump with one good task and one task whose type is not a member of
    the enum. *)
Definition one_bad_task : ResponseData.t :=
  a_response (Some (9 # 10)%Q)
    [ a_system "Pump P-101"
        [ a_task (Some 1%Z) "Check the pump seal for leaks";
          {| TaskData.number := Some 2%Z;
             TaskData.description := Some (lit "Inspect the coupling guard");
             TaskData.type := Some (lit "Inspection");
             TaskData.requirements := None;
             TaskData.safety_notes := None;
             TaskData.estimated_time := None |} ] ]
    1 2.

(** What [process_inspection_pdf] stores of an extracted system: its name
    and, of each task, the number and the description. *)
Definition stored (s : Inspection.t) : pystr * list (option Z * pystr) :=
  (Inspection.name s,
   map (fun t => (Task.number t, Task.description t)) (Inspection.tasks s)).

(** What [create_intelligent_fallback] gives for a text without any of its
    keywords. *)
Definition equipment_checklist : Inspection.t :=
  mk_system "Equipment Inspection Checklist"
    [ mk_task 1 "Visual inspection of equipment condition";
      mk_task 2 "Check for any visible damage or wear";
      mk_task 3 "Verify proper operation and functionality";
      mk_task 4 "Check safety features and protective guards";
      mk_task 5 "Document any issues or recommendations" ].

(** A document of one page whose providers answer [reply]; only the
    services named are configured. *)
Definition online (openai claude google : bool) (pages : list pystr)
    (reply : option ResponseData.t) : World.t :=
  {| World.PYMUPDF_AVAILABLE := true;
     World.AI_PROCESSING_AVAILABLE := true;
     World.MEDIA_ROOT := "/srv/media";
     World.fitz_open := fun _ => inr pages;
     World.openai_available := openai;
     World.claude_available := claude;
     World.google_available := google;
     World.openai_reply := fun _ => reply;
     World.claude_reply := fun _ => reply;
     World.elapsed := 2%Q;
     World.set_order := fun l => l;
     World.db_raises := postgresql |}.

(** An installation without the PDF library, hence without the AI module,
    which imports it. *)
Definition bare : World.t :=
  {| World.PYMUPDF_AVAILABLE := false;
     World.AI_PROCESSING_AVAILABLE := false;
     World.MEDIA_ROOT := "/srv/media";
     World.fitz_open := fun _ => inl (lit "No module named 'fitz'");
     World.openai_available := false;
     World.claude_available := false;
     World.google_available := false;
     World.openai_reply := fun _ => None;
     World.claude_reply := fun _ => None;
     World.elapsed := 1%Q;
     World.set_order := fun l => l;
     World.db_raises := postgresql |}.

(** The strings of a list are pairwise different. *)
Fixpoint distinct (l : list pystr) : bool :=
  match l with
  | [] => true
  | x :: l' => negb (mem x l') && distinct l'
  end.

(** A task description that strategy 0 takes from the text: more than ten
    characters, with the word "check" in it, in any case. *)
Definition names_a_check (description : pystr) : Prop :=
  10 < List.length description /\ contains "check" (lower description) = true.

(** Two numbered checks under a title that appears twice. *)
Definition repeated_title : pystr :=
  "Belt Scraper system 4-Inspection Checklist
2 Check scraper frames and blades
1 Check worn or missing blades
Belt Scraper system 4-Inspection Checklist
".

(** A task description of the generic strategy: trimmed, of 11 to 199
    characters. *)
Definition generic_description (description : pystr) : Prop :=
  10 < List.length description < 200 /\ no_outer_space description.

(** The title-cased form ([str.title]) of a string of more than [lo] and
    fewer than [hi] characters. *)
Definition title_cased (lo hi : nat) (name : pystr) : Prop :=
  exists s, name = title s /\ lo < List.length s < hi.

(** The title-cased form of a line of 11 to 99 characters. *)
Definition heading (system : pystr) : Prop := title_cased 10 100 system.

(** A system that the checklist strategy has completed: its name is a
    heading, its tasks have more than ten characters and are numbered from
    1. *)
Definition checklist_system (s : Inspection.t) : Prop :=
  heading (Inspection.name s) /\
  Inspection.tasks s <> [] /\
  numbered_from_one (Inspection.tasks s) /\
  Forall (fun t => 10 < List.length (Task.description t)) (Inspection.tasks s).

(** What the harvest of task lines keeps: checks of more than ten
    characters, no two of them equal up to case. *)
Definition harvested (st : list (Z * pystr) * list pystr) : Prop :=
  Forall (fun nd => names_a_check (snd nd)) (fst st) /\
  NoDup (map (fun nd => lower (snd nd)) (fst st)) /\
  (forall nd, In nd (fst st) -> In (lower (snd nd)) (snd st)).

(** What the loop of [extract_checklist_items] keeps true of its state. *)
Definition checklist_inv (st : checklist_state) : Prop :=
  Forall checklist_system (inspections st) /\
  match current_system st with
  | Some system => heading system
  | None => True
  end /\
  numbered_from_one (current_tasks st) /\
  task_number st = Z.of_nat (List.length (current_tasks st) + 1) /\
  Forall (fun t => 10 < List.length (Task.description t)) (current_tasks st).

(** A page with a heading, two tasks under it and a task before it. *)
Definition pump_page : pystr :=
  "1. Record the ambient temperature
Cooling water pump system
1. Check the pump seal for leaks
- Inspect the coupling guard
".

(** A task of the system-checklist strategy: it has a number, and its
    description has 11 to 99 characters and none of the words that mark a
    form field. *)
Definition section_task (t : Task.t) : Prop :=
  Task.number t <> None /\
  10 < List.length (Task.description t) < 100 /\
  forall skip, In skip skip_words -> contains skip (lower (Task.description t)) = false.

(** The numbers of the tasks do not decrease along the list. *)
Definition ascending (tasks : list Task.t) : Prop :=
  StronglySorted (fun a b => (task_key a <= task_key b)%Z) tasks.

(** * More of utils.py: [create_fallback_systems] *)

(* "(?m)^\s*(\d+)[\.\)]\s*(.+)$" *)
Definition numbered_line : re :=
  Seq [Bol; Star space; Grp 1 (Plus digit); item_mark; Star space;
       Grp 2 (Plus Dot); Eol].

Definition basic_tasks : list Task.t :=
  [ mk_task 1 "Visual inspection of equipment condition";
    mk_task 2 "Check for any visible damage or wear";
    mk_task 3 "Verify proper operation";
    mk_task 4 "Check safety features and guards";
    mk_task 5 "Document any issues or concerns" ].

(** [for i, (num, desc) in enumerate(numbered_items, i)]: an item with a
    short description is passed over, and its index with it. *)
Fixpoint fallback_tasks (i : nat) (numbered_items : list (pystr * pystr))
  : list Task.t :=
  match numbered_items with
  | [] => []
  | (num, desc) :: numbered_items' =>
      if 5 <? List.length (strip desc)
      then mk_task (Z.of_nat i) (strip desc) :: fallback_tasks (S i) numbered_items'
      else fallback_tasks (S i) numbered_items'
  end.

Definition create_fallback_systems (text : pystr) : list Inspection.t :=
  let system_name := lit "General Inspection Checklist" in
  let numbered_items :=
    map (fun m => (group m 1, group m 2)) (finditer multi_line numbered_line text) in
  let basic_tasks :=
    match numbered_items with
    | [] => basic_tasks
    | _ =>
        match fallback_tasks 1 (firstn 15 numbered_items) with
        | [] => basic_tasks
        | extracted_tasks => extracted_tasks
        end
    end in
  [mk_system system_name basic_tasks].

(** * views.py: the [process] action of [InspectionPDFViewSet] *)

Module Views.

(** A value of the request data, as the JSON or form parser gives it
    (floats are the finite ones). *)
#[local] Unset Elimination Schemes.
Inductive value :=
| Null
| Bool (b : bool)
| Int (n : Z)
| Float (x : Q)
| Str (s : pystr)
| Array (items : list value)
| Object (members : list (pystr * value)).
#[local] Set Elimination Schemes.

(** The truth value Python gives it. *)
Definition truthy (v : value) : bool :=
  match v with
  | Null => false
  | Bool b => b
  | Int n => negb (n =? 0)%Z
  | Float x => negb (Qeq_bool x 0)
  | Str s => negb (List.length s =? 0)
  | Array items => negb (List.length items =? 0)
  | Object members => negb (List.length members =? 0)
  end.

(** The body of a response; a key that is not set is [None]. *)
Record response := {
  status_code : nat;
  detail : pystr;
  already_processed : option bool;
  systems_count : option nat;
  error : option (option pystr);
  status : pystr
}.

(** [InspectionSystem.objects.filter(pdf=inspection_pdf).count()] *)
Definition count_systems (db : database) (inspection_pdf : InspectionPDF.t) : nat :=
  List.length (filter (fun s => InspectionSystem.pdf s =? InspectionPDF.id inspection_pdf)
                      (inspection_systems db)).

(** [process(request, pk)], from the object that [get_object()] found;
    [force] is [request.data.get('force')]. *)
Definition process (w : World.t) (inspection_pdf : InspectionPDF.t)
    (force : option value) (db : database) : response * database :=
  let force_reprocess :=
    match force with
    | Some v => truthy v
    | None => false
    end in
  if InspectionPDF.processed inspection_pdf && negb force_reprocess then
    ({| status_code := 200;
        detail := "PDF has already been processed.";
        already_processed := Some true;
        systems_count := Some (count_systems db inspection_pdf);
        error := None;
        status := "success" |}, db)
  else
    let '(success, inspection_pdf, db) := process_inspection_pdf w inspection_pdf db in
    if success then
      ({| status_code := 200;
          detail := "PDF processed successfully.";
          already_processed := Some false;
          systems_count := Some (count_systems db inspection_pdf);
          error := None;
          status := "success" |}, db)
    else
      ({| status_code := 500;
          detail := "Failed to process PDF.";
          already_processed := None;
          systems_count := None;
          error := Some (InspectionPDF.processing_errors inspection_pdf);
          status := "error" |}, db).

End Views.

(** No two systems of one document have the same name. *)
Definition unique_names (db : database) : Prop :=
  NoDup (map (fun s => (InspectionSystem.name s, InspectionSystem.pdf s))
             (inspection_systems db)).

(** The numbers of a task list, given as the positions [ks]. *)
Definition numbered_at (ks : list nat) (tasks : list Task.t) : Prop :=
  map Task.number tasks = map (fun k => Some (Z.of_nat k)) ks.

(** Three numbered lines, the second too short to be a task. *)
Definition short_second_line : pystr :=
  "1. Check the oil level
2. n/a
3. Grease the front bearing
".

(** The first system of each name, in list order: [seen] holds the names
    met so far. *)
Fixpoint first_of_each_name (seen : list pystr) (l : list Inspection.t)
  : list Inspection.t :=
  match l with
  | [] => []
  | s :: l' =>
      if mem (Inspection.name s) seen then first_of_each_name seen l'
      else s :: first_of_each_name (Inspection.name s :: seen) l'
  end.

(** What the database holds for a document: its systems, each with the
    numbers and descriptions of its tasks, in the order of their creation. *)
Definition rows_of (db : database) (pdf : nat)
  : list (pystr * list (option Z * pystr)) :=
  map (fun s =>
         (InspectionSystem.name s,
          map (fun t => (ChecklistTask.number t, ChecklistTask.description t))
              (filter (fun t => ChecklistTask.system t =? InspectionSystem.id s)
                      (checklist_tasks db))))
      (filter (fun s => InspectionSystem.pdf s =? pdf) (inspection_systems db)).

(** The keys of the database are sound: no two systems share an id, and
    every task belongs to a system. *)
Definition well_formed (db : database) : Prop :=
  NoDup (map InspectionSystem.id (inspection_systems db)) /\
  Forall (fun t => In (ChecklistTask.system t)
                      (map InspectionSystem.id (inspection_systems db)))
         (checklist_tasks db).

(** The request asks for reprocessing. *)
Definition forced (force : option Views.value) : bool :=
  match force with
  | Some v => Views.truthy v
  | None => false
  end.

(** The same heading twice, each time with its own task. *)
Definition repeated_heading : pystr :=
  "Cooling water pump system
1. Check the pump seal for leaks
Cooling water pump system
1. Inspect the coupling guard
".

(** An answer that names the same pump twice, each time with one task. *)
Definition twin_pumps : ResponseData.t :=
  a_response (Some (9 # 10)%Q)
    [ a_system "Pump P-101" [ a_task (Some 1%Z) "Check the pump seal for leaks" ];
      a_system "Pump P-101" [ a_task (Some 1%Z) "Inspect the coupling guard" ] ]
    2 2.

(** A task as the premium path returns it: numbered, typed, with a
    trimmed description of 10 to 500 characters. *)
Definition converted_task (t : Task.t) : Prop :=
  Task.number t <> None /\
  Task.type t <> None /\
  10 <= List.length (Task.description t) <= 500 /\
  no_outer_space (Task.description t).

(** A system as the premium path returns it. *)
Definition converted_system (s : Inspection.t) : Prop :=
  List.length (Inspection.name s) <= 200 /\
  no_outer_space (Inspection.name s) /\
  Inspection.tasks s <> [] /\
  numbered_from_one (Inspection.tasks s) /\
  Forall converted_task (Inspection.tasks s).

(** A line that [extract_checklist_items] takes for the heading of a
    system: trimmed, it has 11 to 99 characters and one of the words of
    the first two patterns. *)
Definition is_heading (line : pystr) : bool :=
  existsb (fun pattern => found ignore_case pattern (strip line))
          (firstn 2 checklist_patterns)
  && (10 <? List.length (strip line)) && (List.length (strip line) <? 100).

(** Two states of the loop of [extract_checklist_items] that the rest of
    the text cannot tell apart: the same state, or two states outside any
    system with the same systems completed. *)
Definition same_outcome (a b : checklist_state) : Prop :=
  a = b \/
  (current_system a = None /\ current_system b = None /\
   inspections a = inspections b).

(** * Facts about strings *)

Lemma pystr_eqb_refl (a : pystr) : PyStr.eqb a a = true.
Proof.
  induction a as [|x a IH]; simpl; [reflexivity|].
  rewrite Ascii.eqb_refl. exact IH.
Qed.

Lemma pystr_eqb_eq (a : pystr) : forall b, PyStr.eqb a b = true <-> a = b.
Proof.
  induction a as [|x a IH]; intros [|y b]; simpl; split; intros H;
    try reflexivity; try discriminate.
  - apply andb_true_iff in H. destruct H as [H1 H2].
    apply Ascii.eqb_eq in H1. apply IH in H2. congruence.
  - injection H as -> ->. rewrite Ascii.eqb_refl. apply pystr_eqb_refl.
Qed.

Lemma startswith_length (p : pystr) :
  forall s, startswith p s = true -> List.length p <= List.length s.
Proof.
  induction p as [|x p IH]; intros [|y s]; simpl; intros H;
    try lia; try discriminate.
  apply andb_true_iff in H. destruct H as [_ H]. apply IH in H. lia.
Qed.

Lemma lstrip_length (s : pystr) : List.length (lstrip s) <= List.length s.
Proof.
  induction s as [|c s IH]; simpl; [lia|].
  destruct (isspace c); simpl; lia.
Qed.

Lemma strip_length (s : pystr) : List.length (strip s) <= List.length s.
Proof.
  unfold strip, rstrip. rewrite length_rev.
  etransitivity; [apply lstrip_length|]. rewrite length_rev. apply lstrip_length.
Qed.

Lemma lstrip_head (s : pystr) :
  lstrip s = [] \/ exists c r, lstrip s = c :: r /\ isspace c = false.
Proof.
  induction s as [|c s IH]; simpl; [left; reflexivity|].
  destruct (isspace c) eqn:E; [exact IH|]. right. exists c, s. auto.
Qed.

Lemma lstrip_idem (s : pystr) : lstrip (lstrip s) = lstrip s.
Proof.
  destruct (lstrip_head s) as [E|(c & r & E & Hc)]; rewrite E; simpl;
    [reflexivity|]. rewrite Hc. reflexivity.
Qed.

Lemma lstrip_snoc (l : pystr) (c : ascii) :
  isspace c = false -> lstrip (l ++ [c]) = lstrip l ++ [c].
Proof.
  intros Hc. induction l as [|x l IH]; simpl.
  - rewrite Hc. reflexivity.
  - destruct (isspace x); [exact IH|reflexivity].
Qed.

Lemma rstrip_cons (c : ascii) (a : pystr) :
  isspace c = false -> rstrip (c :: a) = c :: rstrip a.
Proof.
  intros Hc. unfold rstrip. simpl rev. rewrite lstrip_snoc by exact Hc.
  rewrite rev_app_distr. reflexivity.
Qed.

Lemma rstrip_idem (a : pystr) : rstrip (rstrip a) = rstrip a.
Proof. unfold rstrip. rewrite rev_involutive, lstrip_idem. reflexivity. Qed.

(** Trimming a trimmed string changes nothing. *)
Lemma strip_idem (s : pystr) : strip (strip s) = strip s.
Proof.
  unfold strip. destruct (lstrip_head s) as [E|(c & r & E & Hc)]; rewrite E.
  - reflexivity.
  - rewrite (@rstrip_cons c r Hc). simpl lstrip. rewrite Hc.
    rewrite (@rstrip_cons c (rstrip r) Hc), rstrip_idem. reflexivity.
Qed.

(** * Facts about the matcher *)

Lemma mt_Chr_I (c : ascii) (st : mstate) (k : mstate -> option mstate) :
  mt ignore_case (Chr c) st k
  = match rest st with
    | x :: r => if Ascii.eqb (lower_c c) (lower_c x) then k (skip_state 1 st) else None
    | [] => None
    end.
Proof.
  simpl. unfold advance, skip_state. destruct st as [b [|x r] cs]; reflexivity.
Qed.

Lemma skip_state_S (n : nat) (st : mstate) (x : ascii) (r : list ascii) :
  rest st = x :: r -> skip_state n (skip_state 1 st) = skip_state (S n) st.
Proof.
  intros E. unfold skip_state. simpl. rewrite E. simpl.
  rewrite <- app_assoc. reflexivity.
Qed.

(** A literal pattern, matched without regard to case, is a prefix test on
    the lowered strings. *)
Lemma mt_Lit_I (s : pystr) : forall st k,
  mt ignore_case (Lit s) st k
  = if startswith (lower s) (lower (rest st))
    then k (skip_state (List.length s) st) else None.
Proof.
  induction s as [|c s IH]; intros st k.
  - simpl. unfold skip_state. simpl. destruct st; reflexivity.
  - assert (G : mt ignore_case (Lit (c :: s)) st k
                = mt ignore_case (Chr c) st (fun st' => mt ignore_case (Lit s) st' k)).
    { destruct s; [|reflexivity]. simpl Lit. rewrite !mt_Chr_I. reflexivity. }
    rewrite G, mt_Chr_I. clear G.
    destruct (rest st) as [|x r] eqn:E; simpl; [reflexivity|].
    destruct (Ascii.eqb (lower_c c) (lower_c x)); simpl; [|reflexivity].
    rewrite IH. unfold skip_state at 1. simpl rest. rewrite E. simpl skipn.
    destruct (startswith (lower s) (lower r)); [|reflexivity].
    f_equal. eapply skip_state_S; eauto.
Qed.

Lemma match_at_Lit_I (s : pystr) (bef rst : list ascii) :
  match_at ignore_case (Lit s) bef rst
  = if startswith (lower s) (lower rst)
    then Some {| m_start := List.length bef;
                 m_end := List.length (rev (firstn (List.length s) rst) ++ bef);
                 m_caps := [] |}
    else None.
Proof.
  unfold match_at. rewrite mt_Lit_I. simpl.
  destruct (startswith (lower s) (lower rst)); reflexivity.
Qed.

Lemma scan_Lit_count (s : pystr) : forall rst bef skip,
  List.length (scan ignore_case (Lit s) bef rst skip) = count_from (lower s) (lower rst) skip.
Proof.
  induction rst as [|c rst IH]; intros bef skip.
  - destruct skip; simpl; [|reflexivity].
    rewrite match_at_Lit_I. simpl lower.
    destruct (startswith (lower s) []); reflexivity.
  - destruct skip as [|skip]; simpl scan; simpl count_from; [|apply IH].
    rewrite match_at_Lit_I.
    change (lower_c c :: lower rst) with (lower (c :: rst)).
    destruct (startswith (lower s) (lower (c :: rst))) eqn:E.
    + simpl List.length at 1. rewrite IH. f_equal. f_equal. f_equal.
      simpl m_end. simpl m_start.
      apply startswith_length in E. unfold lower in *. rewrite !length_map in *.
      rewrite length_app, length_rev, firstn_length_le by exact E. lia.
    + apply IH.
Qed.

(** [len(re.findall(phrase, text, re.IGNORECASE))] is the number of
    occurrences of the lowered phrase in the lowered text. *)
Lemma finditer_Lit_count (s text : pystr) :
  List.length (finditer ignore_case (Lit s) text) = count (lower text) (lower s).
Proof. apply scan_Lit_count. Qed.

Lemma search_scan (fl : flags) (r : re) : forall rst bef,
  search_from fl r bef rst = None <-> scan fl r bef rst 0 = [].
Proof.
  induction rst as [|c rst IH]; intros bef; simpl.
  - destruct (match_at fl r bef []); split; intros; congruence.
  - destruct (match_at fl r bef (c :: rst)); [split; intros; congruence|]. apply IH.
Qed.

(** [re.search] finds a match exactly when [re.finditer] yields one. *)
Lemma found_finditer (fl : flags) (r : re) (text : pystr) :
  found fl r text = negb (match finditer fl r text with [] => true | _ => false end).
Proof.
  unfold found, search, finditer.
  pose proof (search_scan fl r text []) as H.
  destruct (search_from fl r [] text); destruct (scan fl r [] text 0); simpl; auto.
  - destruct H as [_ H]. discriminate H. reflexivity.
  - destruct H as [H _]. discriminate H. reflexivity.
Qed.

Lemma further_refl (s : mstate) : further s s.
Proof. split; reflexivity. Qed.

Lemma further_trans (a b c : mstate) : further a b -> further b c -> further a c.
Proof. unfold further. intros [H1 H2] [H3 H4]. split; [congruence|lia]. Qed.

Lemma advance_further (s s' : mstate) (x : ascii) :
  advance s = Some (x, s') -> further s s'.
Proof.
  unfold advance. destruct (rest s) as [|c r] eqn:E; [discriminate|].
  intros H. injection H as <- <-. unfold further, text_length, pos. simpl.
  rewrite E. simpl. lia.
Qed.

Lemma set_cap_further (i : nat) (s0 s s' : mstate) :
  further s s' -> further s (set_cap i s0 s').
Proof. unfold further, text_length, pos. simpl. auto. Qed.

(** Above the number of characters left, the counter of a repetition has no
    say in the result. *)
Lemma rep_loop_ext (body : mstate -> (mstate -> option mstate) -> option mstate)
    (lo : nat) (hi : option nat) :
  (forall s k1 k2, (forall s', further s s' -> k1 s' = k2 s') -> body s k1 = body s k2) ->
  forall n m done s k1 k2,
    List.length (rest s) < n -> List.length (rest s) < m ->
    (forall s', further s s' -> k1 s' = k2 s') ->
    rep_loop body lo hi k1 n done s = rep_loop body lo hi k2 m done s.
Proof.
  intros Hbody. induction n as [|n IH]; intros m done s k1 k2 Hn Hm Hk; [lia|].
  destruct m as [|m]; [lia|]. simpl.
  rewrite (Hk s (further_refl s)).
  destruct (may_repeat hi done); [|reflexivity].
  rewrite (Hbody s
             (fun s' => if pos s <? pos s' then rep_loop body lo hi k1 n (S done) s' else None)
             (fun s' => if pos s <? pos s' then rep_loop body lo hi k2 m (S done) s' else None)).
  - reflexivity.
  - intros s' Hs'. destruct (pos s <? pos s') eqn:E; [|reflexivity].
    apply Nat.ltb_lt in E. destruct Hs' as [Ht Hp].
    unfold text_length, pos in *.
    apply IH; try lia.
    intros s'' Hs''. apply Hk. eapply further_trans; [|exact Hs''].
    split; [exact Ht|exact Hp].
Qed.

(** The matcher reads its continuation only at states of the same text, at
    or after the cursor. *)
Lemma mt_ext (fl : flags) (r : re) :
  forall s k1 k2, (forall s', further s s' -> k1 s' = k2 s') ->
                  mt fl r s k1 = mt fl r s k2.
Proof.
  induction r as [| c | p | | | | a IHa b IHb | a IHa b IHb | a IHa lo hi | i a IHa];
    intros s k1 k2 Hk;
    try (change (mt fl (Rep a lo hi) s k1)
           with (rep_loop (mt fl a) lo hi k1 (S (List.length (rest s))) 0 s);
         change (mt fl (Rep a lo hi) s k2)
           with (rep_loop (mt fl a) lo hi k2 (S (List.length (rest s))) 0 s)).
  - simpl. apply Hk, further_refl.
  - simpl. destruct (advance s) as [[x s']|] eqn:E; [|reflexivity].
    destruct (chr_eq fl c x); [|reflexivity]. apply Hk. eapply advance_further; eauto.
  - simpl. destruct (advance s) as [[x s']|] eqn:E; [|reflexivity].
    destruct (cls_in fl p x); [|reflexivity]. apply Hk. eapply advance_further; eauto.
  - simpl. destruct (advance s) as [[x s']|] eqn:E; [|reflexivity].
    destruct (Ascii.eqb x nl); [reflexivity|]. apply Hk. eapply advance_further; eauto.
  - simpl. destruct (at_bol fl s); [|reflexivity]. apply Hk, further_refl.
  - simpl. destruct (at_eol fl s); [|reflexivity]. apply Hk, further_refl.
  - simpl. apply IHa. intros s' Hs'. apply IHb. intros s'' Hs''.
    apply Hk. eapply further_trans; eauto.
  - simpl. rewrite (IHa s k1 k2 Hk), (IHb s k1 k2 Hk). reflexivity.
  - apply rep_loop_ext; auto.
  - simpl. apply IHa. intros s' Hs'. apply Hk. apply set_cap_further. exact Hs'.
Qed.

(** The counter of a repetition never runs out: any two counters above the
    number of characters left give the same result. *)
Lemma rep_loop_counter (fl : flags) (a : re) (lo : nat) (hi : option nat)
    (k : mstate -> option mstate) (n m done : nat) (s : mstate) :
  List.length (rest s) < n -> List.length (rest s) < m ->
  rep_loop (mt fl a) lo hi k n done s = rep_loop (mt fl a) lo hi k m done s.
Proof.
  intros Hn Hm. apply rep_loop_ext; auto. apply mt_ext.
Qed.

(** ** What a match captures *)

Section Invariant.

(** A property of the matcher state that reading a character and closing a
    group (one whose number satisfies [G]) keep: the matcher hands it to its
    continuation. *)
Variable fl : flags.
Variable P : mstate -> Prop.
Variable G : nat -> Prop.
Hypothesis P_advance : forall s x s', P s -> advance s = Some (x, s') -> P s'.
Hypothesis P_set_cap : forall i s0 s1, G i -> P s0 -> P s1 -> P (set_cap i s0 s1).

Lemma rep_loop_inv (body : mstate -> (mstate -> option mstate) -> option mstate)
    (lo : nat) (hi : option nat) (k : mstate -> option mstate) :
  (forall s k' res, P s -> body s k' = Some res -> exists s', P s' /\ k' s' = Some res) ->
  forall n done s res,
    P s -> rep_loop body lo hi k n done s = Some res ->
    exists s', P s' /\ k s' = Some res.
Proof.
  intros Hbody. induction n as [|n IH]; intros done s res Hs; simpl.
  - destruct (lo <=? done); [eauto|discriminate].
  - destruct (may_repeat hi done); [|destruct (lo <=? done); [eauto|discriminate]].
    match goal with
    | |- context [body s ?K] => destruct (body s K) as [r0|] eqn:E
    end.
    + intros H. injection H as <-. apply Hbody in E; [|exact Hs].
      destruct E as (s' & Hs' & E). destruct (pos s <? pos s'); [|discriminate].
      eapply IH; eauto.
    + destruct (lo <=? done); [eauto|discriminate].
Qed.

Lemma mt_inv (r : re) :
  groups_all G r ->
  forall s k res, P s -> mt fl r s k = Some res -> exists s', P s' /\ k s' = Some res.
Proof.
  induction r as [| c | p | | | | a IHa b IHb | a IHa b IHb | a IHa lo hi | i a IHa];
    intros Hg s k res Hs;
    try (change (mt fl (Rep a lo hi) s k)
           with (rep_loop (mt fl a) lo hi k (S (List.length (rest s))) 0 s)).
  - simpl. eauto.
  - simpl. destruct (advance s) as [[x s']|] eqn:E; [|discriminate].
    destruct (chr_eq fl c x); [|discriminate]. eauto.
  - simpl. destruct (advance s) as [[x s']|] eqn:E; [|discriminate].
    destruct (cls_in fl p x); [|discriminate]. eauto.
  - simpl. destruct (advance s) as [[x s']|] eqn:E; [|discriminate].
    destruct (Ascii.eqb x nl); [discriminate|]. eauto.
  - simpl. destruct (at_bol fl s); [eauto|discriminate].
  - simpl. destruct (at_eol fl s); [eauto|discriminate].
  - simpl. destruct Hg as [Ha Hb]. intros H.
    apply (IHa Ha) in H; [|exact Hs]. destruct H as (s' & Hs' & H).
    apply (IHb Hb) in H; [|exact Hs']. exact H.
  - simpl. destruct Hg as [Ha Hb].
    destruct (mt fl a s k) as [r0|] eqn:E.
    + intros H. injection H as <-. eapply IHa; eauto.
    + intros H. eapply IHb; eauto.
  - apply rep_loop_inv; [|exact Hs]. intros s0 k' res' Hs0 H. eapply IHa; eauto.
  - simpl. destruct Hg as [Hi Ha]. intros H.
    apply (IHa Ha) in H; [|exact Hs]. destruct H as (s' & Hs' & H).
    exists (set_cap i s s'). split; [apply P_set_cap; assumption | exact H].
Qed.

End Invariant.

Lemma groups_all_True (r : re) : groups_all (fun _ => True) r.
Proof. induction r; simpl; auto. Qed.

Lemma substring_refl (s : pystr) : substring s s.
Proof. exists [], []. rewrite app_nil_r. reflexivity. Qed.

Lemma substring_trans (a b c : pystr) : substring a b -> substring b c -> substring a c.
Proof.
  intros (x & y & ->) (u & v & ->). exists (u ++ x), (y ++ v).
  rewrite <- !app_assoc. reflexivity.
Qed.

Lemma substring_skipn (n : nat) (s : pystr) : substring (skipn n s) s.
Proof. exists (firstn n s), []. rewrite app_nil_r, firstn_skipn. reflexivity. Qed.

Lemma substring_firstn (n : nat) (s : pystr) : substring (firstn n s) s.
Proof. exists [], (skipn n s). simpl. rewrite firstn_skipn. reflexivity. Qed.

Lemma substring_length (a b : pystr) : substring a b -> List.length a <= List.length b.
Proof. intros (x & y & ->). rewrite !length_app. lia. Qed.

(** Every group of a match holds a piece of the text. *)
Lemma match_at_substrings (fl : flags) (r : re) (bef rst : list ascii) (m : mobj) :
  match_at fl r bef rst = Some m ->
  Forall (fun c => substring (snd c) (rev bef ++ rst)) (m_caps m).
Proof.
  unfold match_at. set (text := rev bef ++ rst).
  destruct (mt fl r _ Some) as [s_end|] eqn:E; [|discriminate].
  intros H. injection H as <-. cbn [m_caps].
  apply (@mt_inv fl
           (fun s => rev (before s) ++ rest s = text /\
                     Forall (fun c => substring (snd c) text) (caps s))
           (fun _ => True)) in E.
  - destruct E as (s' & [_ Hs'] & E). injection E as <-. exact Hs'.
  - intros s x s' [Ht Hc] Ha. unfold advance in Ha.
    destruct (rest s) as [|c rs] eqn:Er; [discriminate|]. injection Ha as <- <-.
    cbn [before rest caps]. split; [|exact Hc].
    rewrite <- Ht. simpl. rewrite <- app_assoc. reflexivity.
  - intros i s0 s1 _ [Ht0 _] [Ht1 Hc1]. unfold set_cap. cbn [before rest caps].
    split; [exact Ht1|]. constructor; [|exact Hc1]. cbn [snd].
    eapply substring_trans; [apply substring_firstn|].
    rewrite <- Ht0. exists (rev (before s0)), []. rewrite app_nil_r. reflexivity.
  - apply groups_all_True.
  - cbn [before rest caps]. split; [reflexivity|constructor].
Qed.

(** The matches that [re.finditer] yields are matches at a position of the
    text. *)
Lemma scan_In (fl : flags) (r : re) (m : mobj) : forall rst bef skip,
  In m (scan fl r bef rst skip) ->
  exists bef' rst', rev bef' ++ rst' = rev bef ++ rst /\
                    match_at fl r bef' rst' = Some m.
Proof.
  assert (Hstep : forall c (bef rst : list ascii),
            rev (c :: bef) ++ rst = rev bef ++ c :: rst).
  { intros c bef rst. simpl. rewrite <- app_assoc. reflexivity. }
  induction rst as [|c rst IH]; intros bef skip Hin.
  - destruct skip; simpl in Hin; [|contradiction].
    destruct (match_at fl r bef []) as [m0|] eqn:E; [|contradiction].
    destruct Hin as [<-|[]]. eauto.
  - destruct skip as [|skip]; simpl in Hin.
    + destruct (match_at fl r bef (c :: rst)) as [m0|] eqn:E.
      * destruct Hin as [<-|Hin]; [eauto|].
        apply IH in Hin. destruct Hin as (b' & r' & Ht & Hm).
        exists b', r'. rewrite Ht, Hstep. auto.
      * apply IH in Hin. destruct Hin as (b' & r' & Ht & Hm).
        exists b', r'. rewrite Ht, Hstep. auto.
    + apply IH in Hin. destruct Hin as (b' & r' & Ht & Hm).
      exists b', r'. rewrite Ht, Hstep. auto.
Qed.

Lemma lookup_In (i : nat) (l : list (nat * pystr)) (v : pystr) :
  lookup i l = Some v -> In (i, v) l.
Proof.
  induction l as [|[j u] l IH]; simpl; [discriminate|].
  destruct (i =? j) eqn:E.
  - apply Nat.eqb_eq in E. intros H. injection H as <-. left. congruence.
  - intros H. right. apply IH. exact H.
Qed.

(** What [m.group(i)] gives for a match of [re.finditer] is a piece of the
    text. *)
Lemma group_substring (fl : flags) (r : re) (text : pystr) (m : mobj) (i : nat) :
  In m (finditer fl r text) -> substring (group m i) text.
Proof.
  intros Hin. apply scan_In in Hin. destruct Hin as (bef & rst & Ht & Hm).
  apply match_at_substrings in Hm. rewrite Ht in Hm. simpl in Hm.
  unfold group. destruct (lookup i (m_caps m)) as [v|] eqn:E.
  - apply lookup_In in E. rewrite Forall_forall in Hm. apply (Hm _ E).
  - exists [], text. reflexivity.
Qed.

Lemma skip_state_0 (s : mstate) : skip_state 0 s = s.
Proof. destruct s. reflexivity. Qed.

(** A repetition of a character class stops after characters of the
    class. *)
Lemma rep_class (fl : flags) (p : ascii -> bool) (lo : nat) (hi : option nat)
    (k : mstate -> option mstate) : forall n done s res,
  rep_loop (mt fl (Cls p)) lo hi k n done s = Some res ->
  exists j, j <= List.length (rest s) /\
            forallb (cls_in fl p) (firstn j (rest s)) = true /\
            k (skip_state j s) = Some res.
Proof.
  assert (Hstop : forall done s res,
            (if lo <=? done then k s else None) = Some res ->
            exists j, j <= List.length (rest s) /\
                      forallb (cls_in fl p) (firstn j (rest s)) = true /\
                      k (skip_state j s) = Some res).
  { intros done s res H. destruct (lo <=? done); [|discriminate].
    exists 0. rewrite skip_state_0. split; [lia|]. split; [reflexivity|exact H]. }
  induction n as [|n IH]; intros done s res; [apply Hstop|].
  change (rep_loop (mt fl (Cls p)) lo hi k (S n) done s)
    with (if may_repeat hi done then
            match mt fl (Cls p) s
                    (fun s' => if pos s <? pos s'
                               then rep_loop (mt fl (Cls p)) lo hi k n (S done) s'
                               else None) with
            | Some res => Some res
            | None => if lo <=? done then k s else None
            end
          else if lo <=? done then k s else None).
  destruct (may_repeat hi done); [|apply Hstop].
  destruct (mt fl (Cls p) s _) as [r0|] eqn:E; [|apply Hstop].
  intros H. injection H as <-. simpl in E. unfold advance in E.
  destruct s as [b [|c rs] cs]; cbn [rest before caps] in *; [discriminate|].
  destruct (cls_in fl p c) eqn:Ec; [|discriminate].
  destruct (pos _ <? pos _); [|discriminate].
  apply IH in E. destruct E as (j & Hj & Hall & Hk).
  cbn [rest] in Hj, Hall. exists (S j). split; [simpl; lia|]. split.
  - simpl. rewrite Ec. exact Hall.
  - rewrite <- Hk. f_equal. unfold skip_state. cbn [before rest caps].
    simpl. rewrite <- app_assoc. reflexivity.
Qed.

Lemma forallb_same {A : Type} (f g : A -> bool) (l : list A) :
  (forall x, f x = g x) -> forallb f l = forallb g l.
Proof.
  intros H. induction l as [|x l IH]; simpl; [reflexivity|]. rewrite H, IH. reflexivity.
Qed.

Lemma cls_in_digit (fl : flags) (x : ascii) : cls_in fl isdigit x = isdigit x.
Proof.
  unfold cls_in. destruct (IGNORECASE fl); [|reflexivity].
  destruct x as [[] [] [] [] [] [] [] []]; reflexivity.
Qed.

(** A pattern that starts with the group ["(\d...)"], numbered 1, and has
    no other group of that number captures digits in it. *)
Lemma leading_digits (fl : flags) (lo : nat) (hi : option nat) (R : re)
    (bef rst : list ascii) (m : mobj) :
  groups_all (fun j => j <> 1) R ->
  match_at fl (Cat (Grp 1 (Rep (Cls isdigit) lo hi)) R) bef rst = Some m ->
  forallb isdigit (group m 1) = true.
Proof.
  intros HR. unfold match_at.
  set (s := {| before := bef; rest := rst; caps := [] |}).
  destruct (mt fl _ s Some) as [s_end|] eqn:E; [|discriminate].
  intros H. injection H as <-. unfold group. cbn [m_caps].
  change (mt fl (Cat (Grp 1 (Rep (Cls isdigit) lo hi)) R) s Some)
    with (rep_loop (mt fl (Cls isdigit)) lo hi
            (fun s' => mt fl R (set_cap 1 s s') Some)
            (S (List.length (rest s))) 0 s) in E.
  apply rep_class in E. destruct E as (j & Hj & Hall & E).
  set (v := firstn j (rest s)) in *.
  apply (@mt_inv fl (fun s' => lookup 1 (caps s') = Some v) (fun j => j <> 1)) in E.
  - destruct E as (s' & Hs' & E). injection E as <-. rewrite Hs'.
    rewrite <- Hall. apply forallb_same. intros x. symmetry. apply cls_in_digit.
  - intros s0 x s' H0 Ha. unfold advance in Ha.
    destruct (rest s0); [discriminate|]. injection Ha as <- <-. exact H0.
  - intros i s0 s1 Hi _ H1. unfold set_cap. cbn [caps lookup].
    destruct (1 =? i) eqn:Ei; [apply Nat.eqb_eq in Ei; congruence|exact H1].
  - exact HR.
  - unfold set_cap, skip_state, pos. cbn [before rest caps lookup]. simpl Nat.eqb.
    cbv iota. f_equal. unfold v. f_equal.
    rewrite length_app, length_rev, firstn_length_le by exact Hj. lia.
Qed.


(** * Facts about the schemas *)

Lemma each_Forall2 {A B : Type} (f : A -> option B) (l : list A) :
  forall l', each f l = Some l' -> Forall2 (fun x y => f x = Some y) l l'.
Proof.
  induction l as [|x l IH]; simpl; intros l' H.
  - injection H as <-. constructor.
  - destruct (f x) eqn:Hx; [|discriminate].
    destruct (each f l) eqn:Hl; [|discriminate].
    injection H as <-. constructor; auto.
Qed.



Lemma each_id {A B : Type} (f : B -> option A) (g : A -> B) (l : list A) :
  Forall (fun x => f (g x) = Some x) l -> each f (map g l) = Some l.
Proof.
  induction 1 as [|x l Hx _ IH]; simpl; [reflexivity|]. rewrite Hx, IH. reflexivity.
Qed.

Lemma renumber_length (v : list TaskSchema.t) :
  forall i, List.length (renumber i v) = List.length v.
Proof. induction v; simpl; intros; auto. Qed.

Lemma renumber_numbers (v : list TaskSchema.t) : forall i,
  map TaskSchema.number (renumber (Z.of_nat i) v)
  = map (fun k => Some (Z.of_nat k)) (seq i (List.length v)).
Proof.
  induction v as [|t v IH]; simpl; intros i; [reflexivity|].
  f_equal. rewrite <- IH. f_equal. f_equal. lia.
Qed.


Lemma renumber_idem (v : list TaskSchema.t) :
  forall i, renumber i (renumber i v) = renumber i v.
Proof.
  induction v as [|t v IH]; simpl; intros i; [reflexivity|]. rewrite IH. reflexivity.
Qed.

Lemma renumber_trimmed (v : list TaskSchema.t) :
  forall i, Forall trimmed_task v -> Forall trimmed_task (renumber i v).
Proof.
  induction v as [|t v IH]; simpl; intros i H; [constructor|].
  inversion H; subst. constructor; [assumption | apply IH; assumption].
Qed.

Lemma count_tasks_spec (systems : list SystemSchema.t) :
  count_tasks systems
  = Z.of_nat (list_sum (map (fun s => List.length (SystemSchema.tasks s)) systems)).
Proof.
  unfold count_tasks.
  assert (G : forall acc,
    fold_left (fun acc system =>
                 (acc + Z.of_nat (List.length (SystemSchema.tasks system)))%Z) systems acc
    = (acc + Z.of_nat (list_sum (map (fun s => List.length (SystemSchema.tasks s))
                                     systems)))%Z).
  { induction systems as [|s l IH]; simpl; intros acc; [lia|]. rewrite IH. lia. }
  rewrite G. lia.
Qed.

(** What a task is accepted on, and what it becomes. *)
Lemma Task_init_spec (d : TaskData.t) (v : pystr) :
  TaskData.description d = Some v -> type_known d ->
  if (List.length v <=? 500) && (10 <=? List.length (strip v))
  then exists t, TaskSchema_init d = Some t /\ TaskSchema.description t = strip v
  else TaskSchema_init d = None.
Proof.
  intros Hv Ht. unfold TaskSchema_init. rewrite Hv.
  unfold bind, constr, validate_description.
  pose proof (strip_length v) as Hs.
  destruct (List.length v <=? 500) eqn:E5.
  2:{ rewrite andb_false_r. reflexivity. }
  rewrite andb_true_r, andb_true_l.
  destruct (10 <=? List.length (strip v)) eqn:E10.
  - apply Nat.leb_le in E10.
    assert (E : (10 <=? List.length v) = true) by (apply Nat.leb_le; lia).
    rewrite E.
    assert (E' : (List.length (strip v) <? 10) = false) by (apply Nat.ltb_ge; lia).
    rewrite E'. unfold type_known in Ht.
    destruct (TaskData.type d) as [s|].
    + destruct (TaskType_of s); [|congruence]. eexists; split; reflexivity.
    + eexists; split; reflexivity.
  - apply Nat.leb_gt in E10.
    destruct (10 <=? List.length v); [|reflexivity].
    assert (E' : (List.length (strip v) <? 10) = true) by (apply Nat.ltb_lt; lia).
    rewrite E'. reflexivity.
Qed.

Lemma Task_init_trimmed (d : TaskData.t) (t : TaskSchema.t) :
  TaskSchema_init d = Some t -> trimmed_task t.
Proof.
  unfold TaskSchema_init. intros H.
  destruct (TaskData.description d) as [v|]; [|discriminate].
  unfold bind at 2, constr in H.
  destruct ((10 <=? List.length v) && (List.length v <=? 500)) eqn:El; [|discriminate].
  unfold bind, validate_description in H.
  destruct (List.length (strip v) <? 10) eqn:Es; [discriminate|].
  destruct (match TaskData.type d with Some s => TaskType_of s | None => Some inspection end);
    [|discriminate].
  injection H as <-. exists v. simpl. split; [reflexivity|].
  apply Nat.ltb_ge in Es. apply andb_true_iff in El. destruct El as [_ El].
  apply Nat.leb_le in El. pose proof (strip_length v). lia.
Qed.

Lemma TaskType_of_value (t : TaskType) : TaskType_of (TaskType_value t) = Some t.
Proof. destruct t; reflexivity. Qed.

Lemma QualityLevel_of_value (q : QualityLevel) :
  QualityLevel_of (QualityLevel_value q) = Some q.
Proof. destruct q; reflexivity. Qed.

(** A validated task validates to itself. *)
Lemma Task_init_dict (t : TaskSchema.t) :
  trimmed_task t -> TaskSchema_init (TaskSchema_dict t) = Some t.
Proof.
  intros (v & Hd & Hlo & Hhi). unfold TaskSchema_init, TaskSchema_dict.
  cbn [TaskData.description TaskData.type TaskData.number TaskData.requirements
       TaskData.safety_notes TaskData.estimated_time].
  rewrite TaskType_of_value. unfold bind, constr, validate_description.
  assert (E1 : (10 <=? List.length (strip v)) && (List.length (strip v) <=? 500) = true).
  { apply andb_true_iff. split; apply Nat.leb_le; lia. }
  assert (E2 : (List.length (strip v) <? 10) = false) by (apply Nat.ltb_ge; lia).
  rewrite Hd, E1, strip_idem, E2. rewrite <- Hd. destruct t; reflexivity.
Qed.

Lemma System_init_inv (d : SystemData.t) (s : SystemSchema.t) :
  SystemSchema_init d = Some s ->
  exists v raw ts,
    SystemData.name d = Some v /\
    (3 <= List.length v <= 200) /\
    SystemSchema.name s = strip v /\
    SystemData.tasks d = Some raw /\
    each TaskSchema_init raw = Some ts /\
    ts <> [] /\
    SystemSchema.tasks s = renumber 1 ts.
Proof.
  unfold SystemSchema_init. intros H.
  destruct (SystemData.name d) as [v|] eqn:En; [|discriminate].
  unfold bind at 2, constr in H.
  destruct ((3 <=? List.length v) && (List.length v <=? 200)) eqn:El; [|discriminate].
  unfold bind at 1, validate_name in H.
  destruct (SystemData.tasks d) as [raw|] eqn:Et; [|discriminate].
  unfold bind at 2 in H.
  destruct (each TaskSchema_init raw) as [ts|] eqn:Ee; [|discriminate].
  unfold bind, validate_tasks in H.
  destruct ts as [|t ts]; [discriminate|].
  injection H as <-. simpl.
  apply andb_true_iff in El. destruct El as [E1 E2].
  apply Nat.leb_le in E1. apply Nat.leb_le in E2.
  exists v, raw, (t :: ts). repeat split; auto. discriminate.
Qed.

Lemma System_init_validated (d : SystemData.t) (s : SystemSchema.t) :
  SystemSchema_init d = Some s -> validated_system s.
Proof.
  intros H. destruct (@System_init_inv d s H) as (v & raw & ts & _ & Hl & Hn & _ & He & Hne & Ht).
  unfold validated_system. rewrite Hn, Ht.
  split; [eauto|]. split; [pose proof (strip_length v); lia|].
  split; [|split].
  - intros E. apply Hne. apply (f_equal (@List.length _)) in E.
    rewrite renumber_length in E. destruct ts; [reflexivity|discriminate].
  - apply renumber_trimmed. apply each_Forall2 in He. clear -He.
    induction He as [|x t raw ts Hx _ IH]; constructor; [|exact IH].
    eapply Task_init_trimmed; eauto.
  - apply renumber_idem.
Qed.

(** A validated system with a name of three characters or more validates
    to itself. *)
Lemma System_init_dict (s : SystemSchema.t) :
  validated_system s -> 3 <= List.length (SystemSchema.name s) ->
  SystemSchema_init (SystemSchema_dict s) = Some s.
Proof.
  intros ((v & Hn) & Hhi & Hne & Htr & Hre) Hlo.
  unfold SystemSchema_init, SystemSchema_dict.
  cbn [SystemData.name SystemData.tasks SystemData.description SystemData.category
       SystemData.location SystemData.manufacturer SystemData.model].
  unfold bind, constr, validate_name.
  assert (E : (3 <=? List.length (SystemSchema.name s))
              && (List.length (SystemSchema.name s) <=? 200) = true).
  { apply andb_true_iff. split; apply Nat.leb_le; lia. }
  rewrite E. rewrite (each_id TaskSchema_init TaskSchema_dict).
  2:{ eapply Forall_impl; [|exact Htr]. intros t. apply Task_init_dict. }
  unfold validate_tasks.
  destruct (SystemSchema.tasks s) as [|t ts] eqn:Et; [congruence|].
  rewrite Hre. replace (strip (SystemSchema.name s)) with (SystemSchema.name s)
    by (rewrite Hn, strip_idem; reflexivity).
  rewrite <- Et. destruct s; reflexivity.
Qed.

(** What an accepted candidate and its result have in common. *)
Lemma init_inv (d : ResponseData.t) (r : AIExtractionResult.t) :
  AIExtractionResult_init d = Some r ->
  exists raw systems,
    ResponseData.systems d = Some raw /\
    each SystemSchema_init raw = Some systems /\
    systems <> [] /\
    AIExtractionResult.systems r = systems /\
    AIExtractionResult.total_systems r = Z.of_nat (List.length systems) /\
    AIExtractionResult.total_tasks r = count_tasks systems /\
    ResponseData.confidence d = Some (AIExtractionResult.confidence r) /\
    Qle_bool 0 (AIExtractionResult.confidence r) = true /\
    Qle_bool (AIExtractionResult.confidence r) 1 = true /\
    ResponseData.total_systems d <> None /\
    ResponseData.total_tasks d <> None.
Proof.
  unfold AIExtractionResult_init. intros H.
  destruct (ResponseData.success d); [|discriminate].
  destruct (ResponseData.confidence d) as [c|] eqn:Ec; simpl in H; [|discriminate].
  unfold confloat in H. destruct (Qle_bool 0 c && Qle_bool c 1) eqn:Er; [|discriminate].
  destruct (ResponseData.processing_method d); [|discriminate].
  destruct (ResponseData.systems d) as [raw|] eqn:Es; simpl in H; [|discriminate].
  destruct (each SystemSchema_init raw) as [systems|] eqn:Ee; simpl in H; [|discriminate].
  unfold validate_systems in H.
  destruct systems as [|s0 systems]; [discriminate|].
  destruct (ResponseData.total_systems d) eqn:Ets; simpl in H; [|discriminate].
  destruct (ResponseData.total_tasks d) eqn:Ett; simpl in H; [|discriminate].
  destruct (optional_enum QualityLevel_of (ResponseData.extraction_quality d));
    [|discriminate].
  injection H as <-. simpl.
  apply andb_true_iff in Er. destruct Er as [E0 E1].
  exists raw, (s0 :: systems). repeat split; auto; try discriminate.
  unfold validate_total_tasks, validate_total_tasks_count. simpl values_systems.
  destruct (negb _); reflexivity.
Qed.

Lemma init_validated (d : ResponseData.t) (r : AIExtractionResult.t) :
  AIExtractionResult_init d = Some r ->
  Forall validated_system (AIExtractionResult.systems r).
Proof.
  intros H. destruct (@init_inv d r H) as (raw & systems & _ & He & _ & Hs & _).
  rewrite Hs. apply each_Forall2 in He. clear -He.
  induction He as [|x s raw systems Hx _ IH]; constructor; [|exact IH].
  eapply System_init_validated; eauto.
Qed.

(** A validated result has systems, and each of them has tasks. *)
Lemma init_has_tasks (d : ResponseData.t) (r : AIExtractionResult.t) :
  AIExtractionResult_init d = Some r ->
  AIExtractionResult.systems r <> [] /\
  Forall (fun s => SystemSchema.tasks s <> []) (AIExtractionResult.systems r).
Proof.
  intros H. split.
  - destruct (@init_inv d r H) as (raw & systems & _ & _ & Hne & Hs & _). congruence.
  - eapply Forall_impl; [|apply (@init_validated d r H)].
    intros s (_ & _ & Hne & _). exact Hne.
Qed.

Lemma totals_irrelevant (a b a' b' : Z) (d : ResponseData.t) :
  AIExtractionResult_init (with_totals (Some a) (Some b) d)
  = AIExtractionResult_init (with_totals (Some a') (Some b') d).
Proof.
  unfold AIExtractionResult_init. simpl.
  destruct (bind (bind (ResponseData.systems d) (each SystemSchema_init)) validate_systems)
    as [systems|]; [|reflexivity].
  unfold validate_total_tasks, validate_total_tasks_count, validate_total_systems.
  simpl values_systems.
  destruct (negb (count_tasks systems =? count_tasks systems)%Z); reflexivity.
Qed.





(** Validating the data of a validated result again returns the result,
    provided every system name kept three characters after trimming. *)
Lemma revalidation_is_stable (d : ResponseData.t) (r : AIExtractionResult.t) :
  validate_ai_response d = Some r ->
  Forall (fun s => 3 <= List.length (SystemSchema.name s)) (AIExtractionResult.systems r) ->
  validate_ai_response (AIExtractionResult_dict r) = Some r.
Proof.
  unfold validate_ai_response. intros H Hnames.
  pose proof (@init_validated d r H) as Hval.
  destruct (@init_inv d r H)
    as (raw & systems & _ & _ & Hne & Hs & Hts & Htt & _ & H0 & H1 & _).
  unfold AIExtractionResult_init, AIExtractionResult_dict.
  cbn [ResponseData.success ResponseData.confidence ResponseData.processing_method
       ResponseData.metadata ResponseData.systems ResponseData.total_systems
       ResponseData.total_tasks ResponseData.processing_time
       ResponseData.extraction_quality ResponseData.warnings].
  assert (Heach : each SystemSchema_init
                    (map SystemSchema_dict (AIExtractionResult.systems r))
                  = Some (AIExtractionResult.systems r)).
  { apply each_id. rewrite Forall_forall in *. intros s Hin.
    apply System_init_dict; [apply Hval|apply Hnames]; exact Hin. }
  assert (Hq : optional_enum QualityLevel_of
                 (option_map QualityLevel_value (AIExtractionResult.extraction_quality r))
               = Some (AIExtractionResult.extraction_quality r)).
  { destruct (AIExtractionResult.extraction_quality r) as [q|]; simpl;
      [rewrite QualityLevel_of_value|]; reflexivity. }
  rewrite Hq. unfold bind, confloat. rewrite H0, H1, Heach. cbn [andb].
  unfold validate_systems. rewrite Hs.
  destruct systems as [|s0 systems]; [congruence|].
  cbn [option_map]. unfold validate_total_systems, validate_total_tasks,
    validate_total_tasks_count. cbn [values_systems].
  replace (if negb (count_tasks (s0 :: systems) =? count_tasks (s0 :: systems))%Z
           then count_tasks (s0 :: systems) else count_tasks (s0 :: systems))
    with (count_tasks (s0 :: systems)) by (destruct (negb _); reflexivity).
  rewrite <- Hts, <- Htt, <- Hs. destruct r; reflexivity.
Qed.

(** * The schema claims *)

(** C2. For every candidate the validator accepts, the result has
    [total_systems = len(systems)] and [total_tasks] equal to the number
    of tasks over all systems, whatever totals the candidate supplied:
    other totals give the same result and never an error. *)
Theorem totals_are_derived (d : ResponseData.t) (r : AIExtractionResult.t) :
  validate_ai_response d = Some r ->
  AIExtractionResult.total_systems r
    = Z.of_nat (List.length (AIExtractionResult.systems r)) /\
  AIExtractionResult.total_tasks r
    = Z.of_nat (list_sum (map (fun s => List.length (SystemSchema.tasks s))
                              (AIExtractionResult.systems r))) /\
  forall total_systems total_tasks : Z,
    validate_ai_response (with_totals (Some total_systems) (Some total_tasks) d) = Some r.
Proof.
  unfold validate_ai_response. intros H.
  destruct (@init_inv d r H)
    as (raw & systems & _ & _ & _ & Hs & Hts & Htt & _ & _ & _ & H1 & H2).
  rewrite Hs. split; [exact Hts|]. split; [rewrite Htt; apply count_tasks_spec|].
  intros a b.
  destruct (ResponseData.total_systems d) as [a0|] eqn:Ea; [|congruence].
  destruct (ResponseData.total_tasks d) as [b0|] eqn:Eb; [|congruence].
  rewrite (totals_irrelevant a b a0 b0). rewrite <- H. f_equal.
  destruct d; simpl in *; subst; reflexivity.
Qed.

Lemma totals_are_derived_witness :
  exists r, validate_ai_response pump_and_motor = Some r /\
            AIExtractionResult.total_systems r = 2%Z /\
            AIExtractionResult.total_tasks r = 5%Z.
Proof.
  eexists. split; [vm_compute; reflexivity|].
  destruct (@totals_are_derived pump_and_motor _ eq_refl) as (H1 & H2 & _).
  split; [exact H1 | exact H2].
Defined.



(** Counterexample to C4 as stated: a confidence of 1.7 or of -0.2 is not
    clamped and an absent confidence is not read as 0.0; each of the three
    candidates is rejected, while the same candidate with 0.9 is accepted. *)
Lemma confidence_is_not_clamped :
  validate_ai_response (with_confidence (Some (17 # 10)%Q)) = None /\
  validate_ai_response (with_confidence (Some (-2 # 10)%Q)) = None /\
  validate_ai_response (with_confidence None) = None /\
  validate_ai_response (with_confidence (Some (9 # 10)%Q)) <> None.
Proof. repeat split; vm_compute; congruence. Qed.

(** C4, amended. The validator accepts a candidate only when its
    confidence is present and lies in [0,1], and the result carries that
    confidence unchanged; so a confidence outside the range, or none, makes
    validation fail. *)
Theorem accepted_confidence_is_given_and_in_range
    (d : ResponseData.t) (r : AIExtractionResult.t) :
  validate_ai_response d = Some r ->
  ResponseData.confidence d = Some (AIExtractionResult.confidence r) /\
  (0 <= AIExtractionResult.confidence r)%Q /\
  (AIExtractionResult.confidence r <= 1)%Q.
Proof.
  unfold validate_ai_response. intros H.
  destruct (@init_inv d r H) as (_ & _ & _ & _ & _ & _ & _ & _ & Hc & H0 & H1 & _).
  repeat split; [exact Hc | apply Qle_bool_iff; exact H0 | apply Qle_bool_iff; exact H1].
Qed.

Lemma accepted_confidence_witness :
  exists r, validate_ai_response (with_confidence (Some (9 # 10)%Q)) = Some r /\
            (0 <= AIExtractionResult.confidence r)%Q /\
            (AIExtractionResult.confidence r <= 1)%Q.
Proof.
  eexists. split; [vm_compute; reflexivity|].
  exact (proj2 (@accepted_confidence_is_given_and_in_range
                  (with_confidence (Some (9 # 10)%Q)) _ eq_refl)).
Defined.

(** Counterexample to C6 as stated: the name ["  ab  "] has two characters
    after trimming and its system is accepted; a description of 19
    characters followed by blanks up to 501 is rejected. *)
Lemma length_is_checked_before_trimming :
  List.length (strip "  ab  ") = 2 /\
  SystemSchema_init
    (a_system "  ab  " [a_task (Some 1%Z) "Check the pump seal for leaks"]) <> None /\
  List.length (strip padded_description) = 19 /\
  TaskSchema_init (a_task (Some 1%Z) padded_description) = None.
Proof. repeat split; vm_compute; congruence. Qed.

(** C6, amended. A task (with a known type) is accepted exactly when its
    description has at most 500 characters as given and at least 10 after
    trimming, and the accepted description is the trimmed one, of 10 to 500
    characters.  A system (with valid tasks) is accepted when its name has
    at least 3 characters after trimming and at most 200 as given, and is
    rejected when the name as given has fewer than 3 or more than 200. *)
Theorem length_bounds (td : TaskData.t) (sd : SystemData.t) (description name : pystr) :
  TaskData.description td = Some description -> type_known td ->
  SystemData.name sd = Some name -> tasks_valid sd ->
  ((exists t, TaskSchema_init td = Some t) <->
     List.length description <= 500 /\ 10 <= List.length (strip description)) /\
  (forall t, TaskSchema_init td = Some t ->
     TaskSchema.description t = strip description /\
     10 <= List.length (TaskSchema.description t) <= 500) /\
  (3 <= List.length (strip name) -> List.length name <= 200 ->
     exists s, SystemSchema_init sd = Some s /\ SystemSchema.name s = strip name) /\
  (List.length name < 3 \/ 200 < List.length name -> SystemSchema_init sd = None).
Proof.
  intros Hd Ht Hn (raw & t0 & ts & Hraw & Heach).
  pose proof (@Task_init_spec td description Hd Ht) as Hspec.
  pose proof (strip_length description) as Hsd.
  pose proof (strip_length name) as Hsn.
  split; [|split; [|split]].
  - destruct ((List.length description <=? 500) && (10 <=? List.length (strip description)))
      eqn:E.
    + apply andb_true_iff in E. destruct E as [E1 E2].
      apply Nat.leb_le in E1. apply Nat.leb_le in E2.
      destruct Hspec as (t & Hinit & _). split; eauto.
    + split.
      * intros (t & Hinit). congruence.
      * intros [E1 E2]. apply Nat.leb_le in E1. apply Nat.leb_le in E2.
        rewrite E1, E2 in E. discriminate.
  - intros t Hinit.
    destruct ((List.length description <=? 500) && (10 <=? List.length (strip description)))
      eqn:E; [|congruence].
    apply andb_true_iff in E. destruct E as [E1 E2].
    apply Nat.leb_le in E1. apply Nat.leb_le in E2.
    destruct Hspec as (t' & Hinit' & Hdesc).
    assert (t = t') by congruence. subst t'. rewrite Hdesc. repeat split; lia.
  - intros H3 H200. unfold SystemSchema_init. rewrite Hn, Hraw.
    unfold bind, constr, validate_name, validate_tasks. cbv beta iota.
    assert (E : (3 <=? List.length name) && (List.length name <=? 200) = true).
    { apply andb_true_iff. split; apply Nat.leb_le; lia. }
    rewrite E, Heach. eexists. split; reflexivity.
  - intros Hout. unfold SystemSchema_init. rewrite Hn.
    unfold bind, constr. cbv beta iota.
    assert (E : (3 <=? List.length name) && (List.length name <=? 200) = false).
    { apply andb_false_iff.
      destruct Hout; [left; apply Nat.leb_gt|right; apply Nat.leb_gt]; lia. }
    rewrite E. reflexivity.
Qed.

Lemma length_bounds_witness :
  exists t s,
    TaskSchema_init (a_task (Some 4%Z) "  Inspect the coupling guard  ") = Some t /\
    TaskSchema.description t = lit "Inspect the coupling guard" /\
    SystemSchema_init
      (a_system " Pump P-101 " [a_task (Some 1%Z) "Check the pump seal for leaks"]) = Some s.
Proof.
  assert (Hv : tasks_valid
    (a_system " Pump P-101 " [a_task (Some 1%Z) "Check the pump seal for leaks"])).
  { do 3 eexists. split; [reflexivity|]. vm_compute. reflexivity. }
  destruct (@length_bounds (a_task (Some 4%Z) "  Inspect the coupling guard  ")
              (a_system " Pump P-101 " [a_task (Some 1%Z) "Check the pump seal for leaks"])
              _ _ eq_refl I eq_refl Hv) as (H1 & H2 & H3 & _).
  destruct (proj2 H1) as (t & Ht); [vm_compute; split; lia|].
  destruct H3 as (s & Hs & _); [vm_compute; lia | vm_compute; lia|].
  exists t, s. repeat split; auto.
  destruct (H2 t Ht) as (Hd & _). rewrite Hd. vm_compute. reflexivity.
Defined.

(** C9, at its failing input.  The candidate [padded_name] is accepted and
    its result has the system name ["ab"]; the field data of that result
    is rejected when validated again. *)
Theorem revalidation_rejects_a_trimmed_name :
  exists r,
    validate_ai_response padded_name = Some r /\
    map SystemSchema.name (AIExtractionResult.systems r) = [lit "ab"] /\
    validate_ai_response (AIExtractionResult_dict r) = None.
Proof. eexists. repeat split; vm_compute; reflexivity. Qed.

(** * Facts about the strategies *)

Lemma enumerate_map_length {A B : Type} (f : Z -> A -> B) (l : list A) :
  forall i, List.length (enumerate_map f i l) = List.length l.
Proof. induction l; simpl; intros; auto. Qed.

Lemma insert_by_length {A : Type} (key : A -> Z) (x : A) (l : list A) :
  List.length (insert_by key x l) = S (List.length l).
Proof.
  induction l as [|y l IH]; simpl; [reflexivity|].
  destruct (key y <? key x)%Z; simpl; lia.
Qed.

Lemma sort_by_length {A : Type} (key : A -> Z) (l : list A) :
  List.length (sort_by key l) = List.length l.
Proof.
  induction l as [|x l IH]; simpl; [reflexivity|].
  unfold sort_by in *. simpl. rewrite insert_by_length. lia.
Qed.

Lemma nonempty_length {A : Type} (l : list A) : 1 <= List.length l -> l <> [].
Proof. destruct l; simpl; [lia|discriminate]. Qed.

(** The task list that strategy 0 gives to every system has one to seven
    tasks. *)
Lemma final_tasks_bounds (extracted : list (Z * pystr)) :
  1 <= List.length (firstn 7 (final_tasks extracted)) <= 7.
Proof.
  split; [|apply firstn_le_length].
  rewrite length_firstn. unfold final_tasks.
  destruct extracted as [|e l].
  - simpl. lia.
  - rewrite enumerate_map_length, length_firstn, sort_by_length. simpl. lia.
Qed.

Lemma titled_systems_tasks (title_of : pystr -> pystr) (tasks : list Task.t)
    (matches : list mobj) :
  forall processed,
    tasks <> [] -> all_have_tasks (titled_systems title_of tasks matches processed).
Proof.
  induction matches as [|m ms IH]; intros processed Ht; simpl; [constructor|].
  destruct (mem _ processed); [apply IH; exact Ht|].
  constructor; [exact Ht | apply IH; exact Ht].
Qed.

Lemma custom_systems_have_tasks (text : pystr) (extracted : list (Z * pystr)) :
  all_have_tasks (custom_systems text (final_tasks extracted)).
Proof.
  pose proof (nonempty_length (proj1 (final_tasks_bounds extracted))) as Hne.
  unfold custom_systems.
  pose proof (@titled_systems_tasks custom_title _
                (finditer ignore_case custom_system_pattern text) [] Hne) as Ht.
  destruct (titled_systems custom_title (firstn 7 (final_tasks extracted))
              (finditer ignore_case custom_system_pattern text) []) as [|s l];
    [|exact Ht].
  destruct (found ignore_case conveyor_pattern text); [|constructor].
  apply Forall_forall. intros s Hs. apply in_map_iff in Hs.
  destruct Hs as (i & <- & _). exact Hne.
Qed.

(** What strategy 0 returns is made from the tasks it harvested. *)
Lemma custom_returned (text : pystr) (systems : list Inspection.t) :
  extract_custom_user_systems text = inr systems ->
  exists extracted,
    extracted_tasks text = inr extracted /\
    systems = custom_systems text (final_tasks extracted).
Proof.
  unfold extract_custom_user_systems.
  destruct (extracted_tasks text) as [e|extracted]; [discriminate|].
  intros H. injection H as <-. eauto.
Qed.

Lemma custom_have_tasks (text : pystr) (systems : list Inspection.t) :
  extract_custom_user_systems text = inr systems -> all_have_tasks systems.
Proof.
  intros H. apply custom_returned in H. destruct H as (extracted & _ & ->).
  apply custom_systems_have_tasks.
Qed.

Lemma belt_have_tasks (text : pystr) :
  all_have_tasks (extract_belt_scraper_systems text).
Proof. apply titled_systems_tasks. discriminate. Qed.

Lemma system_checklist_have_tasks (text : pystr) (systems : list Inspection.t) :
  extract_system_checklist_patterns text = inr systems -> all_have_tasks systems.
Proof.
  unfold extract_system_checklist_patterns.
  destruct (found_systems text _) as [e|found]; [discriminate|].
  intros H. injection H as <-.
  apply Forall_forall. intros s Hs.
  apply in_flat_map in Hs. destruct Hs as (nt & _ & Hs).
  destruct (snd nt) as [|t ts]; [contradiction|].
  destruct Hs as [<-|[]]. discriminate.
Qed.

Lemma generic_have_tasks (w : World.t) (text : pystr) :
  all_have_tasks (extract_generic_systems w text).
Proof.
  unfold extract_generic_systems. apply Forall_forall. intros s Hs.
  apply in_flat_map in Hs. destruct Hs as (n & _ & Hs).
  destruct (firstn _ (generic_tasks text)) as [|t ts]; [contradiction|].
  destruct Hs as [<-|[]]. discriminate.
Qed.

Lemma flush_have_tasks (st : checklist_state) :
  all_have_tasks (inspections st) -> all_have_tasks (flush st).
Proof.
  intros H. unfold flush, has_system_with_tasks.
  destruct (current_system st) as [[|c n]|]; try exact H.
  destruct (current_tasks st) as [|t ts] eqn:E; [exact H|].
  apply Forall_app. split; [exact H|]. constructor; [|constructor]. discriminate.
Qed.

Lemma checklist_line_have_tasks (st : checklist_state) (line : pystr) :
  all_have_tasks (inspections st) ->
  all_have_tasks (inspections (checklist_line st line)).
Proof.
  intros H. unfold checklist_line.
  destruct (strip line) as [|c l]; [exact H|].
  destruct (existsb _ (firstn 2 checklist_patterns)).
  - destruct (_ && _); [|exact H]. simpl. apply flush_have_tasks. exact H.
  - destruct (existsb _ (skipn 2 checklist_patterns)).
    + destruct (_ && _); exact H.
    + destruct (rmatch no_flags numbered_item (c :: l)); [|exact H].
      destruct (10 <? _); exact H.
Qed.

Lemma checklist_have_tasks (text : pystr) :
  all_have_tasks (extract_checklist_items text).
Proof.
  unfold extract_checklist_items. apply flush_have_tasks.
  assert (G : forall lines st, all_have_tasks (inspections st) ->
                all_have_tasks (inspections (fold_left checklist_line lines st))).
  { induction lines as [|l lines IH]; intros st H; simpl; [exact H|].
    apply IH. apply checklist_line_have_tasks. exact H. }
  apply G. constructor.
Qed.

(** The last strategy always yields a system. *)
Lemma fallback_have_tasks (text : pystr) :
  create_intelligent_fallback text <> [] /\
  all_have_tasks (create_intelligent_fallback text).
Proof.
  unfold create_intelligent_fallback.
  destruct (_ || _); [|destruct (_ || _); [|destruct (_ || _)]];
    (split; [discriminate | constructor; [discriminate | constructor]]).
Qed.

Lemma run_have_tasks (w : World.t) (s : strategy) (text : pystr)
    (systems : list Inspection.t) :
  run w s text = inr systems -> all_have_tasks systems.
Proof.
  destruct s; cbn [run]; intros H; try (injection H as <-).
  - eapply custom_have_tasks; eauto.
  - apply belt_have_tasks.
  - eapply system_checklist_have_tasks; eauto.
  - apply generic_have_tasks.
  - apply checklist_have_tasks.
  - apply fallback_have_tasks.
Qed.

Lemma call_returns (w : World.t) (text : pystr) (s : strategy) (st : chain)
    (xs : list Inspection.t) :
  raised st = None -> run w s text = inr xs ->
  call w text s st
  = {| found_inspections := found_inspections st ++ xs;
       calls := calls st ++ [s];
       raised := None |}.
Proof. intros Hr Hx. unfold call. rewrite Hr, Hx. reflexivity. Qed.

Lemma call_raises (w : World.t) (text : pystr) (s : strategy) (st : chain)
    (e : World.exn) :
  raised st = None -> run w s text = inl e ->
  call w text s st
  = {| found_inspections := found_inspections st;
       calls := calls st ++ [s];
       raised := Some e |}.
Proof. intros Hr Hx. unfold call. rewrite Hr, Hx. reflexivity. Qed.

Lemma unless_found_raised (st : chain) (step : chain -> chain) (e : World.exn) :
  raised st = Some e -> unless_found st step = st.
Proof. intros H. unfold unless_found. rewrite H. reflexivity. Qed.

Lemma unless_found_found (st : chain) (step : chain -> chain) :
  found_inspections st <> [] -> unless_found st step = st.
Proof.
  intros H. unfold unless_found. destruct (raised st); [reflexivity|].
  destruct (found_inspections st); [congruence|reflexivity].
Qed.

Lemma unless_found_empty (st : chain) (step : chain -> chain) :
  raised st = None -> found_inspections st = [] -> unless_found st step = step st.
Proof. intros Hr Hf. unfold unless_found. rewrite Hr, Hf. reflexivity. Qed.

(** Enter the next [if not inspections:] block: the innermost one. *)
Ltac enter_block :=
  match goal with
  | |- context [unless_found ?st ?step] =>
      lazymatch st with
      | context [unless_found] => fail
      | _ => rewrite (@unless_found_empty st step) by reflexivity
      end
  end.

(** A strategy is called: [H] says what it returns or raises. *)
Ltac called H :=
  first [ erewrite call_returns by first [reflexivity | exact H]
        | erewrite call_raises by first [reflexivity | exact H] ];
  cbn [found_inspections calls raised app].

Ltac run_facts :=
  repeat first
    [ progress cbn [for_each List.concat app found_inspections calls raised]
    | match goal with
      | H : run _ _ _ = _ |- _ => rewrite H
      | H : _ ++ _ = _ |- _ => rewrite H
      end ].

Ltac stage_facts :=
  run_facts;
  repeat split; try discriminate; try assumption;
  try (repeat (apply Forall_cons; [run_facts; reflexivity|]); apply Forall_nil).

(** The chain runs its stages in order up to the first one that yields a
    system or raises; it returns what that stage yields, or raises what it
    raises. *)
Lemma chain_first_stage (w : World.t) (text : pystr) :
  exists pre stage post,
    stages w = pre ++ stage :: post /\
    Forall (fun st => run_stage w text st = inr []) pre /\
    calls (legacy_chain w text) = List.concat pre ++ stage /\
    match run_stage w text stage with
    | inr found =>
        found <> [] /\
        raised (legacy_chain w text) = None /\
        found_inspections (legacy_chain w text) = found
    | inl e =>
        raised (legacy_chain w text) = Some e /\
        found_inspections (legacy_chain w text) = []
    end.
Proof.
  unfold legacy_chain, stages, run_stage. cbv zeta.
  destruct (run w Custom text) as [e|c] eqn:Ec.
  { called Ec. rewrite !(@unless_found_raised _ _ e) by reflexivity.
    exists [], [Custom]. eexists. stage_facts. }
  called Ec.
  destruct c as [|c0 cs].
  2:{ rewrite !unless_found_found by discriminate.
      exists [], [Custom]. eexists. stage_facts. }
  enter_block; cbv beta.
  assert (Eb := eq_refl : run w BeltScraper text = inr (extract_belt_scraper_systems text)).
  called Eb.
  destruct (extract_belt_scraper_systems text) as [|b0 bs].
  2:{ rewrite !unless_found_found by discriminate.
      exists [[Custom]], [BeltScraper]. eexists. stage_facts. }
  enter_block; cbv beta.
  destruct (run w SystemChecklist text) as [e|c] eqn:Es.
  { called Es. rewrite !(@unless_found_raised _ _ e) by reflexivity.
    exists [[Custom]; [BeltScraper]], [SystemChecklist]. eexists. stage_facts. }
  called Es.
  destruct c as [|s0 ss].
  2:{ rewrite !unless_found_found by discriminate.
      exists [[Custom]; [BeltScraper]], [SystemChecklist]. eexists. stage_facts. }
  enter_block; cbv beta.
  assert (Ef := eq_refl
            : run w IntelligentFallback text = inr (create_intelligent_fallback text)).
  pose proof (fallback_have_tasks text) as [Hf _].
  destruct (World.PYMUPDF_AVAILABLE w).
  - assert (Eg := eq_refl : run w Generic text = inr (extract_generic_systems w text)).
    assert (Ei := eq_refl : run w ChecklistItems text = inr (extract_checklist_items text)).
    called Eg. called Ei.
    destruct (extract_generic_systems w text ++ extract_checklist_items text)
      as [|g0 gs] eqn:Eitems.
    + enter_block; cbv beta. called Ef.
      exists [[Custom]; [BeltScraper]; [SystemChecklist]; [Generic; ChecklistItems]],
        [IntelligentFallback], [].
      stage_facts.
    + rewrite unless_found_found by discriminate.
      exists [[Custom]; [BeltScraper]; [SystemChecklist]], [Generic; ChecklistItems].
      eexists. stage_facts.
  - enter_block; cbv beta. called Ef.
    exists [[Custom]; [BeltScraper]; [SystemChecklist]], [IntelligentFallback], [].
    stage_facts.
Qed.

Lemma for_each_inv {A S : Type} (P : S -> Prop) (body : S -> A -> World.exn + S)
    (l : list A) :
  (forall st x st', In x l -> P st -> body st x = inr st' -> P st') ->
  forall st st', P st -> for_each body l st = inr st' -> P st'.
Proof.
  induction l as [|x l IH]; intros Hbody st st' Hst; simpl.
  - intros H. injection H as <-. exact Hst.
  - destruct (body st x) as [e|st1] eqn:E; [discriminate|].
    apply IH.
    + intros st0 y st0' Hy. apply Hbody. right. exact Hy.
    + eapply Hbody; eauto. left. reflexivity.
Qed.

Lemma for_each_returns {A S : Type} (body : S -> A -> World.exn + S) (l : list A) :
  (forall st x, In x l -> exists st', body st x = inr st') ->
  forall st, exists st', for_each body l st = inr st'.
Proof.
  induction l as [|x l IH]; intros Hbody st; simpl; [eauto|].
  destruct (Hbody st x (or_introl eq_refl)) as (st1 & ->).
  apply IH. intros st0 y Hy. apply Hbody. right. exact Hy.
Qed.

Lemma run_stage_have_tasks (w : World.t) (text : pystr) (stage : list strategy)
    (systems : list Inspection.t) :
  run_stage w text stage = inr systems -> all_have_tasks systems.
Proof.
  unfold run_stage. apply for_each_inv; [|constructor].
  intros found s found' _ Hfound.
  destruct (run w s text) as [e|xs] eqn:E; [discriminate|].
  intros H. injection H as <-. apply Forall_app. split; [exact Hfound|].
  eapply run_have_tasks; eauto.
Qed.

Lemma chain_has_tasks (w : World.t) (text : pystr) :
  raised (legacy_chain w text) = None ->
  found_inspections (legacy_chain w text) <> [] /\
  all_have_tasks (found_inspections (legacy_chain w text)).
Proof.
  intros Hr.
  destruct (chain_first_stage w text) as (pre & stage & post & _ & _ & _ & H).
  destruct (run_stage w text stage) as [e|found] eqn:E.
  - destruct H as [H _]. congruence.
  - destruct H as (Hne & _ & ->). split; [exact Hne|].
    eapply run_stage_have_tasks; eauto.
Qed.

(** * When [int] raises and when it does not *)

Lemma int_of_fits (s : pystr) :
  List.length s <= int_max_str_digits -> int_of s = inr (int_value s).
Proof.
  intros H. unfold int_of.
  destruct (int_max_str_digits <? List.length s) eqn:E; [|reflexivity].
  apply Nat.ltb_lt in E. lia.
Qed.

(** [int] raises nothing but the [ValueError] of the digit limit. *)
Lemma int_of_raises (s : pystr) (e : World.exn) :
  int_of s = inl e ->
  int_max_str_digits < List.length s /\ e = int_limit_message (List.length s).
Proof.
  unfold int_of. destruct (int_max_str_digits <? List.length s) eqn:E; [|discriminate].
  apply Nat.ltb_lt in E. intros H. injection H as <-. auto.
Qed.

Lemma numbers_fit_substring (a b : pystr) :
  substring a b -> numbers_fit b -> numbers_fit a.
Proof.
  intros Hab Hb run Hrun Hd. apply Hb; [|exact Hd].
  eapply substring_trans; eauto.
Qed.

(** A text that is no longer than the limit holds no number above it. *)
Lemma short_text_fits (text : pystr) :
  (List.length text <=? int_max_str_digits) = true -> numbers_fit text.
Proof.
  intros H run Hrun _. apply Nat.leb_le in H. apply substring_length in Hrun. lia.
Qed.

(** The numbers that strategy 0 reads are runs of digits of the text. *)
Lemma custom_task_numbers (text : pystr) (pattern : re) (m : mobj) :
  In pattern custom_task_patterns -> In m (finditer ignore_case pattern text) ->
  substring (group m 1) text /\ forallb isdigit (group m 1) = true.
Proof.
  intros Hp Hm. split; [eapply group_substring; eauto|].
  apply scan_In in Hm. destruct Hm as (bef & rst & _ & Hm).
  destruct Hp as [<-|[<-|[]]].
  - apply (@leading_digits ignore_case 1 None
             (Seq [Plus space; Grp 2 (Seq [Lit "Check"; Plus space; Plus not_cell])])
             bef rst m); [|exact Hm].
    simpl. intuition congruence.
  - apply (@leading_digits ignore_case 1 None
             (Seq [Plus space; Grp 2 (Seq [Cls isupper; Plus not_cell])])
             bef rst m); [|exact Hm].
    simpl. intuition congruence.
Qed.

Lemma harvest_tasks_returns (matches : list mobj) :
  Forall (fun m => List.length (group m 1) <= int_max_str_digits) matches ->
  forall extracted seen, exists st, harvest_tasks matches extracted seen = inr st.
Proof.
  induction 1 as [|m ms Hm _ IH]; intros extracted seen; cbn [harvest_tasks]; [eauto|].
  rewrite (int_of_fits _ Hm).
  match goal with
  | |- context [if ?c then _ else _] => destruct c
  end; [|apply IH].
  match goal with
  | |- context [if ?c then _ else _] => destruct c
  end; [eauto|apply IH].
Qed.

Lemma extracted_tasks_returns (text : pystr) :
  numbers_fit text -> exists extracted, extracted_tasks text = inr extracted.
Proof.
  intros Hfit. unfold extracted_tasks.
  destruct (@for_each_returns _ _
              (fun st pattern =>
                 harvest_tasks (finditer ignore_case pattern text) (fst st) (snd st))
              custom_task_patterns) with (st := (@nil (Z * pystr), @nil pystr))
    as (st & ->); [|eauto].
  intros st pattern Hp. apply harvest_tasks_returns.
  apply Forall_forall. intros m Hm.
  destruct (@custom_task_numbers text pattern m Hp Hm) as [Hsub Hdigits].
  apply Hfit; assumption.
Qed.

Lemma custom_returns (text : pystr) :
  numbers_fit text -> exists systems, extract_custom_user_systems text = inr systems.
Proof.
  intros Hfit. unfold extract_custom_user_systems.
  destruct (extracted_tasks_returns Hfit) as (extracted & ->). eauto.
Qed.

Lemma all_digits_forallb (s : pystr) : all_digits s = true -> forallb isdigit s = true.
Proof. destruct s; [discriminate|]. intros H. exact H. Qed.

Lemma task_of_match_returns (fl : flags) (r : re) (text : pystr) (ngroups : nat)
    (m : mobj) (tasks : list Task.t) :
  numbers_fit text -> In m (finditer fl r text) ->
  exists dn, task_of_match (groups ngroups m) tasks = inr dn.
Proof.
  intros Hfit Hm. unfold task_of_match.
  destruct (all_digits (hd [] (groups ngroups m))) eqn:E; [|eauto].
  rewrite int_of_fits; [eauto|].
  apply Hfit; [|apply all_digits_forallb; exact E].
  unfold groups. destruct ngroups as [|n]; [discriminate E|].
  cbn [seq map hd]. eapply group_substring; eauto.
Qed.

Lemma section_tasks_returns (ngroups : nat) (matches : list mobj) :
  (forall m tasks, In m matches ->
     exists dn, task_of_match (groups ngroups m) tasks = inr dn) ->
  forall tasks, exists tasks', section_tasks ngroups matches tasks = inr tasks'.
Proof.
  induction matches as [|m ms IH]; intros H tasks; cbn [section_tasks]; [eauto|].
  destruct (H m tasks (or_introl eq_refl)) as ([d n] & ->).
  match goal with
  | |- context [if ?c then _ else _] => destruct c
  end; apply IH; intros m' tasks' Hin; apply H; right; exact Hin.
Qed.

Lemma section_text_substring (text : pystr) (system_names : list pystr)
    (i system_start : nat) :
  substring (section_text text system_names i system_start) text.
Proof.
  unfold section_text.
  destruct (nth_error system_names (i + 1)); [|apply substring_skipn].
  destruct (_ =? -1)%Z; [apply substring_skipn|].
  unfold slice. eapply substring_trans; [apply substring_firstn | apply substring_skipn].
Qed.

Lemma tasks_of_section_returns (text : pystr) (system_names : list pystr)
    (i : nat) (system_name : pystr) :
  numbers_fit text ->
  exists tasks, tasks_of_section text system_names i system_name = inr tasks.
Proof.
  intros Hfit. unfold tasks_of_section.
  destruct (_ =? -1)%Z; [eauto|]. cbv zeta.
  set (sect := section_text text system_names i _).
  assert (Hsect : numbers_fit sect).
  { eapply numbers_fit_substring; [apply section_text_substring|exact Hfit]. }
  destruct (@for_each_returns _ _
              (fun tasks (pn : re * nat) =>
                 section_tasks (snd pn) (finditer ignore_case (fst pn) sect) tasks)
              section_task_patterns) with (st := @nil Task.t) as (tasks & ->); [|eauto].
  intros tasks pn _. apply section_tasks_returns.
  intros m tasks' Hm. eapply task_of_match_returns; eauto.
Qed.

Lemma system_checklist_returns (text : pystr) :
  numbers_fit text ->
  exists systems, extract_system_checklist_patterns text = inr systems.
Proof.
  intros Hfit. unfold extract_system_checklist_patterns, found_systems.
  match goal with
  | |- context [for_each ?body ?l ?st0] =>
      assert (Hret : forall st x, In x l -> exists st', body st x = inr st');
      [|destruct (@for_each_returns _ _ body l Hret st0) as (found & ->); eauto]
  end.
  intros found ix _. cbv beta.
  destruct (@tasks_of_section_returns text
              (system_names_of (finditer ignore_case any_system_pattern text) [])
              (fst ix) (snd ix) Hfit) as (tasks & ->).
  eauto.
Qed.

Lemma run_returns (w : World.t) (s : strategy) (text : pystr) :
  numbers_fit text -> exists systems, run w s text = inr systems.
Proof.
  intros Hfit. destruct s; cbn [run]; eauto using custom_returns, system_checklist_returns.
Qed.

Lemma run_stage_returns (w : World.t) (text : pystr) (stage : list strategy) :
  numbers_fit text -> exists systems, run_stage w text stage = inr systems.
Proof.
  intros Hfit. unfold run_stage. apply for_each_returns.
  intros found s _. destruct (@run_returns w s text Hfit) as (xs & ->). eauto.
Qed.

(** No strategy raises on a text whose numbers fit. *)
Lemma chain_returns (w : World.t) (text : pystr) :
  numbers_fit text -> raised (legacy_chain w text) = None.
Proof.
  intros Hfit.
  destruct (chain_first_stage w text) as (pre & stage & post & _ & _ & _ & H).
  destruct (@run_stage_returns w text stage Hfit) as (found & E).
  rewrite E in H. tauto.
Qed.

(** What a strategy raises is the [ValueError] of the digit limit. *)
Lemma for_each_raises {A S : Type} (P : World.exn -> Prop)
    (body : S -> A -> World.exn + S) (l : list A) :
  (forall st x e, body st x = inl e -> P e) ->
  forall st e, for_each body l st = inl e -> P e.
Proof.
  intros Hbody. induction l as [|x l IH]; intros st e; simpl; [discriminate|].
  destruct (body st x) as [e'|st'] eqn:E; [|apply IH].
  intros H. injection H as <-. eapply Hbody; eauto.
Qed.

Lemma int_of_limit_error (s : pystr) (e : World.exn) :
  int_of s = inl e -> digit_limit_error e.
Proof. intros H. apply int_of_raises in H. destruct H. eexists. eauto. Qed.

Lemma harvest_tasks_raises (matches : list mobj) : forall extracted seen e,
  harvest_tasks matches extracted seen = inl e -> digit_limit_error e.
Proof.
  induction matches as [|m ms IH]; intros extracted seen e; cbn [harvest_tasks];
    [discriminate|].
  destruct (int_of (group m 1)) as [e'|n] eqn:E.
  - intros H. injection H as <-. eapply int_of_limit_error; eauto.
  - match goal with
    | |- context [if ?c then _ else _] => destruct c
    end; [|apply IH].
    match goal with
    | |- context [if ?c then _ else _] => destruct c
    end; [discriminate|apply IH].
Qed.

Lemma custom_raises (text : pystr) (e : World.exn) :
  extract_custom_user_systems text = inl e -> digit_limit_error e.
Proof.
  unfold extract_custom_user_systems, extracted_tasks.
  destruct (for_each _ custom_task_patterns _) as [e'|st] eqn:E; [|discriminate].
  intros H. injection H as <-. revert E. apply for_each_raises.
  intros st x e0. apply harvest_tasks_raises.
Qed.

Lemma section_tasks_raises (ngroups : nat) (matches : list mobj) : forall tasks e,
  section_tasks ngroups matches tasks = inl e -> digit_limit_error e.
Proof.
  induction matches as [|m ms IH]; intros tasks e; cbn [section_tasks]; [discriminate|].
  destruct (task_of_match (groups ngroups m) tasks) as [e'|[d n]] eqn:E.
  - intros H. injection H as <-. unfold task_of_match in E.
    destruct (all_digits _); [|discriminate].
    destruct (int_of _) as [e0|n] eqn:Ei; [|discriminate].
    injection E as <-. eapply int_of_limit_error; eauto.
  - match goal with
    | |- context [if ?c then _ else _] => destruct c
    end; apply IH.
Qed.

Lemma system_checklist_raises (text : pystr) (e : World.exn) :
  extract_system_checklist_patterns text = inl e -> digit_limit_error e.
Proof.
  unfold extract_system_checklist_patterns, found_systems.
  destruct (for_each _ _ _) as [e'|st] eqn:E; [|discriminate].
  intros H. injection H as <-. revert E. apply for_each_raises.
  intros found ix e0. cbv beta. unfold tasks_of_section.
  destruct (_ =? -1)%Z; [discriminate|]. cbv zeta.
  destruct (for_each _ section_task_patterns _) as [e1|tasks] eqn:E1; [|discriminate].
  intros H. injection H as <-. revert E1. apply for_each_raises.
  intros tasks pn e2. apply section_tasks_raises.
Qed.

Lemma run_raises (w : World.t) (s : strategy) (text : pystr) (e : World.exn) :
  run w s text = inl e -> digit_limit_error e.
Proof.
  destruct s; cbn [run]; try discriminate;
    [apply custom_raises | apply system_checklist_raises].
Qed.

Lemma chain_raises (w : World.t) (text : pystr) (e : World.exn) :
  raised (legacy_chain w text) = Some e -> digit_limit_error e.
Proof.
  intros Hr.
  destruct (chain_first_stage w text) as (pre & stage & post & _ & _ & _ & H).
  destruct (run_stage w text stage) as [e'|found] eqn:E.
  - destruct H as [H _]. rewrite Hr in H. injection H as <-.
    unfold run_stage in E. revert E. apply for_each_raises.
    intros found s e0. destruct (run w s text) as [e1|xs] eqn:E1; [|discriminate].
    intros H. injection H as <-. eapply run_raises; eauto.
  - destruct H as (_ & H & _). congruence.
Qed.

(** * Facts about the AI path *)

Lemma attempt_validated (available : bool) (d : option ResponseData.t)
    (gate : AIExtractionResult.t -> bool) (r : AIExtractionResult.t) :
  Services.attempt available (bind d validate_ai_response) gate = Some r ->
  exists d', AIExtractionResult_init d' = Some r.
Proof.
  unfold Services.attempt. destruct available; [|discriminate].
  destruct d as [d|]; simpl; [|discriminate].
  destruct (validate_ai_response d) as [r'|] eqn:E; [|discriminate].
  destruct (gate r'); [|discriminate]. intros H. injection H as <-. eauto.
Qed.

Lemma bind_set_method (m : pystr) (reply : option ResponseData.t) :
  bind reply (fun extracted_data =>
                validate_ai_response (Services.set_processing_method m extracted_data))
  = bind (option_map (Services.set_processing_method m) reply) validate_ai_response.
Proof. destruct reply; reflexivity. Qed.

(** Whatever the provider chain returns went through the validator. *)
Lemma process_pdf_validated (w : World.t) (pdf_path : pystr) (r : AIExtractionResult.t) :
  Services.process_pdf w pdf_path = Some r ->
  AIExtractionResult.systems r <> [] /\
  Forall (fun s => SystemSchema.tasks s <> []) (AIExtractionResult.systems r).
Proof.
  unfold Services.process_pdf.
  assert (Hset : forall t r0 d, AIExtractionResult_init d = Some r0 ->
    AIExtractionResult.systems (Services.set_processing_time t r0) <> [] /\
    Forall (fun s => SystemSchema.tasks s <> [])
           (AIExtractionResult.systems (Services.set_processing_time t r0))).
  { intros t r0 d H. simpl. eapply init_has_tasks; eauto. }
  destruct (Services.attempt (World.openai_available w) _ _) as [r1|] eqn:E1.
  { intros H. injection H as <-.
    unfold Services._process_with_openai in E1.
    destruct (_ =? 0).
    - unfold Services.attempt in E1. destruct (World.openai_available w); discriminate.
    - rewrite bind_set_method in E1. apply attempt_validated in E1.
      destruct E1 as (d' & Hd). eapply Hset; eauto. }
  destruct (Services.attempt (World.claude_available w) _ _) as [r2|] eqn:E2.
  { intros H. injection H as <-.
    unfold Services._process_with_claude in E2.
    destruct (Services._extract_text_from_pdf w pdf_path).
    - unfold Services.attempt in E2. destruct (World.claude_available w); discriminate.
    - rewrite bind_set_method in E2. apply attempt_validated in E2.
      destruct E2 as (d' & Hd). eapply Hset; eauto. }
  destruct (Services.attempt (World.google_available w) _ _) as [r3|] eqn:E3.
  { intros H. injection H as <-.
    unfold Services._process_with_google in E3.
    change (validate_ai_response Services.google_result_data)
      with (bind (Some Services.google_result_data) validate_ai_response) in E3.
    apply attempt_validated in E3. destruct E3 as (d' & Hd).
    eapply Hset; eauto. }
  unfold create_fallback_result. apply init_has_tasks.
Qed.

Lemma convert_has_tasks (r : AIExtractionResult.t) :
  AIExtractionResult.systems r <> [] ->
  Forall (fun s => SystemSchema.tasks s <> []) (AIExtractionResult.systems r) ->
  _convert_ai_result_to_legacy_format r <> [] /\
  all_have_tasks (_convert_ai_result_to_legacy_format r).
Proof.
  unfold _convert_ai_result_to_legacy_format.
  destruct (AIExtractionResult.systems r) as [|s0 systems]; intros Hne Hall;
    [congruence|].
  split; [discriminate|].
  unfold all_have_tasks. apply Forall_map. eapply Forall_impl; [|exact Hall].
  intros s. simpl. destruct (SystemSchema.tasks s); [congruence|discriminate].
Qed.

Lemma premium_ai_has_tasks (w : World.t) (pdf_path : pystr) (l : list Inspection.t) :
  premium_ai w pdf_path = Some l -> l <> [] /\ all_have_tasks l.
Proof.
  unfold premium_ai.
  destruct (Services.process_pdf w pdf_path) as [r|] eqn:Er; [|discriminate].
  destruct (_ && _); [|discriminate]. intros H. injection H as <-.
  destruct (@process_pdf_validated w pdf_path r Er) as [H1 H2].
  apply convert_has_tasks; assumption.
Qed.

(** The fallback constructor never raises: it returns a result that is not
    a success, with confidence 0, one system of three tasks and a warning
    that carries the reason. *)
Lemma create_fallback_result_spec (error_message : pystr) :
  exists r,
    create_fallback_result error_message = Some r /\
    AIExtractionResult.success r = false /\
    AIExtractionResult.confidence r = 0%Q /\
    map SystemSchema.name (AIExtractionResult.systems r)
      = [lit "General Inspection Checklist"] /\
    map (fun s => List.length (SystemSchema.tasks s)) (AIExtractionResult.systems r) = [3] /\
    AIExtractionResult.warnings r = Some [lit "AI processing failed: " ++ error_message].
Proof. eexists. split; [vm_compute; reflexivity|]. repeat split. Qed.

(** The provider chain never raises. *)
Lemma process_pdf_returns (w : World.t) (pdf_path : pystr) :
  Services.process_pdf w pdf_path <> None.
Proof.
  unfold Services.process_pdf.
  destruct (Services.attempt (World.openai_available w) _ _); [discriminate|].
  destruct (Services.attempt (World.claude_available w) _ _); [discriminate|].
  destruct (Services.attempt (World.google_available w) _ _); [discriminate|].
  destruct (create_fallback_result_spec "All AI services unavailable or failed")
    as (r & E & _).
  rewrite E. discriminate.
Qed.

(** * The strategy claims *)

(** Strategy 0 on a text without a title that carries the general phrase:
    when it returns, it returns min(k, 10) systems named
    "Belt Scraper system i-Inspection Checklist" for i = 1..min(k, 10),
    all with the same list of one to seven tasks; it returns when no number
    of the text is longer than [int] accepts. *)
Lemma conveyor_phrase_synthesizes_systems (text : pystr) (k : nat) :
  finditer ignore_case custom_system_pattern text = [] ->
  count (lower text) (lower "Belt Conveyor Inspection") = k ->
  1 <= k ->
  (numbers_fit text -> exists systems, extract_custom_user_systems text = inr systems) /\
  forall systems,
    extract_custom_user_systems text = inr systems ->
    exists tasks,
      1 <= List.length tasks <= 7 /\
      systems
      = map (fun i => mk_system
                        (lit "Belt Scraper system " ++ str_of_nat i
                           ++ lit "-Inspection Checklist") tasks)
            (seq 1 (Nat.min k 10)).
Proof.
  intros Hnone Hk Hpos. split; [apply custom_returns|].
  intros systems H. apply custom_returned in H. destruct H as (extracted & _ & ->).
  exists (firstn 7 (final_tasks extracted)). split; [apply final_tasks_bounds|].
  unfold custom_systems. rewrite Hnone. simpl titled_systems. cbv iota.
  rewrite found_finditer.
  pose proof (finditer_Lit_count "Belt Conveyor Inspection" text) as Hc.
  fold conveyor_pattern in Hc. rewrite Hk in Hc.
  destruct (finditer ignore_case conveyor_pattern text) as [|m ms] eqn:E;
    [simpl in Hc; lia|].
  cbv beta iota. simpl negb. cbv iota.
  rewrite Hc. rewrite (Nat.max_r 1 k) by lia. reflexivity.
Qed.

(** C10, at its failing input.  The text [long_number_report] has no title
    and carries the phrase "Belt Conveyor Inspection" once; its line
    "999...9 Check the belt tension" starts with a number of 4301 digits.
    Strategy 0 does not return the one system of the claim: [int] raises
    the [ValueError] of the digit limit while the tasks are harvested. *)
Theorem long_task_number_stops_strategy_0 :
  finditer ignore_case custom_system_pattern long_number_report = [] /\
  count (lower long_number_report) (lower "Belt Conveyor Inspection") = 1 /\
  extract_custom_user_systems long_number_report = inl (int_limit_message 4301).
Proof.
  split; [vm_compute; reflexivity|]. split; vm_compute; reflexivity.
Qed.

(** Counterexample to C5 as stated: on [pump_notes] the generic strategy
    yields a system, and the checklist strategy is still called and adds a
    second system to the returned list. *)
Lemma checklist_items_run_after_generic_systems :
  map Inspection.name (returned (run (offline [pump_notes]) Generic pump_notes))
    = [lit "Main Pump Device"] /\
  map Inspection.name (returned (run (offline [pump_notes]) ChecklistItems pump_notes))
    = [lit "Main Pump Device:"] /\
  calls (legacy_chain (offline [pump_notes]) pump_notes)
    = [Custom; BeltScraper; SystemChecklist; Generic; ChecklistItems] /\
  map Inspection.name (found_inspections (legacy_chain (offline [pump_notes]) pump_notes))
    = [lit "Main Pump Device"; lit "Main Pump Device:"].
Proof.
  split; [vm_compute; reflexivity|]. split; [vm_compute; reflexivity|].
  split; vm_compute; reflexivity.
Qed.

(** C5, amended. The chain runs in stages: strategy 0, the belt-scraper
    strategy, the system-checklist strategy, then (with PyMuPDF) the
    generic and the checklist-item strategies together, then the fallback.
    It stops at the first stage that yields a system, or that raises:
    every stage before it was called and yielded nothing, no strategy of a
    later stage is called, and the list returned is what that one stage
    yields (the exception raised is the one that stage raises). *)
Theorem chain_stops_at_first_stage (w : World.t) (text : pystr) :
  exists pre stage post,
    stages w = pre ++ stage :: post /\
    Forall (fun st => run_stage w text st = inr []) pre /\
    calls (legacy_chain w text) = List.concat pre ++ stage /\
    match run_stage w text stage with
    | inr found =>
        found <> [] /\
        raised (legacy_chain w text) = None /\
        found_inspections (legacy_chain w text) = found
    | inl e =>
        raised (legacy_chain w text) = Some e /\
        found_inspections (legacy_chain w text) = []
    end.
Proof. exact (chain_first_stage w text). Qed.

(** Counterexample to C1 as stated: on a file that the PDF library cannot
    open the function raises the library's exception. *)
Lemma unreadable_file_raises :
  extract_inspections_from_pdf unreadable "/srv/media/pdfs/report.pdf"
  = inl (lit "cannot open broken document").
Proof. vm_compute. reflexivity. Qed.

(** The outcome of the extraction: the converted AI result when the premium
    block hands one on, else what the legacy chain yields or raises on the
    text read. *)
Lemma extraction_outcome (w : World.t) (pdf_path : pystr) :
  extract_inspections_from_pdf w pdf_path
  = match (if World.PYMUPDF_AVAILABLE w then read_all_text w pdf_path
           else inr no_pymupdf_text) with
    | inl e => inl e
    | inr all_text =>
        match (if World.AI_PROCESSING_AVAILABLE w then premium_ai w pdf_path else None) with
        | Some inspections => inr inspections
        | None =>
            match raised (legacy_chain w all_text) with
            | Some e => inl e
            | None => inr (found_inspections (legacy_chain w all_text))
            end
        end
    end.
Proof.
  unfold extract_inspections_from_pdf.
  destruct (World.PYMUPDF_AVAILABLE w); [|reflexivity].
  destruct (read_all_text w pdf_path); reflexivity.
Qed.

Lemma no_pymupdf_text_fits : numbers_fit no_pymupdf_text.
Proof. apply short_text_fits. vm_compute. reflexivity. Qed.

(** The extraction raises the exception of the PDF library, or the
    [ValueError] of the digit limit. *)
Lemma extraction_raises (w : World.t) (pdf_path : pystr) (e : World.exn) :
  extract_inspections_from_pdf w pdf_path = inl e ->
  (World.PYMUPDF_AVAILABLE w = true /\ World.fitz_open w pdf_path = inl e) \/
  digit_limit_error e.
Proof.
  rewrite extraction_outcome. unfold read_all_text.
  destruct (World.PYMUPDF_AVAILABLE w).
  - destruct (World.fitz_open w pdf_path) as [e'|pages].
    + intros H. injection H as <-. left. auto.
    + destruct (if World.AI_PROCESSING_AVAILABLE w then premium_ai w pdf_path else None);
        [discriminate|].
      destruct (raised (legacy_chain w _)) as [e'|] eqn:E; [|discriminate].
      intros H. injection H as <-. right. eapply chain_raises; eauto.
  - destruct (if World.AI_PROCESSING_AVAILABLE w then premium_ai w pdf_path else None);
      [discriminate|].
    rewrite (chain_returns w no_pymupdf_text_fits). discriminate.
Qed.

Lemma unreadable_raises (w : World.t) (pdf_path : pystr) (e : World.exn) :
  World.PYMUPDF_AVAILABLE w = true -> World.fitz_open w pdf_path = inl e ->
  extract_inspections_from_pdf w pdf_path = inl e.
Proof.
  intros Hp Ho. unfold extract_inspections_from_pdf, read_all_text.
  rewrite Hp, Ho. reflexivity.
Qed.

(** The extraction returns when the text it reads holds no number longer
    than [int] accepts. *)
Lemma extraction_returns (w : World.t) (pdf_path : pystr) :
  (World.PYMUPDF_AVAILABLE w = true ->
   exists pages,
     World.fitz_open w pdf_path = inr pages /\
     numbers_fit (List.concat (map (fun page_text => page_text ++ [nl]) pages))) ->
  exists inspections, extract_inspections_from_pdf w pdf_path = inr inspections.
Proof.
  intros Hopen. rewrite extraction_outcome. unfold read_all_text.
  destruct (World.PYMUPDF_AVAILABLE w).
  - destruct (Hopen eq_refl) as (pages & -> & Hfit).
    destruct (if World.AI_PROCESSING_AVAILABLE w then premium_ai w pdf_path else None);
      [eauto|].
    rewrite (chain_returns w Hfit). eauto.
  - destruct (if World.AI_PROCESSING_AVAILABLE w then premium_ai w pdf_path else None);
      [eauto|].
    rewrite (chain_returns w no_pymupdf_text_fits). eauto.
Qed.

Lemma extraction_has_tasks (w : World.t) (pdf_path : pystr)
    (inspections : list Inspection.t) :
  extract_inspections_from_pdf w pdf_path = inr inspections ->
  inspections <> [] /\ all_have_tasks inspections.
Proof.
  rewrite extraction_outcome.
  destruct (if World.PYMUPDF_AVAILABLE w then read_all_text w pdf_path
            else inr no_pymupdf_text) as [e|all_text]; [discriminate|].
  destruct (if World.AI_PROCESSING_AVAILABLE w then premium_ai w pdf_path else None)
    as [l|] eqn:Eai.
  - intros H. injection H as <-.
    destruct (World.AI_PROCESSING_AVAILABLE w); [|discriminate].
    eapply premium_ai_has_tasks; eauto.
  - destruct (raised (legacy_chain w all_text)) eqn:Er; [discriminate|].
    intros H. injection H as <-. apply chain_has_tasks. exact Er.
Qed.

(** C1, amended.  Whenever the function returns, it returns at least one
    system, each with at least one task.  It raises, by its [except ...:
    raise], the exception of the PDF library when the library is installed
    and cannot open the file.  It returns when the library is not
    installed, and when the library opens the file (empty text included)
    and the text holds no number of more than 4300 digits. *)
Theorem extraction_returns_systems_or_raises (w : World.t) (pdf_path : pystr) :
  (forall inspections,
     extract_inspections_from_pdf w pdf_path = inr inspections ->
     inspections <> [] /\ Forall (fun s => Inspection.tasks s <> []) inspections) /\
  (forall e,
     World.PYMUPDF_AVAILABLE w = true -> World.fitz_open w pdf_path = inl e ->
     extract_inspections_from_pdf w pdf_path = inl e) /\
  (World.PYMUPDF_AVAILABLE w = false ->
   exists inspections, extract_inspections_from_pdf w pdf_path = inr inspections) /\
  (forall pages,
     World.fitz_open w pdf_path = inr pages ->
     numbers_fit (List.concat (map (fun page_text => page_text ++ [nl]) pages)) ->
     exists inspections, extract_inspections_from_pdf w pdf_path = inr inspections).
Proof.
  split; [apply extraction_has_tasks|]. split; [apply unreadable_raises|]. split.
  - intros Hp. apply extraction_returns. congruence.
  - intros pages Ho Hfit. apply extraction_returns. eauto.
Qed.

Lemma extraction_returns_witness :
  exists inspections,
    extract_inspections_from_pdf (offline []) "empty.pdf" = inr inspections.
Proof.
  apply (proj2 (proj2 (proj2 (@extraction_returns_systems_or_raises
                                (offline []) "empty.pdf"))) [] eq_refl).
  apply short_text_fits. vm_compute. reflexivity.
Defined.

(** * Facts about the classifier *)

Section Scores.

Variable sc : list pystr -> nat.

Lemma get_absent ind c :
  ~ In c (map fst ind) -> get (filter positive (map (entry sc) ind)) c = 0.
Proof.
  induction ind as [|[k kws] ind IH]; simpl; intros H; [reflexivity|].
  destruct (positive (entry sc (k, kws))); [|apply IH; tauto].
  simpl. destruct (PyStr.eqb k c) eqn:E.
  - apply pystr_eqb_eq in E. tauto.
  - apply IH. tauto.
Qed.

Lemma get_present ind : NoDup (map fst ind) ->
  forall c kws, In (c, kws) ind -> get (filter positive (map (entry sc) ind)) c = sc kws.
Proof.
  induction ind as [|[k kws0] ind IH]; simpl; intros Hnd c kws Hin; [contradiction|].
  inversion Hnd as [|? ? Hk Hnd']; subst.
  destruct Hin as [E|Hin].
  - injection E as -> ->. unfold positive at 1, entry at 1. simpl snd.
    destruct (0 <? sc kws) eqn:Ep.
    + simpl. rewrite pystr_eqb_refl. reflexivity.
    + apply Nat.ltb_ge in Ep. rewrite get_absent by exact Hk. lia.
  - assert (k <> c).
    { intros ->. apply Hk. apply in_map_iff. exists (c, kws). auto. }
    destruct (positive (entry sc (k, kws0))); [|apply IH; auto].
    simpl. destruct (PyStr.eqb k c) eqn:E; [apply pystr_eqb_eq in E; congruence|].
    apply IH; auto.
Qed.

Lemma keys_positive ind c :
  In c (map fst (filter positive (map (entry sc) ind))) <->
  exists kws, In (c, kws) ind /\ 0 < sc kws.
Proof.
  rewrite in_map_iff. split.
  - intros ([c' n] & <- & H). apply filter_In in H. destruct H as [H Hp].
    apply in_map_iff in H. destruct H as ([k kws] & E & Hin).
    unfold entry in E. simpl in E. injection E as <- <-.
    exists kws. split; [exact Hin|]. apply Nat.ltb_lt. exact Hp.
  - intros (kws & Hin & Hp). exists (c, sc kws). split; [reflexivity|].
    apply filter_In. split.
    + apply in_map_iff. exists (c, kws). auto.
    + apply Nat.ltb_lt. exact Hp.
Qed.

Lemma all_zero_no_scores ind :
  (forall c kws, In (c, kws) ind -> sc kws = 0) -> filter positive (map (entry sc) ind) = [].
Proof.
  induction ind as [|[k kws] ind IH]; simpl; intros H; [reflexivity|].
  unfold positive at 1, entry at 1. simpl snd. rewrite (H k kws) by auto. simpl.
  apply IH. intros c kws' Hin. eapply H. eauto.
Qed.

(** The key [max_key] picks has a score that no entry exceeds. *)
Lemma max_key_max l : forall b,
  exists n, In (max_key l b, n) (b :: l) /\ forall cs, In cs (b :: l) -> snd cs <= n.
Proof.
  induction l as [|cs l IH]; intros b; simpl.
  - exists (snd b). split; [left; destruct b; reflexivity|].
    intros cs [<-|[]]. lia.
  - destruct (snd b <? snd cs) eqn:E.
    + apply Nat.ltb_lt in E. destruct (IH cs) as (n & Hin & Hmax).
      exists n. split; [right; exact Hin|].
      intros x [<-|Hx]; [|apply Hmax; exact Hx].
      specialize (Hmax cs (or_introl eq_refl)). lia.
    + apply Nat.ltb_ge in E. destruct (IH b) as (n & Hin & Hmax).
      exists n. split.
      * destruct Hin as [Hin|Hin]; [left; exact Hin|right; right; exact Hin].
      * intros x [<-|[<-|Hx]].
        -- apply Hmax. left. reflexivity.
        -- specialize (Hmax b (or_introl eq_refl)). lia.
        -- apply Hmax. right. exact Hx.
Qed.

(** Over the scores of the declared categories, [max_key] picks the first
    category whose score no other exceeds. *)
Lemma max_key_first ind : forall b r,
  r = max_key (filter positive (map (entry sc) ind)) b ->
  (r = fst b /\ forall ck, In ck ind -> sc (snd ck) <= snd b) \/
  (exists i1 kws i3,
     ind = i1 ++ (r, kws) :: i3 /\ snd b < sc kws /\
     (forall ck, In ck i1 -> sc (snd ck) < sc kws) /\
     (forall ck, In ck i3 -> sc (snd ck) <= sc kws)).
Proof.
  induction ind as [|[k kws] ind IH]; intros b r; simpl.
  - intros ->. left. split; [reflexivity|]. intros ck [].
  - unfold positive at 1, entry at 1. simpl snd.
    destruct (0 <? sc kws) eqn:Ep; simpl.
    + destruct (snd b <? sc kws) eqn:E; intros Er.
      * apply Nat.ltb_lt in E. right.
        destruct (IH (k, sc kws) r Er)
          as [(Hr & Hall)|(i1 & kr & i3 & Hsplit & Hlt & H1 & H3)]; simpl in *.
        -- exists [], kws, ind. rewrite Hr. simpl. repeat split; auto.
           intros ck [].
        -- exists ((k, kws) :: i1), kr, i3. simpl. rewrite <- Hsplit.
           repeat split; auto; try lia.
           intros ck [<-|Hck]; simpl; [lia|auto].
      * apply Nat.ltb_ge in E.
        destruct (IH b r Er) as [(Hr & Hall)|(i1 & kr & i3 & Hsplit & Hlt & H1 & H3)].
        -- left. split; [exact Hr|]. intros ck [<-|Hck]; simpl; [lia|auto].
        -- right. exists ((k, kws) :: i1), kr, i3. simpl. rewrite <- Hsplit.
           repeat split; auto.
           intros ck [<-|Hck]; simpl; [lia|auto].
    + apply Nat.ltb_ge in Ep. intros Er.
      destruct (IH b r Er) as [(Hr & Hall)|(i1 & kr & i3 & Hsplit & Hlt & H1 & H3)].
      * left. split; [exact Hr|]. intros ck [<-|Hck]; simpl; [lia|auto].
      * right. exists ((k, kws) :: i1), kr, i3. simpl. rewrite <- Hsplit.
        repeat split; auto.
        intros ck [<-|Hck]; simpl; [lia|auto].
Qed.

Lemma max_of_first ind :
  (max_of (filter positive (map (entry sc) ind)) = None /\
   forall ck, In ck ind -> sc (snd ck) = 0) \/
  (exists r i1 kws i3,
     max_of (filter positive (map (entry sc) ind)) = Some r /\
     ind = i1 ++ (r, kws) :: i3 /\ 0 < sc kws /\
     (forall ck, In ck i1 -> sc (snd ck) < sc kws) /\
     (forall ck, In ck i3 -> sc (snd ck) <= sc kws)).
Proof.
  induction ind as [|[k kws] ind IH].
  - left. split; [reflexivity|]. intros ck [].
  - cbn [map filter]. change (positive (entry sc (k, kws))) with (0 <? sc kws).
    change (entry sc (k, kws)) with (k, sc kws).
    destruct (0 <? sc kws) eqn:Ep.
    + apply Nat.ltb_lt in Ep. right. unfold max_of.
      destruct (@max_key_first ind (k, sc kws) _ eq_refl)
        as [(Hr & Hall)|(i1 & kr & i3 & Hsplit & Hlt & H1 & H3)]; simpl in *.
      * exists k, [], kws, ind. rewrite Hr. repeat split; auto.
        intros ck [].
      * eexists _, ((k, kws) :: i1), kr, i3. split; [reflexivity|].
        simpl. rewrite <- Hsplit. repeat split; auto; try lia.
        intros ck [<-|Hck]; simpl; [lia|auto].
    + apply Nat.ltb_ge in Ep.
      destruct IH as [(Hn & Hall)|(r & i1 & kr & i3 & Hm & Hsplit & Hp & H1 & H3)].
      * left. split; [exact Hn|]. intros ck [<-|Hck]; simpl; [lia|auto].
      * right. exists r, ((k, kws) :: i1), kr, i3. simpl. rewrite <- Hsplit.
        repeat split; auto.
        intros ck [<-|Hck]; simpl; [lia|auto].
Qed.

End Scores.

Lemma union_In x : forall b a, In x (union a b) <-> In x a \/ In x b.
Proof.
  induction b as [|y b IH]; intros a; simpl; [tauto|].
  destruct (mem y a) eqn:E.
  - rewrite IH. split; [tauto|]. intros [H|[<-|H]]; auto.
    left. unfold mem in E. apply existsb_exists in E. destruct E as (z & Hz & Ez).
    apply pystr_eqb_eq in Ez. subst z. exact Hz.
  - rewrite IH, in_app_iff. simpl. tauto.
Qed.

Lemma categories_NoDup : NoDup (map fst equipment_indicators).
Proof.
  simpl. repeat constructor; simpl; intros H;
    repeat (destruct H as [H|H]; [discriminate H|]); exact H.
Qed.

Lemma positive_scores_eq sc :
  positive_scores sc
  = filter positive (map (entry sc) equipment_indicators).
Proof. reflexivity. Qed.

Lemma general_declared : exists kws, In (lit "general", kws) equipment_indicators.
Proof. eexists. simpl. do 6 right. left. reflexivity. Qed.

Lemma detect_max (w : World.t) (pdf_path : pystr) :
  (forall l, Permutation (World.set_order w l) l) ->
  exists keywords,
    In (_detect_document_type w pdf_path, keywords) equipment_indicators /\
    (forall c kws, In (c, kws) equipment_indicators ->
       score w pdf_path kws <= score w pdf_path keywords) /\
    ((forall c kws, In (c, kws) equipment_indicators -> score w pdf_path kws = 0) ->
       _detect_document_type w pdf_path = lit "general") /\
    (sampled w pdf_path = None -> 0 < score w pdf_path keywords ->
       exists before after,
         equipment_indicators
         = before ++ (_detect_document_type w pdf_path, keywords) :: after /\
         forall ck, In ck before -> score w pdf_path (snd ck) < score w pdf_path keywords).
Proof.
  intros Hperm.
  set (fname := lower (basename pdf_path)).
  assert (Hfile :
    sampled w pdf_path = None ->
    _detect_document_type w pdf_path
    = match max_of (positive_scores (filename_score fname)) with
      | Some c => c
      | None => lit "general"
      end).
  { unfold sampled, _detect_document_type. fold fname.
    destruct (World.PYMUPDF_AVAILABLE w); [|reflexivity].
    destruct (World.fitz_open w pdf_path); [reflexivity|discriminate]. }
  destruct (sampled w pdf_path) as [text|] eqn:Es.
  - (* the content was read *)
    assert (Hscore : forall kws,
      score w pdf_path kws = filename_score fname kws * 1 + content_score text kws * 2).
    { intros kws. unfold score. rewrite Es. reflexivity. }
    set (fs := positive_scores (filename_score fname)).
    set (cs := positive_scores (content_score text)).
    assert (Hdet : _detect_document_type w pdf_path
                   = match max_of (total_scores w fs cs) with
                     | Some c => c
                     | None => match max_of fs with Some c => c | None => lit "general" end
                     end).
    { unfold sampled in Es. unfold _detect_document_type. fold fname. fold fs.
      destruct (World.PYMUPDF_AVAILABLE w); [|discriminate].
      destruct (World.fitz_open w pdf_path) as [e|pages]; [discriminate|].
      injection Es as <-. reflexivity. }
    assert (Hget : forall c kws, In (c, kws) equipment_indicators ->
      get fs c * 1 + get cs c * 2 = score w pdf_path kws).
    { intros c kws Hin. rewrite Hscore. unfold fs, cs. rewrite !positive_scores_eq.
      rewrite (@get_present (filename_score fname) _ categories_NoDup _ _ Hin).
      rewrite (@get_present (content_score text) _ categories_NoDup _ _ Hin).
      reflexivity. }
    set (U := union (map fst fs) (map fst cs)).
    assert (HU : forall c, In c U <->
      exists kws, In (c, kws) equipment_indicators /\ 0 < score w pdf_path kws).
    { intros c. unfold U. rewrite union_In. unfold fs, cs. rewrite !positive_scores_eq.
      rewrite !keys_positive. split.
      - intros [(kws & Hin & Hp)|(kws & Hin & Hp)]; exists kws; rewrite Hscore; split;
          auto; lia.
      - intros (kws & Hin & Hp). rewrite Hscore in Hp.
        destruct (filename_score fname kws) eqn:Ef.
        + right. exists kws. split; [exact Hin|]. lia.
        + left. exists kws. split; [exact Hin|]. lia. }
    unfold total_scores in Hdet. fold U in Hdet.
    pose proof (Hperm U) as HP.
    destruct (World.set_order w U) as [|c0 order] eqn:Eo.
    + (* no category scored *)
      apply Permutation_nil in HP.
      assert (Hzero : forall c kws, In (c, kws) equipment_indicators ->
                score w pdf_path kws = 0).
      { intros c kws Hin. destruct (score w pdf_path kws) eqn:E; [reflexivity|].
        assert (In c U) by (apply HU; exists kws; split; [exact Hin|lia]).
        rewrite HP in H. contradiction. }
      assert (Hfs : fs = []).
      { unfold fs. rewrite positive_scores_eq. apply all_zero_no_scores.
        intros c kws Hin. specialize (Hzero c kws Hin). rewrite Hscore in Hzero. lia. }
      simpl in Hdet. rewrite Hfs in Hdet. simpl in Hdet.
      destruct general_declared as (kg & Hg).
      exists kg. rewrite Hdet. split; [exact Hg|]. split; [|split].
      * intros c kws Hin. rewrite (Hzero c kws Hin). lia.
      * reflexivity.
      * discriminate.
    + (* some category scored *)
      cbn [map max_of] in Hdet.
      set (h := fun category : pystr => (category, get fs category * 1 + get cs category * 2))
        in *.
      destruct (max_key_max (map h order) (h c0)) as (n & Hin & Hmax).
      assert (Hdet' : _detect_document_type w pdf_path = max_key (map h order) (h c0))
        by exact Hdet.
      rewrite <- Hdet' in Hin.
      change (h c0 :: map h order) with (map h (c0 :: order)) in Hin, Hmax.
      apply in_map_iff in Hin. destruct Hin as (r & Er & Hr).
      unfold h in Er. injection Er as Er En.
      assert (HrU : In r U) by (eapply Permutation_in; eauto).
      destruct (proj1 (HU r) HrU) as (kr & Hkr & Hpos).
      rewrite Er in *. clear Er.
      rewrite (Hget _ _ Hkr) in En.
      exists kr. split; [exact Hkr|]. split; [|split].
      * intros c kws Hin.
        destruct (score w pdf_path kws) eqn:E; [lia|].
        assert (HcU : In c U) by (apply HU; exists kws; split; [exact Hin|lia]).
        assert (Hc : In (h c) (map h (c0 :: order))).
        { apply in_map. eapply Permutation_in; [apply Permutation_sym; exact HP|exact HcU]. }
        specialize (Hmax _ Hc). unfold h in Hmax. simpl in Hmax.
        rewrite (Hget _ _ Hin) in Hmax. lia.
      * intros Hzero. specialize (Hzero _ _ Hkr). lia.
      * discriminate.
  - (* the file name alone *)
    assert (Hscore : forall kws, score w pdf_path kws = filename_score fname kws).
    { intros kws. unfold score. rewrite Es. fold fname. lia. }
    rewrite (Hfile eq_refl). rewrite positive_scores_eq.
    destruct (max_of_first (filename_score fname) equipment_indicators)
      as [(Hn & Hall)|(r & i1 & kr & i3 & Hm & Hsplit & Hp & H1 & H3)].
    + rewrite Hn. destruct general_declared as (kg & Hg).
      exists kg. split; [exact Hg|]. split; [|split].
      * intros c kws Hin. rewrite !Hscore. pose proof (Hall _ Hin) as Hz.
        simpl in Hz. lia.
      * reflexivity.
      * intros _ Hpos. rewrite Hscore in Hpos. pose proof (Hall _ Hg) as Hz.
        simpl in Hz. lia.
    + rewrite Hm. exists kr. split; [rewrite Hsplit; apply in_elt|]. split; [|split].
      * intros c kws Hin. rewrite !Hscore. rewrite Hsplit in Hin.
        apply in_app_iff in Hin. destruct Hin as [Hin|[Hin|Hin]].
        -- specialize (H1 _ Hin). simpl in H1. lia.
        -- injection Hin as <- <-. lia.
        -- specialize (H3 _ Hin). simpl in H3. lia.
      * intros Hzero. specialize (Hzero r kr). rewrite Hscore in Hzero.
        rewrite Hzero in Hp; [lia|]. rewrite Hsplit. apply in_elt.
      * intros _ _. exists i1, i3. split; [exact Hsplit|].
        intros ck Hck. rewrite !Hscore. apply H1. exact Hck.
Qed.

Lemma detect_by_file_name (w : World.t) (pdf_path filename : pystr) (category : pystr)
    (keywords : list pystr) :
  (forall l, Permutation (World.set_order w l) l) ->
  lower (basename pdf_path) = filename ->
  (forall text, sampled w pdf_path = Some text ->
     forall c kws, In (c, kws) equipment_indicators -> content_score text kws = 0) ->
  In (category, keywords) equipment_indicators ->
  (forall c kws, In (c, kws) equipment_indicators -> c <> category ->
     filename_score filename kws < filename_score filename keywords) ->
  _detect_document_type w pdf_path = category.
Proof.
  intros Hperm Hname Hquiet Hcat Hbest.
  destruct (@detect_max w pdf_path Hperm) as (kr & Hin & Hmax & _).
  assert (Hs : forall c kws, In (c, kws) equipment_indicators ->
                 score w pdf_path kws = filename_score filename kws).
  { intros c kws Hc. unfold score. rewrite Hname.
    destruct (sampled w pdf_path) as [text|] eqn:Es; [|lia].
    rewrite (Hquiet text eq_refl c kws Hc). lia. }
  destruct (list_eq_dec ascii_dec (_detect_document_type w pdf_path) category) as [E|E];
    [exact E|].
  specialize (Hbest _ _ Hin E). specialize (Hmax _ _ Hcat).
  rewrite (Hs _ _ Hin), (Hs _ _ Hcat) in Hmax. lia.
Qed.


(** * The classifier claim *)

(** Counterexample to C7 as stated.  In the file name
    "air_air_air_belt_conveyor.pdf" the keywords of hvac occur three times
    and those of conveyor twice, and the text has none, yet the classifier
    answers "conveyor": a keyword counts once per file name.  On
    "pump_motor.pdf", where electrical and hydraulic tie, the answer
    follows the order in which the set of categories hands them out. *)
Lemma file_name_keywords_count_once :
  _detect_document_type (scanned (fun l => l))
    "/srv/media/pdfs/air_air_air_belt_conveyor.pdf" = lit "conveyor" /\
  occurrence_score "air_air_air_belt_conveyor.pdf" "scanned copy"
    (keywords_of "hvac") = 3 /\
  occurrence_score "air_air_air_belt_conveyor.pdf" "scanned copy"
    (keywords_of "conveyor") = 2 /\
  _detect_document_type (scanned (fun l => l)) "/srv/media/pdfs/pump_motor.pdf"
    = lit "electrical" /\
  _detect_document_type (scanned (@rev pystr)) "/srv/media/pdfs/pump_motor.pdf"
    = lit "hydraulic".
Proof. repeat split; vm_compute; reflexivity. Qed.

(** C7, amended.  With the score of a category taken as the number of its
    keywords present in the lowered file name plus twice the number of
    keyword occurrences in the sampled text (when the file can be read),
    the classifier returns a declared category whose score no other
    exceeds; it returns "general" when every score is 0; when the text is
    not read, it returns the first category, in declared order, with the
    highest score; and for the file name "electrical_panel_inspection.pdf"
    with no keyword in the text it returns "electrical".  The order of a
    set is any permutation of its elements. *)
Theorem document_type_has_a_highest_score (w : World.t) (pdf_path : pystr) :
  (forall l, Permutation (World.set_order w l) l) ->
  (exists keywords,
     In (_detect_document_type w pdf_path, keywords) equipment_indicators /\
     (forall c kws, In (c, kws) equipment_indicators ->
        score w pdf_path kws <= score w pdf_path keywords) /\
     ((forall c kws, In (c, kws) equipment_indicators -> score w pdf_path kws = 0) ->
        _detect_document_type w pdf_path = lit "general") /\
     (sampled w pdf_path = None -> 0 < score w pdf_path keywords ->
        exists before after,
          equipment_indicators
          = before ++ (_detect_document_type w pdf_path, keywords) :: after /\
          forall ck, In ck before ->
            score w pdf_path (snd ck) < score w pdf_path keywords)) /\
  (lower (basename pdf_path) = lit "electrical_panel_inspection.pdf" ->
   (forall text, sampled w pdf_path = Some text ->
      forall c kws, In (c, kws) equipment_indicators -> content_score text kws = 0) ->
   _detect_document_type w pdf_path = lit "electrical").
Proof.
  intros Hperm. split; [apply detect_max; exact Hperm|].
  intros Hname Hquiet.
  apply (@detect_by_file_name w pdf_path _ "electrical"
           (keywords_of "electrical") Hperm Hname Hquiet).
  - simpl. right. left. reflexivity.
  - intros c kws Hin Hc. simpl in Hin.
    repeat (destruct Hin as [Hin|Hin];
            [injection Hin as <- <-; try (exfalso; apply Hc; reflexivity);
             vm_compute; lia|]).
    contradiction.
Qed.

Lemma document_type_witness :
  _detect_document_type (scanned (fun l => l))
    "/srv/media/pdfs/Electrical_Panel_Inspection.pdf" = lit "electrical".
Proof.
  apply (proj2 (@document_type_has_a_highest_score (scanned (fun l => l))
                  "/srv/media/pdfs/Electrical_Panel_Inspection.pdf"
                  (fun l => Permutation_refl l))).
  - vm_compute. reflexivity.
  - intros text Hs c kws Hin. vm_compute in Hs. injection Hs as <-.
    simpl in Hin.
    repeat (destruct Hin as [Hin|Hin];
            [injection Hin as <- <-; vm_compute; reflexivity|]).
    contradiction.
Defined.

(** * The persistence claim *)

(** Counterexample to C8 as stated: after a run on a file that cannot be
    opened the record is not marked processed; it carries the error text. *)
Lemma failed_extraction_leaves_unprocessed :
  fst (fst (process_inspection_pdf unreadable report_pdf empty_database)) = false /\
  InspectionPDF.processed
    (snd (fst (process_inspection_pdf unreadable report_pdf empty_database))) = false /\
  InspectionPDF.processing_errors
    (snd (fst (process_inspection_pdf unreadable report_pdf empty_database)))
    = Some (lit "Error processing PDF: cannot open broken document") /\
  map InspectionPDF.processed
    (inspection_pdfs (snd (process_inspection_pdf unreadable report_pdf empty_database)))
    = [false].
Proof.
  split; [vm_compute; reflexivity|]. split; [vm_compute; reflexivity|].
  split; vm_compute; reflexivity.
Qed.

(** C8, amended.  One run saves the record.  When nothing is raised inside
    the [try] block (the extraction returns and the database accepts every
    call), the run answers [True] and the record is marked processed, its
    error text untouched; when the extraction raises, or the database
    refuses a call, the run answers [False], the processed flag keeps the
    value it had, and the record carries the text "Error processing PDF: "
    followed by the message of the exception. *)
Theorem processed_exactly_when_nothing_raises
    (w : World.t) (inspection_pdf : InspectionPDF.t) (db : database) :
  let pdf_path :=
    path_join (World.MEDIA_ROOT w) (InspectionPDF.file_name inspection_pdf) in
  let exception :=
    match extract_inspections_from_pdf w pdf_path with
    | inr inspections =>
        fst (store_inspections w (InspectionPDF.id inspection_pdf) inspections db)
    | inl e => Some e
    end in
  let run := process_inspection_pdf w inspection_pdf db in
  In (snd (fst run)) (inspection_pdfs (snd run)) /\
  match exception with
  | None =>
      fst (fst run) = true /\
      InspectionPDF.processed (snd (fst run)) = true /\
      InspectionPDF.processing_errors (snd (fst run))
        = InspectionPDF.processing_errors inspection_pdf
  | Some e =>
      fst (fst run) = false /\
      InspectionPDF.processed (snd (fst run)) = InspectionPDF.processed inspection_pdf /\
      InspectionPDF.processing_errors (snd (fst run))
        = Some (lit "Error processing PDF: " ++ e)
  end.
Proof.
  unfold process_inspection_pdf, try_block, record_error. cbv zeta.
  destruct (extract_inspections_from_pdf w _) as [e|inspections].
  - split; [left; reflexivity | repeat split].
  - destruct (store_inspections w _ inspections db) as [[e|] db'];
      (split; [left; reflexivity | repeat split]).
Qed.

(** A run that the database stops.  From [oversized_number] the
    system-checklist strategy reads two tasks, numbered 3 and
    99999999999999999999; the [integer] column refuses the second number:
    the run answers [False] and records the error, and the rows written
    before stay, the system and its first task.  A second run finds that
    system, skips it, and answers [True]: the second task is never
    stored. *)
Example refused_number_leaves_rows :
  let first := process_inspection_pdf (offline [oversized_number]) report_pdf
                                      empty_database in
  let second := process_inspection_pdf (offline [oversized_number]) (snd (fst first))
                                       (snd first) in
  map (fun s => map Task.number (Inspection.tasks s))
      (returned (extract_inspections_from_pdf (offline [oversized_number])
                   "/srv/media/pdfs/report.pdf"))
  = [ [Some 3%Z; Some 99999999999999999999%Z] ] /\
  (fst (fst first) = false /\
   InspectionPDF.processing_errors (snd (fst first))
   = Some (lit "Error processing PDF: integer out of range") /\
   rows_of (snd first) (InspectionPDF.id report_pdf)
   = [ (lit "Pump system 1-Inspection Checklist",
        [ (Some 3%Z, lit "Check the oil level in the tank") ]) ]) /\
  (fst (fst second) = true /\
   rows_of (snd second) (InspectionPDF.id report_pdf)
   = [ (lit "Pump system 1-Inspection Checklist",
        [ (Some 3%Z, lit "Check the oil level in the tank") ]) ]).
Proof.
  cbv zeta. split; [vm_compute; reflexivity|]. split.
  - split; [vm_compute; reflexivity|]. split; vm_compute; reflexivity.
  - split; vm_compute; reflexivity.
Qed.

(** * The scenarios of the spec *)

(** Scenario A: two titled checklists, no AI: two systems of seven tasks,
    the first task being "Check worn or missing blades". *)
Example scenario_A :
  map (fun s => (Inspection.name s, List.length (Inspection.tasks s),
                 map Task.description (firstn 1 (Inspection.tasks s))))
      (match extract_inspections_from_pdf (offline [two_scrapers]) "a.pdf" with
       | inr l => l
       | inl _ => []
       end)
  = [ (lit "Belt Scraper system 1-Inspection Checklist", 7,
       [lit "Check worn or missing blades"]);
      (lit "Belt Scraper system 2-Inspection Checklist", 7,
       [lit "Check worn or missing blades"]) ].
Proof. vm_compute. reflexivity. Qed.

(** Scenario B: empty text, no AI: the one system of the fallback, with
    its five tasks. *)
Example scenario_B :
  map (fun s => (Inspection.name s, List.length (Inspection.tasks s)))
      (match extract_inspections_from_pdf (offline []) "empty.pdf" with
       | inr l => l
       | inl _ => []
       end)
  = [ (lit "Equipment Inspection Checklist", 5) ].
Proof. vm_compute. reflexivity. Qed.

(** * More about the schemas *)

Lemma strip_no_outer_space (v : pystr) : no_outer_space (strip v).
Proof.
  unfold no_outer_space, strip. split.
  - destruct (lstrip_head v) as [E|(c & r & E & Hc)]; rewrite E.
    + reflexivity.
    + rewrite (@rstrip_cons c r Hc). exact Hc.
  - unfold rstrip. rewrite rev_involutive.
    destruct (lstrip_head (rev (lstrip v))) as [E|(c & r & E & Hc)]; rewrite E;
      [exact I | exact Hc].
Qed.

Lemma by_value_sound {A : Type} (value : A -> pystr) (members : list A)
    (s : pystr) (m : A) :
  by_value value members s = Some m -> value m = s.
Proof.
  unfold by_value. intros H. apply find_some in H. destruct H as [_ H].
  apply pystr_eqb_eq in H. exact H.
Qed.

Lemma Task_init_same (td : TaskData.t) (t : TaskSchema.t) :
  TaskSchema_init td = Some t -> same_task td t.
Proof.
  unfold TaskSchema_init. intros H.
  destruct (TaskData.description td) as [v|] eqn:Ev; [|discriminate].
  unfold bind at 2, constr in H.
  destruct ((10 <=? List.length v) && (List.length v <=? 500)); [|discriminate].
  unfold bind, validate_description in H.
  destruct (List.length (strip v) <? 10); [discriminate|].
  unfold same_task. rewrite Ev.
  destruct (TaskData.type td) as [s|] eqn:Et.
  - destruct (TaskType_of s) as [ty|] eqn:Ety; [|discriminate].
    injection H as <-. simpl. repeat split; eauto.
    symmetry. eapply by_value_sound. exact Ety.
  - injection H as <-. simpl. repeat split; eauto.
Qed.

Lemma Forall2_renumber (P : TaskData.t -> TaskSchema.t -> Prop) :
  (forall td t i, P td t -> P td (set_number i t)) ->
  forall raw ts i, Forall2 P raw ts -> Forall2 P raw (renumber i ts).
Proof.
  intros HP raw ts i H. revert i.
  induction H as [|td t raw ts Ht _ IH]; intros i; simpl; constructor; auto.
Qed.

Lemma System_init_same (sd : SystemData.t) (s : SystemSchema.t) :
  SystemSchema_init sd = Some s -> same_system sd s.
Proof.
  intros H.
  destruct (@System_init_inv sd s H) as (v & raw & ts & Hn & _ & Hs & Hraw & He & _ & Ht).
  unfold SystemSchema_init in H. rewrite Hn, Hraw in H.
  unfold bind, constr, validate_name in H.
  destruct ((3 <=? List.length v) && (List.length v <=? 200)); [|discriminate].
  rewrite He in H. destruct (validate_tasks ts); [|discriminate].
  injection H as <-. unfold same_system. simpl in *.
  repeat split; eauto.
  exists raw. split; [exact Hraw|]. rewrite Ht.
  apply Forall2_renumber.
  - intros td t i Hsame. exact Hsame.
  - apply each_Forall2 in He. clear -He.
    induction He as [|x y l l' Hxy _ IH]; constructor; [|exact IH].
    apply Task_init_same. exact Hxy.
Qed.

(** X1. Validation keeps every system and every task of an accepted
    candidate, one for one and in order; it trims names and descriptions,
    reads an absent task type as "inspection", and leaves the other fields
    of systems and tasks as given (the task numbers apart). *)
Theorem validation_keeps_systems_and_tasks (d : ResponseData.t) (r : AIExtractionResult.t) :
  validate_ai_response d = Some r ->
  exists systems,
    ResponseData.systems d = Some systems /\
    Forall2 same_system systems (AIExtractionResult.systems r).
Proof.
  unfold validate_ai_response. intros H.
  destruct (@init_inv d r H) as (raw & systems & Hraw & He & _ & Hs & _).
  exists raw. split; [exact Hraw|]. rewrite Hs.
  apply each_Forall2 in He. clear -He.
  induction He as [|x y l l' Hxy _ IH]; constructor; [|exact IH].
  apply System_init_same. exact Hxy.
Qed.

Lemma validation_keeps_systems_and_tasks_witness :
  exists r systems,
    validate_ai_response pump_and_motor = Some r /\
    ResponseData.systems pump_and_motor = Some systems /\
    Forall2 same_system systems (AIExtractionResult.systems r).
Proof.
  eexists.
  destruct (@validation_keeps_systems_and_tasks pump_and_motor _ eq_refl)
    as (systems & Hs & Hall).
  exists systems. split; [vm_compute; reflexivity|]. split; [exact Hs | exact Hall].
Defined.

Lemma list_sum_ge_length {A : Type} (f : A -> nat) (l : list A) :
  Forall (fun x => 1 <= f x) l -> List.length l <= list_sum (map f l).
Proof.
  induction 1 as [|x l Hx _ IH]; simpl; lia.
Qed.

(** X2. In an accepted result the totals are ordered: there is at least one
    system and there are at least as many tasks as systems. *)
Theorem accepted_totals_are_ordered (d : ResponseData.t) (r : AIExtractionResult.t) :
  validate_ai_response d = Some r ->
  (1 <= AIExtractionResult.total_systems r <= AIExtractionResult.total_tasks r)%Z.
Proof.
  unfold validate_ai_response. intros H.
  destruct (@init_has_tasks d r H) as [Hne Hall].
  destruct (@init_inv d r H) as (raw & systems & _ & _ & _ & Hs & Hts & Htt & _).
  rewrite Hts, Htt, count_tasks_spec. rewrite Hs in Hne, Hall.
  assert (Hlen : List.length systems
                 <= list_sum (map (fun s => List.length (SystemSchema.tasks s)) systems)).
  { apply list_sum_ge_length. eapply Forall_impl; [|exact Hall].
    intros s Hs'. cbv beta in *.
    destruct (SystemSchema.tasks s); [congruence|simpl; lia]. }
  destruct systems; [congruence|]. simpl List.length in *. lia.
Qed.

Lemma accepted_totals_are_ordered_witness :
  exists r, validate_ai_response pump_and_motor = Some r /\
            (1 <= AIExtractionResult.total_systems r
               <= AIExtractionResult.total_tasks r)%Z.
Proof.
  eexists. split; [vm_compute; reflexivity|].
  exact (@accepted_totals_are_ordered pump_and_motor _ eq_refl).
Defined.

Lemma each_In_None {A B : Type} (f : A -> option B) (l : list A) (x : A) :
  In x l -> f x = None -> each f l = None.
Proof.
  induction l as [|y l IH]; simpl; [contradiction|].
  intros [->|Hin] Hx.
  - rewrite Hx. reflexivity.
  - rewrite (IH Hin Hx). destruct (f y); reflexivity.
Qed.

(** X3. One invalid part rejects the whole candidate: an empty list of
    systems, a system with an empty list of tasks, or a single task that
    does not validate, anywhere in the candidate, makes validation fail. *)
Theorem invalid_part_rejects_the_whole (d : ResponseData.t) (l : list SystemData.t) :
  ResponseData.systems d = Some l ->
  l = [] \/
  (exists sd, In sd l /\
     (SystemData.tasks sd = Some [] \/
      exists tasks td, SystemData.tasks sd = Some tasks /\ In td tasks /\
                       TaskSchema_init td = None)) ->
  validate_ai_response d = None.
Proof.
  intros Hl Hbad.
  destruct (validate_ai_response d) as [r|] eqn:E; [exfalso|reflexivity].
  unfold validate_ai_response in E.
  destruct (@init_inv d r E) as (raw & systems & Hraw & He & Hne & _).
  rewrite Hl in Hraw. injection Hraw as <-.
  destruct Hbad as [->|(sd & Hin & Hsd)].
  - simpl in He. injection He as <-. congruence.
  - assert (Hnone : SystemSchema_init sd = None).
    { destruct (SystemSchema_init sd) as [s|] eqn:Es; [exfalso|reflexivity].
      destruct (@System_init_inv sd s Es) as (_ & raw' & ts & _ & _ & _ & Hraw' & He' & Hts & _).
      destruct Hsd as [Hempty|(tasks & td & Ht & Hin' & Hbad)].
      - rewrite Hempty in Hraw'. injection Hraw' as <-. simpl in He'.
        injection He' as <-. congruence.
      - rewrite Ht in Hraw'. injection Hraw' as <-.
        rewrite (each_In_None TaskSchema_init tasks td Hin' Hbad) in He'. discriminate. }
    rewrite (each_In_None SystemSchema_init l sd Hin Hnone) in He. discriminate.
Qed.

Lemma invalid_part_rejects_the_whole_witness :
  validate_ai_response one_bad_task = None.
Proof.
  apply (@invalid_part_rejects_the_whole one_bad_task _ eq_refl).
  right. eexists. split; [left; reflexivity|]. right.
  eexists. eexists. split; [reflexivity|]. split; [right; left; reflexivity|].
  vm_compute. reflexivity.
Defined.

(** X4. The names and the descriptions of an accepted result are trimmed:
    none starts or ends with a whitespace character. *)
Theorem accepted_strings_are_trimmed (d : ResponseData.t) (r : AIExtractionResult.t) :
  validate_ai_response d = Some r ->
  Forall (fun s =>
            no_outer_space (SystemSchema.name s) /\
            Forall (fun t => no_outer_space (TaskSchema.description t))
                   (SystemSchema.tasks s))
         (AIExtractionResult.systems r).
Proof.
  unfold validate_ai_response. intros H.
  eapply Forall_impl; [|apply (@init_validated d r H)].
  intros s ((v & Hn) & _ & _ & Htr & _). split.
  - rewrite Hn. apply strip_no_outer_space.
  - eapply Forall_impl; [|exact Htr].
    intros t (v' & Hd & _). rewrite Hd. apply strip_no_outer_space.
Qed.

Lemma accepted_strings_are_trimmed_witness :
  exists r, validate_ai_response pump_and_motor = Some r /\
            Forall (fun s =>
                      no_outer_space (SystemSchema.name s) /\
                      Forall (fun t => no_outer_space (TaskSchema.description t))
                             (SystemSchema.tasks s))
                   (AIExtractionResult.systems r).
Proof.
  eexists. split; [vm_compute; reflexivity|].
  exact (@accepted_strings_are_trimmed pump_and_motor _ eq_refl).
Defined.

(** X5. Round trip: the field data of an accepted result whose system names
    have three characters or more validates again, to the same result. *)
Theorem revalidation_returns_the_result (d : ResponseData.t) (r : AIExtractionResult.t) :
  validate_ai_response d = Some r ->
  Forall (fun s => 3 <= List.length (SystemSchema.name s)) (AIExtractionResult.systems r) ->
  validate_ai_response (AIExtractionResult_dict r) = Some r.
Proof. apply revalidation_is_stable. Qed.

Lemma revalidation_returns_the_result_witness :
  exists r, validate_ai_response pump_and_motor = Some r /\
            validate_ai_response (AIExtractionResult_dict r) = Some r.
Proof.
  eexists. split; [vm_compute; reflexivity|].
  apply (@revalidation_returns_the_result pump_and_motor _ eq_refl).
  repeat constructor; vm_compute; lia.
Defined.

(** * More about the provider chain *)

Lemma init_fields (d : ResponseData.t) (r : AIExtractionResult.t) :
  AIExtractionResult_init d = Some r ->
  ResponseData.success d = Some (AIExtractionResult.success r) /\
  ResponseData.processing_method d = Some (AIExtractionResult.processing_method r) /\
  ResponseData.processing_time d = AIExtractionResult.processing_time r.
Proof.
  unfold AIExtractionResult_init. intros H.
  destruct (ResponseData.success d); [|discriminate].
  destruct (bind (ResponseData.confidence d) (confloat 0 1)); [|discriminate].
  destruct (ResponseData.processing_method d); [|discriminate].
  destruct (bind (bind (ResponseData.systems d) (each SystemSchema_init)) validate_systems);
    [|discriminate].
  destruct (ResponseData.total_systems d); [|discriminate].
  destruct (ResponseData.total_tasks d); [|discriminate].
  destruct (optional_enum QualityLevel_of (ResponseData.extraction_quality d));
    [|discriminate].
  simpl in H. injection H as <-. simpl. auto.
Qed.

Lemma gt_lt (a b : Q) : Services.gt a b = true -> (b < a)%Q.
Proof.
  unfold Services.gt. intros H. apply negb_true_iff in H.
  apply Qnot_le_lt. intros Hle. apply Qle_bool_iff in Hle. congruence.
Qed.

(** What one step of the chain hands on: a validated result that carries
    the adapter's label and passed the gate. *)
Lemma attempt_labelled (available : bool) (m : pystr) (reply : option ResponseData.t)
    (gate : AIExtractionResult.t -> bool) (r : AIExtractionResult.t) :
  Services.attempt available
    (bind reply (fun extracted_data =>
                   validate_ai_response (Services.set_processing_method m extracted_data)))
    gate = Some r ->
  available = true /\ AIExtractionResult.processing_method r = m /\ gate r = true.
Proof.
  unfold Services.attempt. destruct available; [|discriminate].
  destruct reply as [d|]; simpl; [|discriminate].
  destruct (validate_ai_response (Services.set_processing_method m d)) as [r'|] eqn:E;
    [|discriminate].
  destruct (gate r') eqn:G; [|discriminate]. intros H. injection H as <-.
  apply init_fields in E. destruct E as (_ & E & _). simpl in E.
  injection E as E. auto.
Qed.

Lemma process_pdf_cases (w : World.t) (pdf_path : pystr) :
  exists r,
    Services.process_pdf w pdf_path = Some r /\
    ((World.openai_available w = true /\
      AIExtractionResult.processing_method r = lit "gpt-4-vision" /\
      AIExtractionResult.success r = true /\
      (Services.f_0_7 < AIExtractionResult.confidence r)%Q /\
      AIExtractionResult.processing_time r = Some (World.elapsed w)) \/
     (World.claude_available w = true /\
      AIExtractionResult.processing_method r = lit "claude-3.5-sonnet" /\
      AIExtractionResult.success r = true /\
      (Services.f_0_6 < AIExtractionResult.confidence r)%Q /\
      AIExtractionResult.processing_time r = Some (World.elapsed w)) \/
     (World.google_available w = true /\
      AIExtractionResult.processing_method r = lit "google-document-ai" /\
      AIExtractionResult.success r = true /\
      AIExtractionResult.confidence r = Services.f_0_6 /\
      AIExtractionResult.processing_time r = Some (World.elapsed w)) \/
     (AIExtractionResult.processing_method r = lit "fallback" /\
      AIExtractionResult.success r = false /\
      AIExtractionResult.confidence r = 0%Q /\
      AIExtractionResult.processing_time r = None)).
Proof.
  unfold Services.process_pdf.
  destruct (Services.attempt (World.openai_available w) _ _) as [r1|] eqn:E1.
  { eexists. split; [reflexivity|]. left.
    unfold Services._process_with_openai in E1.
    destruct (_ =? 0).
    - unfold Services.attempt in E1. destruct (World.openai_available w); discriminate.
    - apply attempt_labelled in E1. destruct E1 as (Ha & Hm & Hg).
      apply andb_true_iff in Hg. destruct Hg as [Hs Hc]. apply gt_lt in Hc.
      simpl. auto. }
  destruct (Services.attempt (World.claude_available w) _ _) as [r2|] eqn:E2.
  { eexists. split; [reflexivity|]. right. left.
    unfold Services._process_with_claude in E2.
    destruct (Services._extract_text_from_pdf w pdf_path).
    - unfold Services.attempt in E2. destruct (World.claude_available w); discriminate.
    - apply attempt_labelled in E2. destruct E2 as (Ha & Hm & Hg).
      apply andb_true_iff in Hg. destruct Hg as [Hs Hc]. apply gt_lt in Hc.
      simpl. auto. }
  destruct (Services.attempt (World.google_available w) _ _) as [r3|] eqn:E3.
  { eexists. split; [reflexivity|]. right. right. left.
    unfold Services.attempt in E3.
    destruct (World.google_available w); [|discriminate].
    vm_compute in E3. injection E3 as <-. simpl. auto. }
  eexists. split; [vm_compute; reflexivity|]. right. right. right. simpl. auto.
Qed.

(** X6. The provider chain never raises, and its result tells where it comes
    from: a result labelled "gpt-4-vision" is a success with a confidence
    above 0.7, one labelled "claude-3.5-sonnet" a success with a confidence
    above 0.6, one labelled "google-document-ai" the stub of confidence
    0.6; each of them comes from a configured service and carries the
    processing time; any other result is the fallback, labelled "fallback",
    not a success, with confidence 0 and no processing time.  The label a
    provider wrote into its answer is never kept. *)
Theorem process_pdf_outcomes (w : World.t) (pdf_path : pystr) :
  exists r,
    Services.process_pdf w pdf_path = Some r /\
    ((World.openai_available w = true /\
      AIExtractionResult.processing_method r = lit "gpt-4-vision" /\
      AIExtractionResult.success r = true /\
      (Services.f_0_7 < AIExtractionResult.confidence r)%Q /\
      AIExtractionResult.processing_time r = Some (World.elapsed w)) \/
     (World.claude_available w = true /\
      AIExtractionResult.processing_method r = lit "claude-3.5-sonnet" /\
      AIExtractionResult.success r = true /\
      (Services.f_0_6 < AIExtractionResult.confidence r)%Q /\
      AIExtractionResult.processing_time r = Some (World.elapsed w)) \/
     (World.google_available w = true /\
      AIExtractionResult.processing_method r = lit "google-document-ai" /\
      AIExtractionResult.success r = true /\
      AIExtractionResult.confidence r = Services.f_0_6 /\
      AIExtractionResult.processing_time r = Some (World.elapsed w)) \/
     (AIExtractionResult.processing_method r = lit "fallback" /\
      AIExtractionResult.success r = false /\
      AIExtractionResult.confidence r = 0%Q /\
      AIExtractionResult.processing_time r = None)).
Proof. exact (process_pdf_cases w pdf_path). Qed.

(** X7. For a document that cannot be opened, or has no page, the provider
    chain hands on no result of OpenAI or Claude, whatever is configured
    and whatever they would answer: its result is the Google stub, a
    success, when Google is configured, and the fallback, not a success,
    otherwise. *)
Theorem providers_need_pages (w : World.t) (pdf_path : pystr) :
  (forall pages, World.fitz_open w pdf_path = inr pages -> pages = []) ->
  exists r,
    Services.process_pdf w pdf_path = Some r /\
    AIExtractionResult.processing_method r
    = (if World.google_available w then lit "google-document-ai" else lit "fallback") /\
    AIExtractionResult.success r = World.google_available w.
Proof.
  intros Hpages. unfold Services.process_pdf.
  assert (H1 : Services._process_with_openai w pdf_path = None).
  { unfold Services._process_with_openai, Services._pdf_to_images.
    destruct (World.fitz_open w pdf_path) as [e|pages]; [reflexivity|].
    rewrite (Hpages pages eq_refl). reflexivity. }
  assert (H2 : Services._process_with_claude w pdf_path = None).
  { unfold Services._process_with_claude, Services._extract_text_from_pdf.
    destruct (World.fitz_open w pdf_path) as [e|pages]; [reflexivity|].
    rewrite (Hpages pages eq_refl). reflexivity. }
  rewrite H1, H2. unfold Services.attempt at 1 2.
  destruct (World.openai_available w); destruct (World.claude_available w);
    unfold Services.attempt; destruct (World.google_available w);
    (eexists; split; [vm_compute; reflexivity|]; split; reflexivity).
Qed.

Lemma providers_need_pages_witness :
  exists r,
    Services.process_pdf (online true true true [] (Some pump_and_motor)) "empty.pdf"
    = Some r /\
    AIExtractionResult.processing_method r = lit "google-document-ai".
Proof.
  destruct (@providers_need_pages (online true true true [] (Some pump_and_motor))
              "empty.pdf") as (r & E & Hm & _).
  - intros pages H. injection H as <-. reflexivity.
  - exists r. split; [exact E | exact Hm].
Defined.

(** * More about the extraction *)

(** X8. With the AI module loaded and Google the only configured service,
    every document that can be read gets the same answer, the one-task stub
    of the Google adapter: its confidence of 0.6 passes the gate of 0.3,
    and neither the text of the document nor the legacy strategies are
    consulted. *)
Theorem google_stub_answers_for_every_document (w : World.t) (pdf_path : pystr) :
  World.AI_PROCESSING_AVAILABLE w = true ->
  World.openai_available w = false ->
  World.claude_available w = false ->
  World.google_available w = true ->
  (World.PYMUPDF_AVAILABLE w = true ->
   exists pages, World.fitz_open w pdf_path = inr pages) ->
  exists inspections,
    extract_inspections_from_pdf w pdf_path = inr inspections /\
    map stored inspections
    = [ (lit "General Equipment Inspection",
         [ (Some 1%Z, lit "Perform visual inspection") ]) ].
Proof.
  intros Hai Ho Hc Hg Hopen.
  assert (Hp : exists inspections,
             premium_ai w pdf_path = Some inspections /\
             map stored inspections
             = [ (lit "General Equipment Inspection",
                  [ (Some 1%Z, lit "Perform visual inspection") ]) ]).
  { unfold premium_ai, Services.process_pdf, Services.attempt.
    rewrite Ho, Hc, Hg. eexists. split; vm_compute; reflexivity. }
  destruct Hp as (inspections & Hp & Hrows). exists inspections.
  split; [|exact Hrows].
  unfold extract_inspections_from_pdf, read_all_text. rewrite Hai, Hp.
  destruct (World.PYMUPDF_AVAILABLE w); [|reflexivity].
  destruct (Hopen eq_refl) as (pages & E). rewrite E. reflexivity.
Qed.

Lemma google_stub_answers_witness :
  exists inspections,
    extract_inspections_from_pdf (online false false true [two_scrapers] None) "a.pdf"
    = inr inspections /\
    map stored inspections
    = [ (lit "General Equipment Inspection",
         [ (Some 1%Z, lit "Perform visual inspection") ]) ].
Proof.
  apply google_stub_answers_for_every_document; try reflexivity.
  intros _. eexists. reflexivity.
Defined.

(** X9. Without the PDF library (and so without the AI module, which
    imports it) no file is opened and every document gets the same answer:
    the "Equipment Inspection Checklist" with its five tasks. *)
Theorem without_pdf_library_one_checklist (w : World.t) (pdf_path : pystr) :
  World.PYMUPDF_AVAILABLE w = false ->
  World.AI_PROCESSING_AVAILABLE w = false ->
  extract_inspections_from_pdf w pdf_path = inr [equipment_checklist].
Proof.
  intros Hp Hai. rewrite extraction_outcome, Hp, Hai.
  unfold legacy_chain. rewrite Hp. vm_compute. reflexivity.
Qed.

Lemma without_pdf_library_witness :
  extract_inspections_from_pdf bare "/srv/media/pdfs/report.pdf"
  = inr [equipment_checklist].
Proof. apply without_pdf_library_one_checklist; reflexivity. Defined.

(** * More about the strategies *)

Lemma inr_eq {A B : Type} (a b : B) : @inr A B a = inr b -> a = b.
Proof. congruence. Qed.

Lemma mem_In (x : pystr) (l : list pystr) : mem x l = true <-> In x l.
Proof.
  unfold mem. rewrite existsb_exists. split.
  - intros (y & Hin & E). apply pystr_eqb_eq in E. subst. exact Hin.
  - intros Hin. exists x. split; [exact Hin | apply pystr_eqb_refl].
Qed.

Lemma mem_not_In (x : pystr) (l : list pystr) : mem x l = false <-> ~ In x l.
Proof.
  rewrite <- mem_In. destruct (mem x l); split; intros; congruence.
Qed.

Lemma distinct_NoDup (l : list pystr) : distinct l = true -> NoDup l.
Proof.
  induction l as [|x l IH]; simpl; intros H; constructor.
  - apply andb_true_iff in H. destruct H as [H _].
    apply negb_true_iff in H. apply mem_not_In. exact H.
  - apply IH. apply andb_true_iff in H. tauto.
Qed.

Lemma firstn_seq (n a m : nat) : firstn n (seq a m) = seq a (Nat.min n m).
Proof.
  revert a m. induction n as [|n IH]; intros a [|m]; simpl; try reflexivity.
  rewrite IH. reflexivity.
Qed.

Lemma numbered_firstn (n : nat) (tasks : list Task.t) :
  numbered_from_one tasks -> numbered_from_one (firstn n tasks).
Proof.
  unfold numbered_from_one. intros H.
  rewrite <- firstn_map, H, firstn_map, firstn_seq, length_firstn. reflexivity.
Qed.

Lemma numbered_snoc (tasks : list Task.t) (d : pystr) :
  numbered_from_one tasks ->
  numbered_from_one (tasks ++ [mk_task (Z.of_nat (List.length tasks + 1)) d]).
Proof.
  unfold numbered_from_one. intros H.
  rewrite map_app, length_app, H. simpl List.length.
  rewrite seq_app, map_app. simpl. do 3 f_equal. lia.
Qed.

Lemma numbered_present (tasks : list Task.t) :
  numbered_from_one tasks -> Forall (fun t => Task.number t <> None) tasks.
Proof.
  unfold numbered_from_one. generalize 1 as k.
  induction tasks as [|t tasks IH]; intros k H; constructor.
  - simpl in H. injection H as H _. congruence.
  - simpl in H. injection H as _ H. eapply IH. exact H.
Qed.

Lemma enumerate_map_numbers {A : Type} (f : A -> pystr) (l : list A) : forall k,
  map Task.number (enumerate_map (fun i x => mk_task i (f x)) (Z.of_nat k) l)
  = map (fun i => Some (Z.of_nat i)) (seq k (List.length l)).
Proof.
  induction l as [|x l IH]; intros k; simpl; [reflexivity|].
  f_equal. rewrite <- IH. do 2 f_equal. lia.
Qed.

Lemma enumerate_map_descriptions {A : Type} (f : A -> pystr) (l : list A) : forall k,
  map Task.description (enumerate_map (fun i x => mk_task i (f x)) k l) = map f l.
Proof.
  induction l as [|x l IH]; intros k; simpl; [reflexivity|]. rewrite IH. reflexivity.
Qed.

Lemma enumerate_numbered {A : Type} (f : A -> pystr) (l : list A) :
  numbered_from_one (enumerate_map (fun i x => mk_task i (f x)) 1 l).
Proof.
  unfold numbered_from_one. rewrite enumerate_map_length.
  apply (enumerate_map_numbers f l 1).
Qed.

(** The loop over the title matches makes one system per distinct title:
    no title twice, none that was processed before, every match
    represented, every system with the given tasks. *)
Lemma titled_systems_spec (title_of : pystr -> pystr) (tasks : list Task.t)
    (matches : list mobj) : forall processed,
  NoDup (map Inspection.name (titled_systems title_of tasks matches processed)) /\
  (forall s, In s (titled_systems title_of tasks matches processed) ->
     ~ In (Inspection.name s) processed /\
     Inspection.tasks s = tasks /\
     exists m, In m matches /\ Inspection.name s = title_of (group m 1)) /\
  (forall m, In m matches ->
     In (title_of (group m 1)) processed \/
     In (title_of (group m 1))
        (map Inspection.name (titled_systems title_of tasks matches processed))).
Proof.
  induction matches as [|m0 ms IH]; intros processed; simpl.
  - split; [constructor|]. split; intros ? [].
  - destruct (mem (title_of (group m0 1)) processed) eqn:E.
    + destruct (IH processed) as (H1 & H2 & H3). split; [exact H1|]. split.
      * intros s Hs. destruct (H2 s Hs) as (Ha & Hb & m & Hm & Hn).
        repeat split; auto. exists m. auto.
      * intros m [<-|Hm]; [left; apply mem_In; exact E | apply H3; exact Hm].
    + apply mem_not_In in E.
      destruct (IH (title_of (group m0 1) :: processed)) as (H1 & H2 & H3).
      split; [|split].
      * simpl. constructor; [|exact H1]. intros Hin. apply in_map_iff in Hin.
        destruct Hin as (s & Hn & Hs). destruct (H2 s Hs) as (Ha & _).
        apply Ha. left. symmetry. exact Hn.
      * intros s [<-|Hs].
        -- simpl. repeat split; auto. exists m0. auto.
        -- destruct (H2 s Hs) as (Ha & Hb & m & Hm & Hn).
           repeat split; auto.
           ++ intros Hin. apply Ha. right. exact Hin.
           ++ exists m. auto.
      * intros m [<-|Hm]; [right; left; reflexivity|].
        destruct (H3 m Hm) as [[Heq|Hin]|Hin]; auto.
        -- right. left. exact Heq.
        -- right. right. exact Hin.
Qed.

Lemma belt_scraper_systems_spec (text : pystr) :
  NoDup (map Inspection.name (extract_belt_scraper_systems text)) /\
  (forall m, In m (finditer ignore_case belt_system_pattern text) ->
     In (lit "Belt Scraper System " ++ group m 1)
        (map Inspection.name (extract_belt_scraper_systems text))) /\
  Forall (fun s =>
            (exists m, In m (finditer ignore_case belt_system_pattern text) /\
                       Inspection.name s = lit "Belt Scraper System " ++ group m 1) /\
            map Task.description (Inspection.tasks s) = standard_tasks /\
            numbered_from_one (Inspection.tasks s))
         (extract_belt_scraper_systems text).
Proof.
  unfold extract_belt_scraper_systems.
  destruct (titled_systems_spec belt_title (enumerate_map mk_task 1 standard_tasks)
              (finditer ignore_case belt_system_pattern text) []) as (H1 & H2 & H3).
  split; [exact H1|]. split.
  - intros m Hm. destruct (H3 m Hm) as [[]|Hin]. exact Hin.
  - apply Forall_forall. intros s Hs. destruct (H2 s Hs) as (_ & Ht & m & Hm & Hn).
    split; [exists m; auto|]. rewrite Ht. split; [reflexivity|].
    vm_compute. reflexivity.
Qed.

(** X10. [extract_belt_scraper_systems] makes one system per distinct title
    number found in the text: every match of the title pattern is
    represented by the system "Belt Scraper System N", no name occurs
    twice, and every system carries the seven standard tasks, numbered 1
    to 7. *)
Theorem belt_scraper_systems_shape (text : pystr) :
  NoDup (map Inspection.name (extract_belt_scraper_systems text)) /\
  (forall m, In m (finditer ignore_case belt_system_pattern text) ->
     In (lit "Belt Scraper System " ++ group m 1)
        (map Inspection.name (extract_belt_scraper_systems text))) /\
  Forall (fun s =>
            (exists m, In m (finditer ignore_case belt_system_pattern text) /\
                       Inspection.name s = lit "Belt Scraper System " ++ group m 1) /\
            map Task.description (Inspection.tasks s) = standard_tasks /\
            numbered_from_one (Inspection.tasks s))
         (extract_belt_scraper_systems text).
Proof. exact (belt_scraper_systems_spec text). Qed.

Lemma insert_by_perm {A : Type} (key : A -> Z) (x : A) (l : list A) :
  Permutation (insert_by key x l) (x :: l).
Proof.
  induction l as [|y l IH]; simpl; [reflexivity|].
  destruct (key y <? key x)%Z; [|reflexivity].
  rewrite IH. apply perm_swap.
Qed.

Lemma sort_by_perm {A : Type} (key : A -> Z) (l : list A) :
  Permutation (sort_by key l) l.
Proof.
  induction l as [|x l IH]; [reflexivity|].
  unfold sort_by in *. simpl. rewrite insert_by_perm. constructor. exact IH.
Qed.

Lemma NoDup_firstn {A : Type} (n : nat) (l : list A) : NoDup l -> NoDup (firstn n l).
Proof.
  intros H. rewrite <- (firstn_skipn n l) in H. eapply NoDup_app_remove_r. exact H.
Qed.

Lemma Forall_firstn {A : Type} (P : A -> Prop) (n : nat) (l : list A) :
  Forall P l -> Forall P (firstn n l).
Proof.
  intros H. rewrite <- (firstn_skipn n l) in H. apply Forall_app in H. tauto.
Qed.

Lemma harvest_tasks_harvested (matches : list mobj) : forall extracted seen st,
  harvested (extracted, seen) ->
  harvest_tasks matches extracted seen = inr st -> harvested st.
Proof.
  induction matches as [|m ms IH]; intros extracted seen st H; cbn [harvest_tasks].
  { intros E. injection E as <-. exact H. }
  destruct (int_of (group m 1)) as [e|task_num]; [discriminate|].
  match goal with
  | |- (if ?c then _ else _) = _ -> _ => destruct c eqn:E
  end; [|apply IH; exact H].
  match type of E with
  | context [10 <? List.length ?d] => set (task_desc := d) in *
  end.
  apply andb_true_iff in E. destruct E as [E Hcheck].
  apply andb_true_iff in E. destruct E as [E Hnew].
  apply andb_true_iff in E. destruct E as [Hlen _].
  apply Nat.ltb_lt in Hlen. apply negb_true_iff in Hnew. apply mem_not_In in Hnew.
  destruct H as (Hall & Hnd & Hseen). simpl in Hall, Hnd, Hseen.
  assert (H' : harvested (extracted ++ [(task_num, task_desc)],
                          lower task_desc :: seen)).
  { unfold harvested. simpl. split; [|split].
    - apply Forall_app. split; [exact Hall|]. constructor; [|constructor].
      split; assumption.
    - rewrite map_app. apply NoDup_app; [exact Hnd | repeat constructor; auto |].
      intros a Ha [Heq|[]]. simpl in Heq. subst a.
      apply in_map_iff in Ha. destruct Ha as (nd & Hnd' & Hin).
      apply Hnew. rewrite <- Hnd'. apply Hseen. exact Hin.
    - intros nd Hin. apply in_app_iff in Hin. destruct Hin as [Hin|[<-|[]]].
      + right. apply Hseen. exact Hin.
      + left. reflexivity. }
  match goal with
  | |- (if ?c then _ else _) = _ -> _ => destruct c
  end; [intros E; injection E as <-; exact H' | apply IH; exact H'].
Qed.

Lemma extracted_tasks_harvested (text : pystr) (extracted : list (Z * pystr)) :
  extracted_tasks text = inr extracted ->
  Forall (fun nd => names_a_check (snd nd)) extracted /\
  NoDup (map (fun nd => lower (snd nd)) extracted).
Proof.
  unfold extracted_tasks.
  destruct (for_each _ custom_task_patterns _) as [e|st] eqn:E; [discriminate|].
  intros H. injection H as <-.
  assert (Hst : harvested st).
  { revert E. apply for_each_inv.
    - intros st0 pattern st1 _ H0. destruct st0 as [extracted seen].
      apply harvest_tasks_harvested. exact H0.
    - unfold harvested. simpl. repeat split; try constructor. intros ? []. }
  destruct Hst as (H1 & H2 & _). split; assumption.
Qed.

(** The task list of strategy 0: one to seven checks, numbered from 1,
    each of more than ten characters, no two equal up to case. *)
Lemma final_tasks_spec (extracted : list (Z * pystr)) :
  Forall (fun nd => names_a_check (snd nd)) extracted ->
  NoDup (map (fun nd => lower (snd nd)) extracted) ->
  1 <= List.length (firstn 7 (final_tasks extracted)) <= 7 /\
  numbered_from_one (firstn 7 (final_tasks extracted)) /\
  Forall (fun t => names_a_check (Task.description t)) (firstn 7 (final_tasks extracted)) /\
  NoDup (map (fun t => lower (Task.description t)) (firstn 7 (final_tasks extracted))).
Proof.
  intros Hall Hnd. split; [apply final_tasks_bounds|].
  unfold final_tasks.
  destruct extracted as [|e l].
  - split; [vm_compute; reflexivity|]. split.
    + repeat constructor; vm_compute; lia.
    + apply distinct_NoDup. vm_compute. reflexivity.
  - set (chosen := firstn 7 (sort_by fst (e :: l))).
    assert (Hall' : Forall (fun nd => names_a_check (snd nd)) chosen).
    { apply Forall_firstn. rewrite Forall_forall in *. intros nd Hin.
      apply Hall. eapply Permutation_in; [apply sort_by_perm|exact Hin]. }
    assert (Hnd' : NoDup (map (fun nd => lower (snd nd)) chosen)).
    { unfold chosen. rewrite <- firstn_map. apply NoDup_firstn.
      eapply Permutation_NoDup; [|exact Hnd].
      apply Permutation_map. symmetry. apply sort_by_perm. }
    split; [apply numbered_firstn; apply (enumerate_numbered snd)|].
    assert (Hd : map Task.description
                   (firstn 7 (enumerate_map (fun i nd => mk_task i (snd nd)) 1 chosen))
                 = map snd chosen).
    { rewrite <- firstn_map, enumerate_map_descriptions, firstn_map.
      unfold chosen. rewrite firstn_firstn. reflexivity. }
    split.
    + rewrite <- Forall_map with (f := Task.description)
                                 (P := names_a_check).
      rewrite Hd. rewrite Forall_map. exact Hall'.
    + rewrite <- (map_map Task.description lower), Hd, map_map. exact Hnd'.
Qed.

Lemma str_of_nat_inj (a b : nat) : str_of_nat a = str_of_nat b -> a = b.
Proof.
  unfold str_of_nat, lit. intros H.
  apply (f_equal string_of_list_ascii) in H.
  rewrite !string_of_list_ascii_of_string in H.
  assert (Hnil : forall n, Nat.to_uint n <> Decimal.Nil).
  { intros n E. pose proof (DecimalNat.Unsigned.of_to n) as Hn. rewrite E in Hn.
    simpl in Hn. subst n. discriminate E. }
  apply DecimalNat.Unsigned.to_uint_inj.
  pose proof (NilZero.usu _ (Hnil a)) as Ha. pose proof (NilZero.usu _ (Hnil b)) as Hb.
  rewrite H in Ha. congruence.
Qed.

Lemma custom_title_inj (a b : pystr) : custom_title a = custom_title b -> a = b.
Proof.
  unfold custom_title. intros H. apply app_inv_head in H. apply app_inv_tail in H.
  exact H.
Qed.

Lemma custom_user_systems_spec (text : pystr) (systems : list Inspection.t) :
  extract_custom_user_systems text = inr systems ->
  exists tasks,
    1 <= List.length tasks <= 7 /\
    numbered_from_one tasks /\
    Forall (fun t => names_a_check (Task.description t)) tasks /\
    NoDup (map (fun t => lower (Task.description t)) tasks) /\
    Forall (fun s => Inspection.tasks s = tasks) systems /\
    NoDup (map Inspection.name systems).
Proof.
  intros H. apply custom_returned in H. destruct H as (extracted & He & ->).
  destruct (extracted_tasks_harvested text He) as [Hall Hnd].
  exists (firstn 7 (final_tasks extracted)).
  destruct (final_tasks_spec Hall Hnd) as (H1 & H2 & H3 & H4).
  repeat (split; [assumption|]).
  unfold custom_systems.
  destruct (titled_systems_spec custom_title (firstn 7 (final_tasks extracted))
              (finditer ignore_case custom_system_pattern text) []) as (Hn & Hs & _).
  destruct (titled_systems custom_title (firstn 7 (final_tasks extracted))
              (finditer ignore_case custom_system_pattern text) []) as [|s0 l] eqn:E.
  - destruct (found ignore_case conveyor_pattern text);
      [|split; constructor].
    split.
    + apply Forall_forall. intros s Hin. apply in_map_iff in Hin.
      destruct Hin as (i & <- & _). reflexivity.
    + rewrite map_map. simpl.
      apply NoDup_map_NoDup_ForallPairs; [|apply seq_NoDup].
      intros a b _ _ Hab. apply custom_title_inj in Hab.
      apply str_of_nat_inj. exact Hab.
  - split; [|exact Hn]. apply Forall_forall. intros s Hin.
    destruct (Hs s Hin) as (_ & Ht & _). exact Ht.
Qed.

(** X11. Whenever [extract_custom_user_systems] returns, it has given every
    system it made the same list of one to seven tasks, numbered from 1;
    each task is a check of more than ten characters, no two tasks are
    equal up to case, and no two systems have the same name. *)
Theorem custom_user_systems_shape (text : pystr) (systems : list Inspection.t) :
  extract_custom_user_systems text = inr systems ->
  exists tasks,
    1 <= List.length tasks <= 7 /\
    numbered_from_one tasks /\
    Forall (fun t => names_a_check (Task.description t)) tasks /\
    NoDup (map (fun t => lower (Task.description t)) tasks) /\
    Forall (fun s => Inspection.tasks s = tasks) systems /\
    NoDup (map Inspection.name systems).
Proof. exact (@custom_user_systems_spec text systems). Qed.

Lemma custom_user_systems_shape_witness :
  exists systems,
    extract_custom_user_systems repeated_title = inr systems /\
    exists tasks,
      1 <= List.length tasks <= 7 /\
      numbered_from_one tasks /\
      Forall (fun t => names_a_check (Task.description t)) tasks /\
      NoDup (map (fun t => lower (Task.description t)) tasks) /\
      Forall (fun s => Inspection.tasks s = tasks) systems /\
      NoDup (map Inspection.name systems).
Proof.
  eexists. split; [vm_compute; reflexivity|].
  apply (@custom_user_systems_shape repeated_title). vm_compute. reflexivity.
Defined.

Lemma add_generic_tasks_spec (last_group : nat) (matches : list mobj) :
  forall tasks task_number,
    numbered_from_one tasks ->
    task_number = Z.of_nat (List.length tasks + 1) ->
    Forall (fun t => generic_description (Task.description t)) tasks ->
    numbered_from_one (fst (add_generic_tasks last_group matches tasks task_number)) /\
    snd (add_generic_tasks last_group matches tasks task_number)
    = Z.of_nat (List.length (fst (add_generic_tasks last_group matches tasks task_number)) + 1) /\
    Forall (fun t => generic_description (Task.description t))
           (fst (add_generic_tasks last_group matches tasks task_number)).
Proof.
  induction matches as [|m ms IH]; intros tasks task_number Hn Hk Hd; simpl; [auto|].
  destruct ((10 <? List.length (strip (group m last_group)))
            && (List.length (strip (group m last_group)) <? 200)) eqn:E;
    [|apply IH; assumption].
  apply andb_true_iff in E. destruct E as [E1 E2].
  apply Nat.ltb_lt in E1. apply Nat.ltb_lt in E2.
  assert (Hn' : numbered_from_one (tasks ++ [mk_task task_number (strip (group m last_group))])).
  { subst task_number. apply numbered_snoc. exact Hn. }
  assert (Hk' : (task_number + 1)%Z
                = Z.of_nat (List.length (tasks ++ [mk_task task_number
                                                     (strip (group m last_group))]) + 1)).
  { rewrite length_app. simpl. lia. }
  assert (Hd' : Forall (fun t => generic_description (Task.description t))
                       (tasks ++ [mk_task task_number (strip (group m last_group))])).
  { apply Forall_app. split; [exact Hd|]. constructor; [|constructor].
    split; [simpl; lia | apply strip_no_outer_space]. }
  destruct (20 <? task_number + 1)%Z; [simpl; auto | apply IH; assumption].
Qed.

Lemma generic_tasks_spec (text : pystr) :
  numbered_from_one (generic_tasks text) /\
  Forall (fun t => generic_description (Task.description t)) (generic_tasks text).
Proof.
  unfold generic_tasks.
  assert (G : forall patterns (st : list Task.t * Z),
    numbered_from_one (fst st) ->
    snd st = Z.of_nat (List.length (fst st) + 1) ->
    Forall (fun t => generic_description (Task.description t)) (fst st) ->
    let st' := fold_left
                 (fun st (p : flags * re * nat) =>
                    let '(fl, pattern, last_group) := p in
                    add_generic_tasks last_group (finditer fl pattern text) (fst st) (snd st))
                 patterns st in
    numbered_from_one (fst st') /\
    Forall (fun t => generic_description (Task.description t)) (fst st')).
  { induction patterns as [|[[fl pattern] last_group] ps IH]; intros st Hn Hk Hd; simpl;
      [auto|].
    destruct (@add_generic_tasks_spec last_group (finditer fl pattern text)
                (fst st) (snd st) Hn Hk Hd) as (Hn' & Hk' & Hd').
    apply IH; assumption. }
  apply G; simpl; [reflexivity | reflexivity | constructor].
Qed.



(** The systems of the generic strategy are the chosen names, each with
    the first ten tasks, when there is a task at all. *)
Lemma extract_generic_systems_eq (w : World.t) (text : pystr) :
  exists names tasks,
    names = firstn 5 (World.set_order w
              (fold_left (fun names pattern =>
                            add_system_names (finditer ignore_case pattern text) names)
                         generic_patterns [])) /\
    tasks = firstn (Nat.min (List.length (generic_tasks text)) 10) (generic_tasks text) /\
    extract_generic_systems w text
    = match tasks with
      | [] => []
      | _ => map (fun system_name => mk_system system_name tasks) names
      end.
Proof.
  do 2 eexists. split; [reflexivity|]. split; [reflexivity|].
  unfold extract_generic_systems.
  generalize (firstn 5 (World.set_order w
                (fold_left (fun names pattern =>
                              add_system_names (finditer ignore_case pattern text) names)
                           generic_patterns []))) as names.
  destruct (firstn _ (generic_tasks text)) as [|t ts];
    induction names as [|c names IH]; simpl; auto.
Qed.

Lemma generic_shared_tasks (w : World.t) (text : pystr) :
  exists tasks,
    List.length tasks <= 10 /\
    numbered_from_one tasks /\
    Forall (fun t => generic_description (Task.description t)) tasks /\
    Forall (fun s => Inspection.tasks s = tasks /\ tasks <> [])
           (extract_generic_systems w text).
Proof.
  destruct (extract_generic_systems_eq w text) as (names & tasks & _ & Ht & E).
  destruct (generic_tasks_spec text) as [Hnum Hdesc].
  exists tasks. rewrite E, Ht.
  split; [rewrite length_firstn; lia|].
  split; [apply numbered_firstn; exact Hnum|].
  split; [apply Forall_firstn; exact Hdesc|].
  rewrite <- Ht. destruct tasks as [|t ts]; [constructor|].
  apply Forall_map. apply Forall_forall. intros n _. simpl.
  split; [reflexivity|discriminate].
Qed.



Lemma flush_checklist (st : checklist_state) :
  checklist_inv st -> Forall checklist_system (flush st).
Proof.
  intros (Hi & Hs & Hn & _ & Hd). unfold flush, has_system_with_tasks.
  destruct (current_system st) as [[|c n]|]; try exact Hi.
  destruct (current_tasks st) as [|t ts] eqn:E; [exact Hi|].
  apply Forall_app. split; [exact Hi|]. constructor; [|constructor].
  unfold checklist_system. simpl. repeat split; try tauto. discriminate.
Qed.

Lemma add_task_checklist (st : checklist_state) (description : pystr) :
  10 < List.length description -> checklist_inv st ->
  checklist_inv (add_task st description).
Proof.
  intros Hlen (Hi & Hs & Hn & Hk & Hd). unfold checklist_inv, add_task. simpl.
  repeat split; try tauto.
  - rewrite Hk. apply numbered_snoc. exact Hn.
  - rewrite length_app. simpl. lia.
  - apply Forall_app. split; [exact Hd|]. constructor; [exact Hlen|constructor].
Qed.

Lemma checklist_line_inv (st : checklist_state) (line : pystr) :
  checklist_inv st -> checklist_inv (checklist_line st line).
Proof.
  intros H. unfold checklist_line.
  destruct (strip line) as [|c l] eqn:El; [exact H|].
  destruct (existsb _ (firstn 2 checklist_patterns)).
  - destruct ((10 <? List.length (c :: l)) && (List.length (c :: l) <? 100)) eqn:E;
      [|exact H].
    apply andb_true_iff in E. destruct E as [E1 E2].
    apply Nat.ltb_lt in E1. apply Nat.ltb_lt in E2.
    unfold checklist_inv. cbn [inspections current_system current_tasks task_number].
    split; [apply flush_checklist; exact H|].
    split; [exists (c :: l); split; [reflexivity|lia]|].
    repeat split; constructor.
  - destruct (existsb _ (skipn 2 checklist_patterns)).
    + destruct ((15 <? List.length (c :: l)) && (List.length (c :: l) <? 200)) eqn:E;
        [|exact H].
      apply andb_true_iff in E. destruct E as [E1 _]. apply Nat.ltb_lt in E1.
      apply add_task_checklist; [lia|exact H].
    + destruct (rmatch no_flags numbered_item (c :: l)) as [m|]; [|exact H].
      destruct (10 <? List.length (group m 1)) eqn:E; [|exact H].
      apply Nat.ltb_lt in E. apply add_task_checklist; assumption.
Qed.

Lemma checklist_items_spec (text : pystr) :
  Forall checklist_system (extract_checklist_items text).
Proof.
  unfold extract_checklist_items. apply flush_checklist.
  assert (G : forall lines st, checklist_inv st ->
                checklist_inv (fold_left checklist_line lines st)).
  { induction lines as [|l lines IH]; intros st H; simpl; [exact H|].
    apply IH. apply checklist_line_inv. exact H. }
  apply G. unfold checklist_inv. simpl. repeat split; constructor.
Qed.


Lemma system_names_of_NoDup (matches : list mobj) : forall found,
  NoDup found -> NoDup (system_names_of matches found).
Proof.
  induction matches as [|m ms IH]; intros found H; simpl; [exact H|].
  match goal with
  | |- context [mem ?n found] => destruct (mem n found) eqn:E; [apply IH; exact H|];
                               set (name := n) in *
  end.
  apply mem_not_In in E. apply IH.
  apply NoDup_app; [exact H | repeat constructor; auto |].
  intros a Ha [Heq|[]]. subst a. contradiction.
Qed.

Lemma section_task_intro (n : Z) (d : pystr) :
  (10 <? List.length d) && (List.length d <? 100)
  && negb (existsb (fun skip => contains skip (lower d)) skip_words) = true ->
  section_task (mk_task n d).
Proof.
  intros E. apply andb_true_iff in E. destruct E as [E Hskip].
  apply andb_true_iff in E. destruct E as [E1 E2].
  apply Nat.ltb_lt in E1. apply Nat.ltb_lt in E2. apply negb_true_iff in Hskip.
  unfold section_task. cbn [mk_task Task.number Task.description].
  split; [discriminate|]. split; [lia|].
  intros skip Hin. destruct (contains skip (lower d)) eqn:Ec; [|reflexivity].
  exfalso. apply Bool.not_true_iff_false in Hskip. apply Hskip.
  apply existsb_exists. exists skip. split; assumption.
Qed.

Lemma section_tasks_spec (ngroups : nat) (matches : list mobj) : forall tasks tasks',
  Forall section_task tasks ->
  section_tasks ngroups matches tasks = inr tasks' -> Forall section_task tasks'.
Proof.
  induction matches as [|m ms IH]; intros tasks tasks' H; cbn [section_tasks].
  { intros E. injection E as <-. exact H. }
  destruct (task_of_match (groups ngroups m) tasks) as [e|[task_desc task_num]];
    [discriminate|].
  cbv zeta.
  match goal with
  | |- (if ?c then _ else _) = _ -> _ => destruct c eqn:E
  end; [|apply IH; exact H].
  apply IH. apply Forall_app. split; [exact H|]. constructor; [|constructor].
  apply section_task_intro. exact E.
Qed.

Lemma insert_by_sorted {A : Type} (key : A -> Z) (x : A) (l : list A) :
  StronglySorted (fun a b => (key a <= key b)%Z) l ->
  StronglySorted (fun a b => (key a <= key b)%Z) (insert_by key x l).
Proof.
  induction 1 as [|y l Hl IH Hy]; simpl; [repeat constructor|].
  destruct (key y <? key x)%Z eqn:E.
  - apply Z.ltb_lt in E. constructor; [exact IH|].
    rewrite Forall_forall in *. intros z Hz.
    apply (Permutation_in _ (insert_by_perm key x l)) in Hz.
    destruct Hz as [<-|Hz]; [lia | apply Hy; exact Hz].
  - apply Z.ltb_ge in E. constructor; [constructor; assumption|].
    constructor; [exact E|]. rewrite Forall_forall in *. intros z Hz.
    specialize (Hy z Hz). lia.
Qed.

Lemma sort_by_sorted {A : Type} (key : A -> Z) (l : list A) :
  StronglySorted (fun a b => (key a <= key b)%Z) (sort_by key l).
Proof.
  induction l as [|x l IH]; [constructor|].
  unfold sort_by in *. simpl. apply insert_by_sorted. exact IH.
Qed.

Lemma unique_tasks_incl (tasks : list Task.t) : forall seen t,
  In t (unique_tasks tasks seen) -> In t tasks /\ ~ In (Task.description t) seen.
Proof.
  induction tasks as [|t0 ts IH]; intros seen t; simpl; [intros []|].
  destruct (mem (Task.description t0) seen) eqn:E.
  - intros H. destruct (IH seen t H). auto.
  - apply mem_not_In in E. intros [<-|H]; [auto|].
    destruct (IH _ t H) as [H1 H2]. split; [auto|].
    intros Hin. apply H2. right. exact Hin.
Qed.

Lemma unique_tasks_NoDup (tasks : list Task.t) : forall seen,
  NoDup (map Task.description (unique_tasks tasks seen)).
Proof.
  induction tasks as [|t0 ts IH]; intros seen; simpl; [constructor|].
  destruct (mem (Task.description t0) seen); [apply IH|].
  simpl. constructor; [|apply IH].
  intros Hin. apply in_map_iff in Hin. destruct Hin as (t & Hd & Hin).
  apply unique_tasks_incl in Hin. destruct Hin as [_ Hin]. apply Hin.
  left. symmetry. exact Hd.
Qed.

Lemma unique_tasks_sorted (tasks : list Task.t) : forall seen,
  ascending tasks -> ascending (unique_tasks tasks seen).
Proof.
  unfold ascending.
  induction tasks as [|t0 ts IH]; intros seen H; simpl; [constructor|].
  inversion H as [|? ? Hs Hall]; subst.
  destruct (mem (Task.description t0) seen); [apply IH; exact Hs|].
  constructor; [apply IH; exact Hs|].
  rewrite Forall_forall in *. intros t Hin. apply unique_tasks_incl in Hin.
  apply Hall. tauto.
Qed.

Lemma sorted_firstn {A : Type} (R : A -> A -> Prop) (n : nat) (l : list A) :
  StronglySorted R l -> StronglySorted R (firstn n l).
Proof.
  revert l. induction n as [|n IH]; intros l H; simpl; [constructor|].
  destruct H as [|x l Hs Hall]; [constructor|].
  constructor; [apply IH; exact Hs | apply Forall_firstn; exact Hall].
Qed.

Lemma tasks_of_section_spec (text : pystr) (system_names : list pystr)
    (i : nat) (system_name : pystr) (tasks : list Task.t) :
  tasks_of_section text system_names i system_name = inr tasks ->
  List.length tasks <= 10 /\
  NoDup (map Task.description tasks) /\
  ascending tasks /\
  Forall section_task tasks.
Proof.
  unfold tasks_of_section.
  destruct (find (lower text) (lower system_name) 0 =? -1)%Z.
  { intros E. injection E as <-. simpl. repeat split; try constructor. lia. }
  destruct (for_each _ section_task_patterns []) as [e|all] eqn:E; [discriminate|].
  intros H. apply inr_eq in H. subst tasks.
  assert (Hall : Forall section_task all).
  { revert E. apply for_each_inv; [|constructor].
    intros st pn st' _ Hst. apply section_tasks_spec. exact Hst. }
  split; [apply firstn_le_length|]. split; [|split].
  - rewrite <- firstn_map. apply NoDup_firstn. apply unique_tasks_NoDup.
  - apply sorted_firstn. apply unique_tasks_sorted. apply sort_by_sorted.
  - apply Forall_firstn. rewrite Forall_forall in *. intros t Hin.
    apply unique_tasks_incl in Hin. destruct Hin as [Hin _].
    apply Hall. eapply Permutation_in; [apply sort_by_perm|exact Hin].
Qed.

Lemma enumerate_from_snd {A : Type} (l : list A) : forall i,
  map snd (enumerate_from i l) = l.
Proof. induction l as [|x l IH]; intros i; simpl; [reflexivity|]. rewrite IH. reflexivity. Qed.

(** [found_systems] has one entry per system name, in order, each with the
    tasks of a section. *)
Lemma found_systems_spec (text : pystr) (system_names : list pystr)
    (found : list (pystr * list Task.t)) :
  found_systems text system_names = inr found ->
  map fst found = system_names /\
  Forall (fun nt => exists i,
            tasks_of_section text system_names i (fst nt) = inr (snd nt)) found.
Proof.
  unfold found_systems.
  assert (G : forall l st st',
    for_each (fun found_systems (ix : nat * pystr) =>
                match tasks_of_section text system_names (fst ix) (snd ix) with
                | inl e => inl e
                | inr tasks => inr (found_systems ++ [(snd ix, tasks)])
                end) l st = inr st' ->
    map fst st' = map fst st ++ map snd l /\
    (Forall (fun nt => exists i,
               tasks_of_section text system_names i (fst nt) = inr (snd nt)) st ->
     Forall (fun nt => exists i,
               tasks_of_section text system_names i (fst nt) = inr (snd nt)) st')).
  { induction l as [|ix l IH]; intros st st'; cbn [for_each].
    - intros E. injection E as <-. rewrite app_nil_r. auto.
    - destruct (tasks_of_section text system_names (fst ix) (snd ix)) as [e|tasks] eqn:Et;
        [discriminate|].
      intros E. apply IH in E. destruct E as [Hk Hq]. split.
      + rewrite Hk, map_app, <- app_assoc. reflexivity.
      + intros Hst. apply Hq. apply Forall_app. split; [exact Hst|].
        constructor; [|constructor]. exists (fst ix). exact Et. }
  intros E. apply G in E. destruct E as [Hk Hq]. split.
  - rewrite Hk. simpl. apply enumerate_from_snd.
  - apply Hq. constructor.
Qed.

Lemma system_checklist_spec (text : pystr) (systems : list Inspection.t) :
  extract_system_checklist_patterns text = inr systems ->
  NoDup (map Inspection.name systems) /\
  Forall (fun s =>
            (exists title,
               Inspection.name s = title ++ lit "-Inspection Checklist" /\
               Inspection.description s = Some (lit "Inspection checklist for " ++ title)) /\
            1 <= List.length (Inspection.tasks s) <= 10 /\
            ascending (Inspection.tasks s) /\
            NoDup (map Task.description (Inspection.tasks s)) /\
            Forall section_task (Inspection.tasks s))
         systems.
Proof.
  unfold extract_system_checklist_patterns.
  set (system_names := system_names_of (finditer ignore_case any_system_pattern text) []).
  assert (Hnd : NoDup system_names).
  { apply system_names_of_NoDup. constructor. }
  destruct (found_systems text system_names) as [e|found] eqn:Ef; [discriminate|].
  intros H. apply inr_eq in H. subst systems.
  apply found_systems_spec in Ef. destruct Ef as [Hkeys Hsec].
  assert (Hspec : Forall (fun nt =>
            List.length (snd nt) <= 10 /\ NoDup (map Task.description (snd nt)) /\
            ascending (snd nt) /\ Forall section_task (snd nt)) found).
  { eapply Forall_impl; [|exact Hsec]. intros nt (i & Hi).
    eapply tasks_of_section_spec. exact Hi. }
  rewrite <- Hkeys in Hnd. clear Hsec. clearbody system_names. clear system_names Hkeys.
  match goal with
  | |- context [flat_map ?g found] => set (G := g) in *
  end.
  assert (Hfrom : forall l s,
    In s (flat_map G l) ->
    exists nt, In nt l /\ snd nt <> [] /\
               s = {| Inspection.name := fst nt ++ lit "-Inspection Checklist";
                      Inspection.description :=
                        Some (lit "Inspection checklist for " ++ fst nt);
                      Inspection.tasks := snd nt |}).
  { intros l s Hin. apply in_flat_map in Hin. destruct Hin as (nt & Hnt & Hin).
    exists nt. unfold G in Hin. cbv beta in Hin.
    destruct nt as [n [|t ts]]; [contradiction|]. simpl in Hin.
    destruct Hin as [<-|[]]. repeat split; auto. discriminate. }
  split.
  - induction found as [|nt found IH]; [constructor|].
    cbn [flat_map]. rewrite map_app. cbn [map] in Hnd.
    inversion Hnd as [|? ? Hnotin Hnd']; subst.
    inversion Hspec as [|? ? _ Hspec']; subst.
    apply NoDup_app; [|apply IH; assumption|].
    + unfold G. cbv beta. destruct nt as [n [|t ts]]; simpl; [constructor|].
      constructor; [intros []|constructor].
    + intros a Ha Hb. apply in_map_iff in Ha. destruct Ha as (s & Hname & Hin).
      assert (Hin1 : In s (flat_map G [nt])) by (cbn [flat_map]; rewrite app_nil_r; exact Hin).
      apply Hfrom in Hin1. clear Hin. rename Hin1 into Hin.
      destruct Hin as (nt0 & [<-|[]] & _ & ->).
      apply in_map_iff in Hb. destruct Hb as (s' & Hname' & Hin').
      apply Hfrom in Hin'. destruct Hin' as (nt' & Hnt' & _ & ->).
      cbn [Inspection.name] in *. subst a. apply app_inv_tail in Hname'.
      apply Hnotin. pose proof (in_map fst _ _ Hnt') as Hk.
      unfold pystr in *. rewrite Hname' in Hk. exact Hk.
  - apply Forall_forall. intros s Hin. apply Hfrom in Hin.
    destruct Hin as (nt & Hnt & Hne & ->). cbn [Inspection.name Inspection.description
                                                Inspection.tasks].
    rewrite Forall_forall in Hspec. destruct (Hspec nt Hnt) as (H1 & H2 & H3 & H4).
    split; [eexists; split; reflexivity|].
    split; [|tauto]. split; [|exact H1].
    destruct (snd nt); [congruence|simpl; lia].
Qed.



Lemma fallback_tasks_spec (numbered_items : list (pystr * pystr)) : forall i,
  exists ks,
    numbered_at ks (fallback_tasks i numbered_items) /\
    StronglySorted lt ks /\
    Forall (fun k => i <= k < i + List.length numbered_items) ks /\
    Forall (fun t => 5 < List.length (Task.description t) /\
                     no_outer_space (Task.description t))
           (fallback_tasks i numbered_items).
Proof.
  unfold numbered_at.
  induction numbered_items as [|[num desc] items IH]; intros i; simpl.
  - exists []. repeat split; constructor.
  - destruct (IH (S i)) as (ks & Hn & Hs & Hb & Hd).
    destruct (5 <? List.length (strip desc)) eqn:E.
    + apply Nat.ltb_lt in E. exists (i :: ks). simpl. rewrite Hn.
      split; [reflexivity|]. split; [|split].
      * constructor; [exact Hs|]. eapply Forall_impl; [|exact Hb].
        intros k Hk. simpl in Hk. lia.
      * constructor; [lia|]. eapply Forall_impl; [|exact Hb].
        intros k Hk. simpl in Hk. lia.
      * constructor; [|exact Hd]. split; [exact E | apply strip_no_outer_space].
    + exists ks. split; [exact Hn|]. split; [exact Hs|]. split; [|exact Hd].
      eapply Forall_impl; [|exact Hb]. intros k Hk. simpl in Hk. lia.
Qed.

(** X15. [create_fallback_systems] always returns exactly one system, named
    "General Inspection Checklist", with one to fifteen tasks.  Each
    description is trimmed and has more than five characters.  The numbers
    increase strictly and lie between 1 and 15: a task taken from the text
    is numbered by the position of its line among the numbered lines, so a
    line that is passed over leaves a gap. *)
Theorem fallback_systems_shape (text : pystr) :
  exists tasks ks,
    create_fallback_systems text
    = [mk_system "General Inspection Checklist" tasks] /\
    1 <= List.length tasks <= 15 /\
    numbered_at ks tasks /\
    StronglySorted lt ks /\
    Forall (fun k => 1 <= k <= 15) ks /\
    Forall (fun t => 5 < List.length (Task.description t) /\
                     no_outer_space (Task.description t)) tasks.
Proof.
  unfold create_fallback_systems.
  set (items := map (fun m => (group m 1, group m 2))
                    (finditer multi_line numbered_line text)).
  assert (Hbasic : exists tasks ks,
    [mk_system "General Inspection Checklist" basic_tasks]
    = [mk_system "General Inspection Checklist" tasks] /\
    1 <= List.length tasks <= 15 /\
    numbered_at ks tasks /\
    StronglySorted lt ks /\
    Forall (fun k => 1 <= k <= 15) ks /\
    Forall (fun t => 5 < List.length (Task.description t) /\
                     no_outer_space (Task.description t)) tasks).
  { exists basic_tasks, [1; 2; 3; 4; 5]. split; [reflexivity|].
    split; [simpl; lia|]. split; [reflexivity|].
    split; [repeat constructor|]. split; [repeat constructor|].
    repeat constructor; vm_compute; lia. }
  destruct items as [|it items'] eqn:Ei; [exact Hbasic|]. rewrite <- Ei.
  destruct (fallback_tasks_spec (firstn 15 items) 1) as (ks & Hn & Hs & Hb & Hd).
  destruct (fallback_tasks 1 (firstn 15 items)) as [|t ts] eqn:Et; [exact Hbasic|].
  exists (t :: ts), ks. split; [reflexivity|].
  assert (Hlen15 : List.length (firstn 15 items) <= 15) by apply firstn_le_length.
  assert (Hks : List.length (t :: ts) = List.length ks).
  { unfold numbered_at in Hn. apply (f_equal (@List.length _)) in Hn.
    rewrite !length_map in Hn. exact Hn. }
  assert (Hb' : Forall (fun k => 1 <= k <= 15) ks).
  { eapply Forall_impl; [|exact Hb]. intros k Hk. cbv beta in Hk. lia. }
  split; [|repeat split; assumption].
  split; [simpl; lia|]. rewrite Hks.
  clear -Hs Hb'.
  assert (G : forall n ks, StronglySorted lt ks -> Forall (fun k => n <= k <= 15) ks ->
                           List.length ks <= 16 - n).
  { intros n ks0. revert n.
    induction ks0 as [|k ks0 IH]; intros n Hs0 Hb0; cbn [List.length]; [lia|].
    inversion Hs0 as [|? ? Hs1 Hlt]; subst. inversion Hb0 as [|? ? Hk Hb1]; subst.
    assert (Hnext : Forall (fun k' => S k <= k' <= 15) ks0).
    { rewrite Forall_forall in *. intros k' Hin.
      specialize (Hlt k' Hin). specialize (Hb1 k' Hin). lia. }
    specialize (IH (S k) Hs1 Hnext). lia. }
  specialize (G 1 ks Hs Hb'). lia.
Qed.

(** * More about the persistence *)

Lemma find_app_Some {A : Type} (f : A -> bool) (l l' : list A) :
  List.find f l <> None -> List.find f (l ++ l') = List.find f l.
Proof.
  induction l as [|x l IH]; simpl; [congruence|].
  destruct (f x); [reflexivity|exact IH].
Qed.

Lemma find_app_None {A : Type} (f : A -> bool) (l l' : list A) :
  List.find f l = None -> List.find f (l ++ l') = List.find f l'.
Proof.
  induction l as [|x l IH]; simpl; [reflexivity|].
  destruct (f x); [discriminate|exact IH].
Qed.

Lemma filter_filter {A : Type} (f : A -> bool) (l : list A) :
  filter f (filter f l) = filter f l.
Proof.
  induction l as [|x l IH]; simpl; [reflexivity|].
  destruct (f x) eqn:E; simpl; [rewrite E, IH|]; auto.
Qed.

(** The loop over the tasks writes the rows of a front part of the list,
    all of it when nothing is raised. *)
Lemma create_tasks_rows (w : World.t) (system : nat) (tasks : list Task.t) :
  forall db r db',
    create_tasks w system tasks db = (r, db') ->
    exists written rest,
      tasks = written ++ rest /\
      inspection_pdfs db' = inspection_pdfs db /\
      inspection_systems db' = inspection_systems db /\
      checklist_tasks db' = checklist_tasks db ++ map (task_row system) written /\
      (r = None -> rest = []).
Proof.
  induction tasks as [|task tasks IH]; intros db r db'; cbn [create_tasks].
  - intros E. injection E as <- <-. exists [], []. simpl. rewrite app_nil_r.
    repeat split; auto.
  - destruct (World.db_raises w _) as [e|].
    + intros E. injection E as <- <-. exists [], (task :: tasks).
      simpl. rewrite app_nil_r. repeat split; auto. discriminate.
    + intros E. apply IH in E. destruct E as (written & rest & -> & Hp & Hs & Ht & Hr).
      exists (task :: written), rest. cbn [add_task_row inspection_pdfs inspection_systems
                                           checklist_tasks] in *.
      rewrite Ht, <- app_assoc. repeat split; auto.
Qed.

(** One round of the loop either writes nothing (the lookup raises, the
    system is found, or the creation of the system raises), or appends one
    system of the document and the rows of a front part of its tasks. *)
Lemma store_inspection_cases (w : World.t) (pdf : nat) (db : database)
    (inspection : Inspection.t) (r : option World.exn) (db' : database) :
  store_inspection w pdf db inspection = (r, db') ->
  (db' = db /\
   (r = None ->
    World.db_raises w (World.first_system (Inspection.name inspection) pdf) = None /\
    existing_system db (Inspection.name inspection) pdf <> None)) \/
  (existing_system db (Inspection.name inspection) pdf = None /\
   exists system written rest,
     InspectionSystem.id system
     = S (list_max (map InspectionSystem.id (inspection_systems db))) /\
     InspectionSystem.name system = Inspection.name inspection /\
     InspectionSystem.pdf system = pdf /\
     inspection_pdfs db' = inspection_pdfs db /\
     inspection_systems db' = inspection_systems db ++ [system] /\
     checklist_tasks db'
     = checklist_tasks db ++ map (task_row (InspectionSystem.id system)) written /\
     Inspection.tasks inspection = written ++ rest /\
     (r = None ->
      rest = [] /\
      World.db_raises w (World.first_system (Inspection.name inspection) pdf) = None)).
Proof.
  unfold store_inspection. cbv zeta.
  destruct (World.db_raises w (World.first_system _ _)) as [e|] eqn:E1.
  { intros E. injection E as <- <-. left. split; [reflexivity|discriminate]. }
  destruct (existing_system db (Inspection.name inspection) pdf) eqn:E2.
  { intros E. injection E as <- <-. left. split; [reflexivity|].
    intros _. split; [reflexivity|discriminate]. }
  destruct (World.db_raises w (World.create_system _ _)) as [e|] eqn:E3.
  { intros E. injection E as <- <-. left. split; [reflexivity|discriminate]. }
  unfold add_system. intros E. apply create_tasks_rows in E.
  destruct E as (written & rest & Htasks & Hp & Hs & Ht & Hr).
  right. split; [reflexivity|].
  exists {| InspectionSystem.id :=
              S (list_max (map InspectionSystem.id (inspection_systems db)));
            InspectionSystem.name := Inspection.name inspection;
            InspectionSystem.pdf := pdf |}, written, rest.
  cbn [inspection_pdfs inspection_systems checklist_tasks InspectionSystem.id
       InspectionSystem.name InspectionSystem.pdf] in *.
  repeat split; auto.
Qed.

Lemma existing_system_refl (system : InspectionSystem.t) (systems : list InspectionSystem.t) :
  List.find (fun s => PyStr.eqb (InspectionSystem.name s) (InspectionSystem.name system)
                      && (InspectionSystem.pdf s =? InspectionSystem.pdf system))
            (systems ++ [system]) <> None.
Proof.
  induction systems as [|s l IH]; simpl.
  - rewrite pystr_eqb_refl, Nat.eqb_refl. discriminate.
  - destruct (_ && _); [discriminate|exact IH].
Qed.

Lemma store_keeps_existing (w : World.t) (pdf : nat) (db : database)
    (inspection : Inspection.t) (r : option World.exn) (db' : database) (n : pystr)
    (p : nat) :
  store_inspection w pdf db inspection = (r, db') ->
  existing_system db n p <> None -> existing_system db' n p <> None.
Proof.
  intros E H.
  destruct (@store_inspection_cases _ _ _ _ _ _ E)
    as [[-> _]|(_ & system & written & rest & _ & _ & _ & _ & Hs & _)]; [exact H|].
  unfold existing_system in *. rewrite Hs, find_app_Some; assumption.
Qed.

(** A round that raises nothing could look the system up, and leaves the
    system behind. *)
Lemma store_makes_existing (w : World.t) (pdf : nat) (db : database)
    (inspection : Inspection.t) (db' : database) :
  store_inspection w pdf db inspection = (None, db') ->
  World.db_raises w (World.first_system (Inspection.name inspection) pdf) = None /\
  existing_system db' (Inspection.name inspection) pdf <> None.
Proof.
  intros E.
  destruct (@store_inspection_cases _ _ _ _ _ _ E)
    as [[-> H]|(_ & system & written & rest & _ & Hn & Hp & _ & Hs & _ & _ & H)].
  - apply H. reflexivity.
  - split; [apply H; reflexivity|].
    unfold existing_system. rewrite Hs, <- Hn, <- Hp. apply existing_system_refl.
Qed.

Lemma store_inspections_keeps_existing (w : World.t) (pdf : nat)
    (l : list Inspection.t) : forall db r db' n p,
  store_inspections w pdf l db = (r, db') ->
  existing_system db n p <> None -> existing_system db' n p <> None.
Proof.
  induction l as [|i l IH]; intros db r db' n p; cbn [store_inspections].
  - intros E. injection E as <- <-. auto.
  - destruct (store_inspection w pdf db i) as [[e|] db1] eqn:E1.
    + intros E. injection E as <- <-. eapply store_keeps_existing; eassumption.
    + intros E H. eapply IH; [exact E|]. eapply store_keeps_existing; eassumption.
Qed.

(** What a later run needs of a system to skip it. *)
Lemma store_inspections_existing (w : World.t) (pdf : nat) (l : list Inspection.t) :
  forall db db',
    store_inspections w pdf l db = (None, db') ->
    Forall (fun i =>
              World.db_raises w (World.first_system (Inspection.name i) pdf) = None /\
              existing_system db' (Inspection.name i) pdf <> None) l.
Proof.
  induction l as [|i l IH]; intros db db'; cbn [store_inspections]; [constructor|].
  destruct (store_inspection w pdf db i) as [[e|] db1] eqn:E1; [discriminate|].
  intros E. constructor; [|eapply IH; exact E].
  destruct (@store_makes_existing _ _ _ _ _ E1) as [H1 H2].
  split; [exact H1|]. eapply store_inspections_keeps_existing; eassumption.
Qed.

Lemma store_inspections_fixed (w : World.t) (pdf : nat) (l : list Inspection.t)
    (db : database) :
  Forall (fun i =>
            World.db_raises w (World.first_system (Inspection.name i) pdf) = None /\
            existing_system db (Inspection.name i) pdf <> None) l ->
  store_inspections w pdf l db = (None, db).
Proof.
  induction 1 as [|i l [H1 H2] _ IH]; cbn [store_inspections]; [reflexivity|].
  unfold store_inspection. cbv zeta. rewrite H1.
  destruct (existing_system db (Inspection.name i) pdf); [exact IH|congruence].
Qed.

Lemma create_tasks_save (w : World.t) (p : InspectionPDF.t) (system : nat)
    (tasks : list Task.t) : forall db,
  create_tasks w system tasks (save p db)
  = (fst (create_tasks w system tasks db), save p (snd (create_tasks w system tasks db))).
Proof.
  induction tasks as [|task tasks IH]; intros db; cbn [create_tasks]; [reflexivity|].
  destruct (World.db_raises w _); [reflexivity|].
  rewrite <- IH. reflexivity.
Qed.

Lemma store_save (w : World.t) (pdf : nat) (p : InspectionPDF.t) (db : database)
    (i : Inspection.t) :
  store_inspection w pdf (save p db) i
  = (fst (store_inspection w pdf db i), save p (snd (store_inspection w pdf db i))).
Proof.
  unfold store_inspection, existing_system. cbv zeta.
  destruct (World.db_raises w (World.first_system _ _)); [reflexivity|].
  cbn [save inspection_systems].
  destruct (List.find _ (inspection_systems db)); [reflexivity|].
  destruct (World.db_raises w (World.create_system _ _)); [reflexivity|].
  unfold add_system. cbn [save inspection_pdfs inspection_systems checklist_tasks].
  rewrite <- create_tasks_save. reflexivity.
Qed.

Lemma store_inspections_save (w : World.t) (pdf : nat) (p : InspectionPDF.t)
    (l : list Inspection.t) : forall db,
  store_inspections w pdf l (save p db)
  = (fst (store_inspections w pdf l db), save p (snd (store_inspections w pdf l db))).
Proof.
  induction l as [|i l IH]; intros db; cbn [store_inspections]; [reflexivity|].
  rewrite store_save.
  destruct (store_inspection w pdf db i) as [[e|] db1]; cbn [fst snd]; [reflexivity|].
  apply IH.
Qed.

Lemma save_save (p : InspectionPDF.t) (db : database) : save p (save p db) = save p db.
Proof.
  unfold save. simpl. rewrite Nat.eqb_refl. simpl. rewrite filter_filter. reflexivity.
Qed.

(** The two ways a run ends. *)
Lemma process_inspection_pdf_ends
    (w : World.t) (inspection_pdf : InspectionPDF.t) (db : database) :
  (fst (try_block w inspection_pdf db) = None /\
   process_inspection_pdf w inspection_pdf db
   = (true, set_processed inspection_pdf,
      save (set_processed inspection_pdf) (snd (try_block w inspection_pdf db)))) \/
  (exists e,
     fst (try_block w inspection_pdf db) = Some e /\
     process_inspection_pdf w inspection_pdf db
     = record_error e inspection_pdf (snd (try_block w inspection_pdf db))).
Proof.
  unfold process_inspection_pdf.
  destruct (try_block w inspection_pdf db) as [[e|] db1]; cbn [fst snd]; eauto.
Qed.

(** A run that answers [True] has extracted the systems and stored them
    without an exception. *)
Lemma process_inspection_pdf_true
    (w : World.t) (inspection_pdf : InspectionPDF.t) (db : database) :
  fst (fst (process_inspection_pdf w inspection_pdf db)) = true ->
  exists inspections db1,
    extract_inspections_from_pdf w
      (path_join (World.MEDIA_ROOT w) (InspectionPDF.file_name inspection_pdf))
    = inr inspections /\
    store_inspections w (InspectionPDF.id inspection_pdf) inspections db = (None, db1) /\
    process_inspection_pdf w inspection_pdf db
    = (true, set_processed inspection_pdf, save (set_processed inspection_pdf) db1).
Proof.
  destruct (process_inspection_pdf_ends w inspection_pdf db) as [[Ht ->]|(e & _ & ->)];
    [|discriminate].
  intros _. revert Ht. unfold try_block. cbv zeta.
  destruct (extract_inspections_from_pdf w _) as [e|inspections]; [discriminate|].
  destruct (store_inspections w _ inspections db) as [r db1] eqn:Es. cbn [fst snd].
  intros ->. exists inspections, db1. repeat split. exact Es.
Qed.

Lemma process_inspection_pdf_again
    (w : World.t) (inspection_pdf : InspectionPDF.t) (db : database) :
  fst (fst (process_inspection_pdf w inspection_pdf db)) = true \/
  (exists e, extract_inspections_from_pdf w
               (path_join (World.MEDIA_ROOT w) (InspectionPDF.file_name inspection_pdf))
             = inl e) ->
  process_inspection_pdf w
    (snd (fst (process_inspection_pdf w inspection_pdf db)))
    (snd (process_inspection_pdf w inspection_pdf db))
  = process_inspection_pdf w inspection_pdf db.
Proof.
  intros [H|(e & He)].
  - apply process_inspection_pdf_true in H.
    destruct H as (inspections & db1 & He & Hs & ->). cbn [fst snd].
    unfold process_inspection_pdf, try_block. cbv zeta.
    cbn [set_processed InspectionPDF.file_name InspectionPDF.id]. rewrite He.
    rewrite store_inspections_save.
    rewrite (@store_inspections_fixed w (InspectionPDF.id inspection_pdf)
               inspections db1)
      by (eapply store_inspections_existing; exact Hs).
    cbn [fst snd]. unfold set_processed at 1 3.
    cbn [InspectionPDF.file_name InspectionPDF.id InspectionPDF.processed
         InspectionPDF.processing_errors].
    f_equal. apply save_save.
  - unfold process_inspection_pdf, try_block. cbv zeta. rewrite He.
    unfold record_error. cbv zeta. cbn [fst snd].
    cbn [set_processing_errors InspectionPDF.file_name]. rewrite He.
    unfold set_processing_errors.
    cbn [InspectionPDF.file_name InspectionPDF.id InspectionPDF.processed
         InspectionPDF.processing_errors].
    f_equal. apply save_save.
Qed.

(** X16. Processing a document again, with the same file and the same
    answers of the outside world, changes nothing when the first run
    answered [True], and when its extraction raised: the second run
    returns what the first returned and leaves the record and every table
    as the first run left them.  No system is stored twice, and the tasks
    of a system that exists are not written again. *)
Theorem processing_again_changes_nothing
    (w : World.t) (inspection_pdf : InspectionPDF.t) (db : database) :
  let run := process_inspection_pdf w inspection_pdf db in
  fst (fst run) = true \/
  (exists e, extract_inspections_from_pdf w
               (path_join (World.MEDIA_ROOT w) (InspectionPDF.file_name inspection_pdf))
             = inl e) ->
  process_inspection_pdf w (snd (fst run)) (snd run) = run.
Proof. exact (process_inspection_pdf_again w inspection_pdf db). Qed.

Lemma processing_again_witness :
  let run := process_inspection_pdf (offline [two_scrapers]) report_pdf empty_database in
  fst (fst run) = true /\
  process_inspection_pdf (offline [two_scrapers]) (snd (fst run)) (snd run) = run.
Proof.
  cbv zeta. split; [vm_compute; reflexivity|].
  apply (@processing_again_changes_nothing (offline [two_scrapers]) report_pdf
           empty_database).
  left. vm_compute. reflexivity.
Defined.

Lemma store_inspections_appends (w : World.t) (pdf : nat) (l : list Inspection.t) :
  forall db r db',
    store_inspections w pdf l db = (r, db') ->
    exists new_systems new_tasks,
      inspection_pdfs db' = inspection_pdfs db /\
      inspection_systems db' = inspection_systems db ++ new_systems /\
      checklist_tasks db' = checklist_tasks db ++ new_tasks /\
      Forall (fun s => InspectionSystem.pdf s = pdf /\
                       In (InspectionSystem.name s) (map Inspection.name l)) new_systems /\
      Forall (fun t => In (ChecklistTask.system t) (map InspectionSystem.id new_systems))
             new_tasks.
Proof.
  assert (Hnone : forall db : database,
    exists new_systems new_tasks,
      inspection_pdfs db = inspection_pdfs db /\
      inspection_systems db = inspection_systems db ++ new_systems /\
      checklist_tasks db = checklist_tasks db ++ new_tasks /\
      new_systems = [] /\ new_tasks = []).
  { intros db. exists [], []. rewrite !app_nil_r. auto. }
  assert (Hone : forall db i r db1,
    store_inspection w pdf db i = (r, db1) ->
    exists new_systems new_tasks,
      inspection_pdfs db1 = inspection_pdfs db /\
      inspection_systems db1 = inspection_systems db ++ new_systems /\
      checklist_tasks db1 = checklist_tasks db ++ new_tasks /\
      Forall (fun s => InspectionSystem.pdf s = pdf /\
                       InspectionSystem.name s = Inspection.name i) new_systems /\
      Forall (fun t => In (ChecklistTask.system t) (map InspectionSystem.id new_systems))
             new_tasks).
  { intros db i r db1 E.
    destruct (@store_inspection_cases _ _ _ _ _ _ E)
      as [[-> _]|(_ & system & written & rest & _ & Hn & Hp & Hp1 & Hs1 & Ht1 & _)].
    - destruct (Hnone db) as (ns & nt & H1 & H2 & H3 & -> & ->).
      exists [], []. repeat split; auto.
    - exists [system], (map (task_row (InspectionSystem.id system)) written).
      repeat split; auto.
      apply Forall_map. apply Forall_forall. intros t _. left. reflexivity. }
  induction l as [|i l IH]; intros db r db'; cbn [store_inspections].
  - intros E. injection E as <- <-.
    destruct (Hnone db) as (ns & nt & H1 & H2 & H3 & -> & ->).
    exists [], []. repeat split; auto.
  - destruct (store_inspection w pdf db i) as [r1 db1] eqn:E1.
    destruct (Hone _ _ _ _ E1) as (ns1 & nt1 & Hp1 & Hs1 & Ht1 & Hns1 & Hnt1).
    assert (Hns1' : Forall (fun s => InspectionSystem.pdf s = pdf /\
                       In (InspectionSystem.name s) (map Inspection.name (i :: l))) ns1).
    { eapply Forall_impl; [|exact Hns1]. intros s [H1 H2].
      split; [exact H1 | left; symmetry; exact H2]. }
    destruct r1 as [e|].
    + intros E. injection E as <- <-. exists ns1, nt1. repeat split; auto.
    + intros E. destruct (IH _ _ _ E) as (ns & nt & Hp & Hs & Ht & Hns & Hnt).
      exists (ns1 ++ ns), (nt1 ++ nt).
      rewrite Hp, Hs, Ht, Hp1, Hs1, Ht1, <- !app_assoc.
      repeat split; auto.
      * apply Forall_app. split; [exact Hns1'|].
        eapply Forall_impl; [|exact Hns]. intros s [H1 H2].
        split; [exact H1 | right; exact H2].
      * rewrite map_app. apply Forall_app. split.
        -- eapply Forall_impl; [|exact Hnt1]. intros t Hin. apply in_or_app. left. exact Hin.
        -- eapply Forall_impl; [|exact Hnt]. intros t Hin. apply in_or_app. right. exact Hin.
Qed.

(** X17. A run only adds rows: the systems and the tasks that were stored
    stay as they are and in place, the systems added belong to the
    document and carry names that were extracted, the tasks added belong
    to the systems added, the records of the other documents are
    untouched, and nothing is added when the extraction raises. *)
Theorem processing_only_appends
    (w : World.t) (inspection_pdf : InspectionPDF.t) (db : database) :
  exists new_systems new_tasks,
    inspection_systems (snd (process_inspection_pdf w inspection_pdf db))
    = inspection_systems db ++ new_systems /\
    checklist_tasks (snd (process_inspection_pdf w inspection_pdf db))
    = checklist_tasks db ++ new_tasks /\
    Forall (fun s => InspectionSystem.pdf s = InspectionPDF.id inspection_pdf) new_systems /\
    Forall (fun t => In (ChecklistTask.system t) (map InspectionSystem.id new_systems))
           new_tasks /\
    (forall p, In p (inspection_pdfs db) ->
               InspectionPDF.id p <> InspectionPDF.id inspection_pdf ->
               In p (inspection_pdfs (snd (process_inspection_pdf w inspection_pdf db)))) /\
    match extract_inspections_from_pdf w
            (path_join (World.MEDIA_ROOT w) (InspectionPDF.file_name inspection_pdf)) with
    | inr inspections =>
        Forall (fun s => In (InspectionSystem.name s) (map Inspection.name inspections))
               new_systems
    | inl _ => new_systems = [] /\ new_tasks = []
    end.
Proof.
  assert (Hother : forall (q : InspectionPDF.t) (d : database) p,
            InspectionPDF.id q = InspectionPDF.id inspection_pdf ->
            In p (inspection_pdfs d) ->
            InspectionPDF.id p <> InspectionPDF.id inspection_pdf ->
            In p (inspection_pdfs (save q d))).
  { intros q d p Hq Hin Hne. unfold save. simpl. right. apply filter_In.
    split; [exact Hin|]. apply negb_true_iff. apply Nat.eqb_neq. congruence. }
  assert (Hsaved : forall r (q : InspectionPDF.t) (d : database),
            InspectionPDF.id q = InspectionPDF.id inspection_pdf ->
            exists ok p1,
              InspectionPDF.id p1 = InspectionPDF.id inspection_pdf /\
              match r with
              | None => (true, set_processed q, save (set_processed q) d)
              | Some e => record_error e q d
              end = (ok, p1, save p1 d)).
  { intros [e|] q d Hq; do 2 eexists; (split; [|reflexivity]); exact Hq. }
  unfold process_inspection_pdf, try_block. cbv zeta.
  destruct (extract_inspections_from_pdf w _) as [e|inspections].
  - exists [], []. cbn [snd record_error]. unfold save at 1 2.
    cbn [inspection_systems checklist_tasks]. rewrite !app_nil_r.
    split; [reflexivity|]. split; [reflexivity|]. split; [constructor|].
    split; [constructor|]. split; [|split; reflexivity].
    intros p Hin Hne. apply Hother; [reflexivity|exact Hin|exact Hne].
  - destruct (store_inspections w _ inspections db) as [r db1] eqn:Es.
    destruct (@store_inspections_appends _ _ _ _ _ _ Es)
      as (ns & nt & Hp & Hs & Ht & Hns & Hnt).
    exists ns, nt.
    assert (Hrun : exists ok p1,
              InspectionPDF.id p1 = InspectionPDF.id inspection_pdf /\
              match r with
              | None => (true, set_processed inspection_pdf,
                         save (set_processed inspection_pdf) db1)
              | Some e => record_error e inspection_pdf db1
              end = (ok, p1, save p1 db1))
      by (apply Hsaved; reflexivity).
    destruct Hrun as (ok & p1 & Hid & Hrun).
    replace (let (o, db) := (r, db1) in
             match o with
             | Some e => record_error e inspection_pdf db
             | None => (true, set_processed inspection_pdf,
                        save (set_processed inspection_pdf) db)
             end) with (ok, p1, save p1 db1)
      by (rewrite <- Hrun; destruct r; reflexivity).
    cbn [snd]. unfold save at 1 2. cbn [inspection_systems checklist_tasks].
    split; [exact Hs|]. split; [exact Ht|].
    split; [eapply Forall_impl; [|exact Hns]; intros s [H _]; exact H|].
    split; [exact Hnt|]. split.
    + intros p Hin Hne. apply Hother; [exact Hid| |exact Hne]. rewrite Hp. exact Hin.
    + eapply Forall_impl; [|exact Hns]. intros s [_ H]. exact H.
Qed.

Lemma existing_system_None (db : database) (n : pystr) (p : nat) :
  existing_system db n p = None <->
  ~ In (n, p) (map (fun s => (InspectionSystem.name s, InspectionSystem.pdf s))
                   (inspection_systems db)).
Proof.
  unfold existing_system. induction (inspection_systems db) as [|s l IH]; simpl.
  - tauto.
  - destruct (PyStr.eqb (InspectionSystem.name s) n && (InspectionSystem.pdf s =? p)) eqn:E.
    + apply andb_true_iff in E. destruct E as [E1 E2].
      apply pystr_eqb_eq in E1. apply Nat.eqb_eq in E2. subst.
      split; [discriminate|]. intros H. exfalso. apply H. left. reflexivity.
    + rewrite IH. split.
      * intros H [Heq|Hin]; [|tauto]. injection Heq as <- <-.
        rewrite pystr_eqb_refl, Nat.eqb_refl in E. discriminate.
      * intros H Hin. apply H. right. exact Hin.
Qed.

Lemma store_unique (w : World.t) (pdf : nat) (db : database) (i : Inspection.t)
    (r : option World.exn) (db' : database) :
  store_inspection w pdf db i = (r, db') -> unique_names db -> unique_names db'.
Proof.
  unfold unique_names. intros E H.
  destruct (@store_inspection_cases _ _ _ _ _ _ E)
    as [[-> _]|(Hnone & system & written & rest & _ & Hn & Hp & _ & Hs & _)]; [exact H|].
  rewrite Hs, map_app. apply NoDup_app; [exact H | repeat constructor; auto|].
  intros a Ha [Heq|[]]. subst a. rewrite Hn, Hp in Ha.
  apply existing_system_None in Hnone. contradiction.
Qed.

Lemma store_inspections_unique (w : World.t) (pdf : nat) (l : list Inspection.t) :
  forall db r db',
    store_inspections w pdf l db = (r, db') -> unique_names db -> unique_names db'.
Proof.
  induction l as [|i l IH]; intros db r db'; cbn [store_inspections].
  - intros E. injection E as <- <-. auto.
  - destruct (store_inspection w pdf db i) as [[e|] db1] eqn:E1.
    + intros E. injection E as <- <-. eapply store_unique; eassumption.
    + intros E H. eapply IH; [exact E|]. eapply store_unique; eassumption.
Qed.

(** X18. A run keeps the names of the systems of each document different
    from one another: when no two stored systems of one document had the
    same name before, none have afterwards. *)
Theorem processing_keeps_names_unique
    (w : World.t) (inspection_pdf : InspectionPDF.t) (db : database) :
  unique_names db ->
  unique_names (snd (process_inspection_pdf w inspection_pdf db)).
Proof.
  intros H.
  assert (Hdb : unique_names (snd (try_block w inspection_pdf db))).
  { unfold try_block. cbv zeta.
    destruct (extract_inspections_from_pdf w _) as [e|inspections]; [exact H|].
    destruct (store_inspections w _ inspections db) as [r db1] eqn:Es.
    eapply store_inspections_unique; eassumption. }
  destruct (process_inspection_pdf_ends w inspection_pdf db) as [[_ ->]|(e & _ & ->)];
    exact Hdb.
Qed.

Lemma processing_keeps_names_unique_witness :
  unique_names
    (snd (process_inspection_pdf (offline [repeated_heading]) report_pdf empty_database)).
Proof.
  apply processing_keeps_names_unique. constructor.
Defined.

Lemma list_max_bound (l : list nat) (x : nat) : In x l -> x <= list_max l.
Proof.
  intros H. pose proof (proj1 (list_max_le l (list_max l)) (Nat.le_refl _)) as Hall.
  rewrite Forall_forall in Hall. apply Hall. exact H.
Qed.

Lemma filter_none {A : Type} (f : A -> bool) (l : list A) :
  Forall (fun x => f x = false) l -> filter f l = [].
Proof.
  induction 1 as [|x l Hx _ IH]; simpl; [reflexivity|]. rewrite Hx. exact IH.
Qed.

Lemma find_none_all {A : Type} (f : A -> bool) (l : list A) :
  Forall (fun x => f x = false) l -> List.find f l = None.
Proof.
  induction 1 as [|x l Hx _ IH]; simpl; [reflexivity|]. rewrite Hx. exact IH.
Qed.

Lemma filter_all {A : Type} (f : A -> bool) (l : list A) :
  Forall (fun x => f x = true) l -> filter f l = l.
Proof.
  induction 1 as [|x l Hx _ IH]; simpl; [reflexivity|]. rewrite Hx, IH. reflexivity.
Qed.

(** Storing a system that is new to a document, without an exception, adds
    its row after the rows of the document and keeps the keys sound. *)
Lemma store_new_rows (w : World.t) (pdf : nat) (db : database) (i : Inspection.t)
    (db' : database) :
  well_formed db ->
  existing_system db (Inspection.name i) pdf = None ->
  store_inspection w pdf db i = (None, db') ->
  well_formed db' /\ rows_of db' pdf = rows_of db pdf ++ [stored i].
Proof.
  intros [Hids Hfk] Hnone E.
  destruct (@store_inspection_cases _ _ _ _ _ _ E)
    as [[_ H]|(_ & system & written & rest & Hid & Hn & Hp & _ & Hs & Ht & Htasks & Hr)].
  { destruct (H eq_refl) as [_ H']. congruence. }
  destruct (Hr eq_refl) as [-> _]. rewrite app_nil_r in Htasks. subst written.
  set (ids := map InspectionSystem.id (inspection_systems db)) in *.
  assert (Hfresh : ~ In (InspectionSystem.id system) ids).
  { intros Hin. apply list_max_bound in Hin. lia. }
  split.
  - unfold well_formed. rewrite Hs, Ht, map_app. simpl. fold ids. split.
    + apply NoDup_app; [exact Hids | repeat constructor; auto|].
      intros a Ha [Heq|[]]. subst a. contradiction.
    + apply Forall_app. split.
      * eapply Forall_impl; [|exact Hfk]. intros t Hin. apply in_or_app. left. exact Hin.
      * apply Forall_map. apply Forall_forall. intros t _. simpl.
        apply in_or_app. right. left. reflexivity.
  - unfold rows_of. rewrite Hs, Ht, filter_app, map_app. f_equal.
    + apply map_ext_in. intros s Hin. apply filter_In in Hin. destruct Hin as [Hin _].
      f_equal. rewrite filter_app.
      rewrite (@filter_none _ _ (map _ (Inspection.tasks i))); [rewrite app_nil_r; reflexivity|].
      apply Forall_map. apply Forall_forall. intros t _. simpl.
      apply Nat.eqb_neq. intros E'. apply Hfresh. rewrite E'. unfold ids.
      apply in_map. exact Hin.
    + simpl. rewrite Hp, Nat.eqb_refl. simpl. unfold stored. rewrite Hn. do 2 f_equal.
      rewrite filter_app.
      rewrite (@filter_none _ _ (checklist_tasks db)).
      * simpl. rewrite filter_all.
        -- rewrite map_map. reflexivity.
        -- apply Forall_map. apply Forall_forall. intros t _. simpl. apply Nat.eqb_refl.
      * eapply Forall_impl; [|exact Hfk]. intros t Hin. simpl in Hin.
        apply Nat.eqb_neq. intros E'. apply Hfresh. rewrite <- E'. exact Hin.
Qed.

Lemma store_inspections_rows (w : World.t) (pdf : nat) (l : list Inspection.t) :
  forall db seen db',
    well_formed db ->
    (forall n, In n seen <-> existing_system db n pdf <> None) ->
    store_inspections w pdf l db = (None, db') ->
    rows_of db' pdf = rows_of db pdf ++ map stored (first_of_each_name seen l).
Proof.
  induction l as [|i l IH]; intros db seen db' Hwf Hseen; cbn [store_inspections].
  - intros E. injection E as <-. simpl. rewrite app_nil_r. reflexivity.
  - destruct (store_inspection w pdf db i) as [[e|] db1] eqn:E1; [discriminate|].
    intros E. cbn [first_of_each_name].
    destruct (@store_inspection_cases _ _ _ _ _ _ E1)
      as [[-> Hex]|(Hnone & system & written & rest & _ & Hn & Hp & _ & Hs & _)].
    + destruct (Hex eq_refl) as [_ Hex']. apply Hseen in Hex'. apply mem_In in Hex'.
      rewrite Hex'. eapply IH; eassumption.
    + assert (Hnew : mem (Inspection.name i) seen = false).
      { apply mem_not_In. intros Hin. apply Hseen in Hin. congruence. }
      rewrite Hnew.
      destruct (@store_new_rows w pdf db i db1 Hwf Hnone E1) as [Hwf1 Hrows].
      rewrite (IH db1 (Inspection.name i :: seen) db' Hwf1); [| |exact E].
      * rewrite Hrows, <- app_assoc. reflexivity.
      * intros n. split.
        -- intros [<-|Hin]; [apply (@store_makes_existing _ _ _ _ _ E1)|].
           eapply store_keeps_existing; [exact E1|]. apply Hseen. exact Hin.
        -- intros Hex. unfold existing_system in Hex. rewrite Hs in Hex.
           destruct (List.find (fun s => PyStr.eqb (InspectionSystem.name s) n
                                        && (InspectionSystem.pdf s =? pdf))
                              (inspection_systems db)) eqn:Ef.
           ++ right. apply Hseen. unfold existing_system. rewrite Ef. discriminate.
           ++ rewrite (find_app_None _ _ _ Ef) in Hex. simpl in Hex.
              destruct (PyStr.eqb (InspectionSystem.name system) n) eqn:En;
                [|simpl in Hex; congruence].
              apply pystr_eqb_eq in En. left. congruence.
Qed.

(** X19. Store and read back: a first run on a document that answers
    [True] has stored what was extracted.  When the database has no system
    of the document yet, the rows of the document afterwards are the
    extracted systems in order, each with the numbers and descriptions of
    its tasks in order; of several extracted systems with one name only
    the first is stored, and the tasks of the others are dropped. *)
Theorem first_run_stores_what_was_extracted
    (w : World.t) (inspection_pdf : InspectionPDF.t) (db : database)
    (inspections : list Inspection.t) :
  well_formed db ->
  Forall (fun s => InspectionSystem.pdf s <> InspectionPDF.id inspection_pdf)
         (inspection_systems db) ->
  extract_inspections_from_pdf w
    (path_join (World.MEDIA_ROOT w) (InspectionPDF.file_name inspection_pdf))
  = inr inspections ->
  fst (fst (process_inspection_pdf w inspection_pdf db)) = true ->
  rows_of (snd (process_inspection_pdf w inspection_pdf db))
          (InspectionPDF.id inspection_pdf)
  = map stored (first_of_each_name [] inspections).
Proof.
  intros Hwf Hfresh E Htrue.
  apply process_inspection_pdf_true in Htrue.
  destruct Htrue as (inspections' & db1 & E' & Hs & ->).
  rewrite E in E'. injection E' as <-. cbn [snd].
  assert (Hnone : forall n, existing_system db n (InspectionPDF.id inspection_pdf) = None).
  { intros n. unfold existing_system. apply find_none_all.
    eapply Forall_impl; [|exact Hfresh]. intros s Hs'.
    apply andb_false_iff. right. apply Nat.eqb_neq. exact Hs'. }
  assert (Hrows : forall q d p, rows_of (save q d) p = rows_of d p) by reflexivity.
  rewrite Hrows.
  rewrite (@store_inspections_rows w (InspectionPDF.id inspection_pdf) inspections db []
             db1 Hwf); [| |exact Hs].
  - unfold rows_of. rewrite filter_none; [reflexivity|].
    eapply Forall_impl; [|exact Hfresh]. intros s Hs'. apply Nat.eqb_neq. exact Hs'.
  - intros n. split; [intros []|]. intros H. exfalso. apply H. apply Hnone.
Qed.

Lemma first_run_stores_witness :
  rows_of (snd (process_inspection_pdf
                  (online true false false [two_scrapers] (Some twin_pumps))
                  report_pdf empty_database)) (InspectionPDF.id report_pdf)
  = [ (lit "Pump P-101", [ (Some 1%Z, lit "Check the pump seal for leaks") ]) ].
Proof.
  rewrite (@first_run_stores_what_was_extracted
             (online true false false [two_scrapers] (Some twin_pumps))
             report_pdf empty_database
             (returned (extract_inspections_from_pdf
                          (online true false false [two_scrapers] (Some twin_pumps))
                          "/srv/media/pdfs/report.pdf"))).
  - vm_compute. reflexivity.
  - split; constructor.
  - constructor.
  - vm_compute. reflexivity.
  - vm_compute. reflexivity.
Defined.

(** * The [process] action *)

(** X20. A request that makes the action run the extraction (the document
    is not processed yet, or the request forces it) is answered with
    status 200 when nothing is raised, neither by the extraction nor by a
    call of the database, and otherwise with status 500, "Failed to
    process PDF." and the error text "Error processing PDF: " followed by
    the message of the exception.  When the PDF library is installed and
    cannot open the file, the exception is the library's, and no system
    or task is written. *)
Theorem process_answers_500_when_the_run_raises
    (w : World.t) (inspection_pdf : InspectionPDF.t) (force : option Views.value)
    (db : database) :
  InspectionPDF.processed inspection_pdf = false \/ forced force = true ->
  let pdf_path :=
    path_join (World.MEDIA_ROOT w) (InspectionPDF.file_name inspection_pdf) in
  let exception :=
    match extract_inspections_from_pdf w pdf_path with
    | inr inspections =>
        fst (store_inspections w (InspectionPDF.id inspection_pdf) inspections db)
    | inl e => Some e
    end in
  match exception with
  | None => Views.status_code (fst (Views.process w inspection_pdf force db)) = 200
  | Some e =>
      fst (Views.process w inspection_pdf force db)
      = {| Views.status_code := 500;
           Views.detail := "Failed to process PDF.";
           Views.already_processed := None;
           Views.systems_count := None;
           Views.error := Some (Some (lit "Error processing PDF: " ++ e));
           Views.status := "error" |}
  end /\
  (forall e,
     World.PYMUPDF_AVAILABLE w = true ->
     World.fitz_open w pdf_path = inl e ->
     exception = Some e /\
     inspection_systems (snd (Views.process w inspection_pdf force db))
     = inspection_systems db /\
     checklist_tasks (snd (Views.process w inspection_pdf force db))
     = checklist_tasks db).
Proof.
  intros Hrun.
  assert (Hguard : InspectionPDF.processed inspection_pdf
                   && negb (forced force) = false).
  { destruct Hrun as [-> | ->]; [reflexivity | apply andb_false_r]. }
  cbv zeta. unfold Views.process. fold (forced force). rewrite Hguard.
  unfold process_inspection_pdf, try_block. cbv zeta.
  destruct (extract_inspections_from_pdf w _) as [e0|inspections] eqn:E.
  - cbn [fst snd record_error]. split; [reflexivity|].
    intros e Hp Ho. pose proof (@unreadable_raises _ _ _ Hp Ho) as E'.
    rewrite E in E'. injection E' as <-. repeat split.
  - destruct (store_inspections w _ inspections db) as [[e1|] db1]; cbn [fst snd];
      (split; [reflexivity|]);
      intros e Hp Ho; pose proof (@unreadable_raises _ _ _ Hp Ho) as E';
      rewrite E in E'; discriminate.
Qed.

Lemma process_answers_500_witness :
  fst (Views.process unreadable report_pdf None empty_database)
  = {| Views.status_code := 500;
       Views.detail := "Failed to process PDF.";
       Views.already_processed := None;
       Views.systems_count := None;
       Views.error := Some (Some (lit "Error processing PDF: cannot open broken document"));
       Views.status := "error" |}.
Proof.
  destruct (@process_answers_500_when_the_run_raises unreadable report_pdf None
              empty_database (or_introl eq_refl)) as [H _].
  exact H.
Defined.

(** X21. After a request that processed a document, every further request
    for it, forced or not, leaves the database as it is and reports the
    same number of systems: "PDF has already been processed." without
    force, "PDF processed successfully." with it.  The outside world is
    the same for both requests. *)
Theorem further_requests_change_nothing
    (w : World.t) (inspection_pdf : InspectionPDF.t) (force : option Views.value)
    (db : database) :
  Views.already_processed (fst (Views.process w inspection_pdf force db)) = Some false ->
  forall (reloaded : InspectionPDF.t) (force' : option Views.value),
    In reloaded (inspection_pdfs (snd (Views.process w inspection_pdf force db))) ->
    InspectionPDF.id reloaded = InspectionPDF.id inspection_pdf ->
    Views.process w reloaded force' (snd (Views.process w inspection_pdf force db))
    = ({| Views.status_code := 200;
          Views.detail := if forced force' then lit "PDF processed successfully."
                          else lit "PDF has already been processed.";
          Views.already_processed := Some (negb (forced force'));
          Views.systems_count :=
            Views.systems_count (fst (Views.process w inspection_pdf force db));
          Views.error := None;
          Views.status := "success" |},
       snd (Views.process w inspection_pdf force db)).
Proof.
  intros Hfirst.
  assert (Htrue : fst (fst (process_inspection_pdf w inspection_pdf db)) = true /\
    Views.process w inspection_pdf force db
    = ({| Views.status_code := 200;
          Views.detail := "PDF processed successfully.";
          Views.already_processed := Some false;
          Views.systems_count :=
            Some (Views.count_systems
                    (snd (process_inspection_pdf w inspection_pdf db))
                    (snd (fst (process_inspection_pdf w inspection_pdf db))));
          Views.error := None;
          Views.status := "success" |},
       snd (process_inspection_pdf w inspection_pdf db))).
  { revert Hfirst. unfold Views.process. fold (forced force).
    destruct (InspectionPDF.processed inspection_pdf && negb (forced force));
      [discriminate|].
    destruct (process_inspection_pdf w inspection_pdf db) as [[ok p1] db1].
    destruct ok; [|discriminate]. intros _. split; reflexivity. }
  destruct Htrue as [Htrue Efirst].
  pose proof (@process_inspection_pdf_again w inspection_pdf db (or_introl Htrue))
    as Hagain.
  destruct (@process_inspection_pdf_true w inspection_pdf db Htrue)
    as (inspections & db0 & _ & _ & Erun).
  rewrite Erun in Hagain, Efirst. cbn [fst snd] in Hagain, Efirst.
  rewrite Efirst. cbn [fst snd Views.systems_count].
  intros reloaded force' Hin Hid.
  assert (Hre : reloaded = set_processed inspection_pdf).
  { unfold save in Hin. cbn [inspection_pdfs] in Hin.
    destruct Hin as [<-|Hin]; [reflexivity|].
    apply filter_In in Hin. destruct Hin as [_ Hin].
    apply negb_true_iff in Hin. apply Nat.eqb_neq in Hin.
    exfalso. apply Hin. rewrite Hid. reflexivity. }
  subst reloaded. unfold Views.process. fold (forced force').
  assert (Hproc : InspectionPDF.processed (set_processed inspection_pdf) = true)
    by reflexivity.
  rewrite Hproc. cbn [andb].
  destruct (forced force'); cbn [negb].
  - rewrite Hagain. reflexivity.
  - reflexivity.
Qed.

Lemma further_requests_witness :
  Views.process (offline [two_scrapers])
    (set_processed report_pdf) (Some (Views.Str "false"))
    (snd (Views.process (offline [two_scrapers]) report_pdf None empty_database))
  = ({| Views.status_code := 200;
        Views.detail := "PDF processed successfully.";
        Views.already_processed := Some false;
        Views.systems_count := Some 2;
        Views.error := None;
        Views.status := "success" |},
     snd (Views.process (offline [two_scrapers]) report_pdf None empty_database)).
Proof.
  rewrite (@further_requests_change_nothing (offline [two_scrapers]) report_pdf None
             empty_database).
  - f_equal.
  - vm_compute. reflexivity.
  - vm_compute. left. reflexivity.
  - reflexivity.
Defined.

(** * The whole pipeline *)

(** Whatever the provider chain returns has the systems of a result that
    the validator built. *)
Lemma process_pdf_init (w : World.t) (pdf_path : pystr) (r : AIExtractionResult.t) :
  Services.process_pdf w pdf_path = Some r ->
  exists d r0, AIExtractionResult_init d = Some r0 /\
               AIExtractionResult.systems r = AIExtractionResult.systems r0.
Proof.
  unfold Services.process_pdf.
  destruct (Services.attempt (World.openai_available w) _ _) as [r1|] eqn:E1.
  { intros H. injection H as <-.
    unfold Services._process_with_openai in E1.
    destruct (_ =? 0).
    - unfold Services.attempt in E1. destruct (World.openai_available w); discriminate.
    - rewrite bind_set_method in E1. apply attempt_validated in E1.
      destruct E1 as (d' & Hd). exists d', r1. auto. }
  destruct (Services.attempt (World.claude_available w) _ _) as [r2|] eqn:E2.
  { intros H. injection H as <-.
    unfold Services._process_with_claude in E2.
    destruct (Services._extract_text_from_pdf w pdf_path).
    - unfold Services.attempt in E2. destruct (World.claude_available w); discriminate.
    - rewrite bind_set_method in E2. apply attempt_validated in E2.
      destruct E2 as (d' & Hd). exists d', r2. auto. }
  destruct (Services.attempt (World.google_available w) _ _) as [r3|] eqn:E3.
  { intros H. injection H as <-.
    unfold Services._process_with_google in E3.
    change (validate_ai_response Services.google_result_data)
      with (bind (Some Services.google_result_data) validate_ai_response) in E3.
    apply attempt_validated in E3. destruct E3 as (d' & Hd). exists d', r3. auto. }
  unfold create_fallback_result. intros H. eauto.
Qed.

Lemma validated_numbers (s : SystemSchema.t) :
  validated_system s ->
  map TaskSchema.number (SystemSchema.tasks s)
  = map (fun i => Some (Z.of_nat i)) (seq 1 (List.length (SystemSchema.tasks s))).
Proof.
  intros (_ & _ & _ & _ & Hre). rewrite <- Hre at 1.
  apply (renumber_numbers (SystemSchema.tasks s) 1).
Qed.

Lemma convert_validated (r : AIExtractionResult.t) :
  Forall validated_system (AIExtractionResult.systems r) ->
  Forall converted_system (_convert_ai_result_to_legacy_format r).
Proof.
  intros H. unfold _convert_ai_result_to_legacy_format. apply Forall_map.
  eapply Forall_impl; [|exact H].
  intros s Hv. pose proof (validated_numbers Hv) as Hnum.
  destruct Hv as ((v & Hn) & Hlen & Hne & Htr & _).
  unfold converted_system. cbn [Inspection.name Inspection.tasks].
  split; [exact Hlen|]. split; [rewrite Hn; apply strip_no_outer_space|].
  split; [destruct (SystemSchema.tasks s); [congruence|discriminate]|].
  assert (Hnumbered : numbered_from_one
            (map (fun task =>
                    {| Task.number := TaskSchema.number task;
                       Task.description := TaskSchema.description task;
                       Task.type := Some (TaskSchema.type task);
                       Task.requirements := Some (or_empty (TaskSchema.requirements task));
                       Task.safety_notes := Some (or_empty (TaskSchema.safety_notes task)) |})
                 (SystemSchema.tasks s))).
  { unfold numbered_from_one. rewrite map_map, length_map. cbn [Task.number]. exact Hnum. }
  split; [exact Hnumbered|].
  apply numbered_present in Hnumbered.
  apply Forall_and; [exact Hnumbered|].
  apply Forall_map. eapply Forall_impl; [|exact Htr].
  intros t (v' & Hd & Hb). cbn [Task.number Task.type Task.description].
  split; [discriminate|]. rewrite Hd. split; [exact Hb | apply strip_no_outer_space].
Qed.

(** X22. What the premium path hands to the caller keeps the shape that
    validation gave it, whichever provider answered: at least one system;
    every name trimmed and of at most 200 characters; every system with at
    least one task; the tasks numbered from 1 and typed, each description
    trimmed and of 10 to 500 characters. *)
Theorem converted_result_shape (w : World.t) (pdf_path : pystr) (r : AIExtractionResult.t) :
  Services.process_pdf w pdf_path = Some r ->
  _convert_ai_result_to_legacy_format r <> [] /\
  map Inspection.name (_convert_ai_result_to_legacy_format r)
  = map SystemSchema.name (AIExtractionResult.systems r) /\
  Forall converted_system (_convert_ai_result_to_legacy_format r).
Proof.
  intros H.
  destruct (@process_pdf_validated w pdf_path r H) as [Hne Hall].
  destruct (@process_pdf_init w pdf_path r H) as (d & r0 & Hd & Hs).
  split; [apply (@convert_has_tasks r Hne Hall)|]. split.
  - unfold _convert_ai_result_to_legacy_format. rewrite map_map. reflexivity.
  - apply convert_validated. rewrite Hs. apply (@init_validated d r0 Hd).
Qed.

Lemma converted_result_shape_witness :
  exists r,
    Services.process_pdf (online true false false [two_scrapers] (Some pump_and_motor))
                         "a.pdf" = Some r /\
    map Inspection.name (_convert_ai_result_to_legacy_format r)
    = [lit "Pump P-101"; lit "Motor M-7"] /\
    Forall converted_system (_convert_ai_result_to_legacy_format r).
Proof.
  eexists. split; [vm_compute; reflexivity|].
  destruct (@converted_result_shape
              (online true false false [two_scrapers] (Some pump_and_motor))
              "a.pdf" _ eq_refl) as (_ & Hn & Hall).
  split; [exact Hn | exact Hall].
Defined.

Lemma numbers_of_numbered (l : list Inspection.t) :
  Forall (fun s => numbered_from_one (Inspection.tasks s)) l ->
  Forall (fun s => Forall (fun t => Task.number t <> None) (Inspection.tasks s)) l.
Proof.
  intros H. eapply Forall_impl; [|exact H]. intros s. apply numbered_present.
Qed.

Lemma run_numbers (w : World.t) (s : strategy) (text : pystr) (l : list Inspection.t) :
  run w s text = inr l ->
  Forall (fun i => Forall (fun t => Task.number t <> None) (Inspection.tasks i)) l.
Proof.
  destruct s; cbn [run]; intros H; try (apply inr_eq in H; subst l).
  - destruct (@custom_user_systems_spec _ _ H) as (tasks & _ & Hn & _ & _ & Hall & _).
    eapply Forall_impl; [|exact Hall]. intros i ->. apply numbered_present. exact Hn.
  - destruct (belt_scraper_systems_spec text) as (_ & _ & Hall).
    eapply Forall_impl; [|exact Hall]. intros i (_ & _ & Hn).
    apply numbered_present. exact Hn.
  - destruct (@system_checklist_spec _ _ H) as (_ & Hall).
    eapply Forall_impl; [|exact Hall]. intros i (_ & _ & _ & _ & Ht).
    eapply Forall_impl; [|exact Ht]. intros t (Hn & _). exact Hn.
  - destruct (generic_shared_tasks w text) as (tasks & _ & Hn & _ & Hall).
    eapply Forall_impl; [|exact Hall]. intros i (-> & _). apply numbered_present. exact Hn.
  - eapply Forall_impl; [|apply checklist_items_spec].
    intros i (_ & _ & Hn & _). apply numbered_present. exact Hn.
  - unfold create_intelligent_fallback.
    destruct (_ || _); [|destruct (_ || _); [|destruct (_ || _)]];
      repeat constructor; discriminate.
Qed.

Lemma run_stage_numbers (w : World.t) (text : pystr) (stage : list strategy)
    (l : list Inspection.t) :
  run_stage w text stage = inr l ->
  Forall (fun i => Forall (fun t => Task.number t <> None) (Inspection.tasks i)) l.
Proof.
  unfold run_stage. apply for_each_inv; [|constructor].
  intros found s found' _ Hfound.
  destruct (run w s text) as [e|xs] eqn:E; [discriminate|].
  intros H. apply inr_eq in H. subst found'. apply Forall_app. split; [exact Hfound|].
  eapply run_numbers; eauto.
Qed.

(** X23. Every task that [extract_inspections_from_pdf] returns has a
    number, whichever provider or strategy produced it: the number that
    [process_inspection_pdf] stores is never missing. *)
Theorem every_task_has_a_number (w : World.t) (pdf_path : pystr)
    (inspections : list Inspection.t) :
  extract_inspections_from_pdf w pdf_path = inr inspections ->
  Forall (fun s => Forall (fun t => Task.number t <> None) (Inspection.tasks s))
         inspections.
Proof.
  assert (Hchain : forall text,
    raised (legacy_chain w text) = None ->
    Forall (fun s => Forall (fun t => Task.number t <> None) (Inspection.tasks s))
           (found_inspections (legacy_chain w text))).
  { intros text Hr.
    destruct (chain_first_stage w text) as (pre & stage & post & _ & _ & _ & H).
    destruct (run_stage w text stage) as [e|found] eqn:E.
    - destruct H as [H _]. congruence.
    - destruct H as (_ & _ & ->). eapply run_stage_numbers; eauto. }
  assert (Hai : forall l, premium_ai w pdf_path = Some l ->
    Forall (fun s => Forall (fun t => Task.number t <> None) (Inspection.tasks s)) l).
  { unfold premium_ai. intros l.
    destruct (Services.process_pdf w pdf_path) as [r|] eqn:Er; [|discriminate].
    destruct (_ && _); [|discriminate]. intros H. injection H as <-.
    destruct (@process_pdf_init w pdf_path r Er) as (d & r0 & Hd & Hs).
    assert (Hc : Forall converted_system (_convert_ai_result_to_legacy_format r)).
    { apply convert_validated. rewrite Hs. apply (@init_validated d r0 Hd). }
    eapply Forall_impl; [|exact Hc]. intros s (_ & _ & _ & Hn & _).
    apply numbered_present. exact Hn. }
  rewrite extraction_outcome.
  destruct (if World.PYMUPDF_AVAILABLE w then read_all_text w pdf_path
            else inr no_pymupdf_text) as [e|all_text]; [discriminate|].
  destruct (if World.AI_PROCESSING_AVAILABLE w then premium_ai w pdf_path else None)
    as [l|] eqn:E.
  - intros H. apply inr_eq in H. subst l. apply Hai.
    destruct (World.AI_PROCESSING_AVAILABLE w); [exact E|discriminate].
  - destruct (raised (legacy_chain w all_text)) eqn:Er; [discriminate|].
    intros H. apply inr_eq in H. subst inspections. apply Hchain. exact Er.
Qed.

Lemma every_task_has_a_number_witness :
  exists inspections,
    extract_inspections_from_pdf (offline [pump_page]) "pump.pdf" = inr inspections /\
    Forall (fun s => Forall (fun t => Task.number t <> None) (Inspection.tasks s))
           inspections.
Proof.
  eexists. split; [vm_compute; reflexivity|].
  apply (@every_task_has_a_number (offline [pump_page]) "pump.pdf").
  vm_compute. reflexivity.
Defined.

(** X24. The confidence gate of 0.3 in [extract_inspections_from_pdf] never
    turns a provider's answer down: the provider chain hands on an answer
    only above a higher gate (or the Google stub of 0.6), so its result is
    used exactly when it is a success, and the legacy strategies run
    exactly when it is the fallback; the outcome then is theirs, the
    systems they found or the exception that one of them raised. *)
Theorem ai_result_is_used_when_it_is_a_success
    (w : World.t) (pdf_path : pystr) (pages : list pystr) :
  World.AI_PROCESSING_AVAILABLE w = true ->
  World.fitz_open w pdf_path = inr pages ->
  exists r,
    Services.process_pdf w pdf_path = Some r /\
    (AIExtractionResult.success r = true ->
     (Services.f_0_3 < AIExtractionResult.confidence r)%Q) /\
    extract_inspections_from_pdf w pdf_path
    = if AIExtractionResult.success r
      then inr (_convert_ai_result_to_legacy_format r)
      else
        let legacy :=
          legacy_chain w
            (if World.PYMUPDF_AVAILABLE w
             then List.concat (map (fun page_text => page_text ++ [nl]) pages)
             else no_pymupdf_text) in
        match raised legacy with
        | Some e => inl e
        | None => inr (found_inspections legacy)
        end.
Proof.
  intros Hai Hopen.
  destruct (process_pdf_cases w pdf_path) as (r & Hr & Hcases).
  exists r. split; [exact Hr|].
  assert (Hgate : AIExtractionResult.success r = true ->
                  (Services.f_0_3 < AIExtractionResult.confidence r)%Q).
  { intros Hs.
    destruct Hcases as [(_ & _ & _ & Hc & _)|[(_ & _ & _ & Hc & _)|[(_ & _ & _ & Hc & _)|
                        (_ & Hf & _)]]].
    - eapply Qlt_trans; [|exact Hc]. reflexivity.
    - eapply Qlt_trans; [|exact Hc]. reflexivity.
    - rewrite Hc. reflexivity.
    - congruence. }
  split; [exact Hgate|].
  rewrite extraction_outcome. unfold read_all_text, premium_ai.
  rewrite Hai, Hopen, Hr. cbv zeta.
  destruct (AIExtractionResult.success r) eqn:Hs.
  - assert (Hgt : Services.gt (AIExtractionResult.confidence r) Services.f_0_3 = true).
    { unfold Services.gt. apply negb_true_iff.
      destruct (Qle_bool (AIExtractionResult.confidence r) Services.f_0_3) eqn:E;
        [|reflexivity].
      apply Qle_bool_iff in E. specialize (Hgate eq_refl).
      exfalso. apply (Qlt_not_le _ _ Hgate). exact E. }
    rewrite Hgt. destruct (World.PYMUPDF_AVAILABLE w); reflexivity.
  - cbn [andb]. destruct (World.PYMUPDF_AVAILABLE w); reflexivity.
Qed.

Lemma ai_result_is_used_witness :
  exists r,
    Services.process_pdf (online true false false [two_scrapers] (Some pump_and_motor))
                         "a.pdf" = Some r /\
    extract_inspections_from_pdf
      (online true false false [two_scrapers] (Some pump_and_motor)) "a.pdf"
    = inr (_convert_ai_result_to_legacy_format r).
Proof.
  destruct (@ai_result_is_used_when_it_is_a_success
              (online true false false [two_scrapers] (Some pump_and_motor))
              "a.pdf" [two_scrapers] eq_refl eq_refl) as (r & Hr & _ & E).
  exists r. split; [exact Hr|].
  rewrite E.
  assert (Hs : AIExtractionResult.success r = true).
  { vm_compute in Hr. injection Hr as <-. reflexivity. }
  rewrite Hs. reflexivity.
Defined.

(** * More about the text strategies *)

Lemma split_nl_aux_app (a b : pystr) : forall cur,
  split_nl_aux (a ++ nl :: b) cur = split_nl_aux a cur ++ split_nl_aux b [].
Proof.
  induction a as [|c a IH]; intros cur; simpl.
  - reflexivity.
  - destruct (Ascii.eqb c nl); simpl; rewrite IH; reflexivity.
Qed.

Lemma checklist_line_outside (st : checklist_state) (line : pystr) :
  is_heading line = false -> current_system st = None ->
  current_system (checklist_line st line) = None /\
  inspections (checklist_line st line) = inspections st.
Proof.
  unfold is_heading, checklist_line. intros Hh Hs.
  destruct (strip line) as [|c l]; [auto|].
  destruct (existsb _ (firstn 2 checklist_patterns)).
  - rewrite andb_true_l in Hh. rewrite Hh. auto.
  - destruct (existsb _ (skipn 2 checklist_patterns)).
    + match goal with
      | |- context [if ?c then add_task _ _ else _] => destruct c
      end; cbn [add_task current_system inspections]; auto.
    + destruct (rmatch no_flags numbered_item (c :: l)); [|auto].
      match goal with
      | |- context [if ?c then add_task _ _ else _] => destruct c
      end; cbn [add_task current_system inspections]; auto.
Qed.

Lemma checklist_line_same_outcome (a b : checklist_state) (line : pystr) :
  same_outcome a b -> same_outcome (checklist_line a line) (checklist_line b line).
Proof.
  intros [->|(Ha & Hb & Hi)]; [left; reflexivity|].
  unfold checklist_line.
  destruct (strip line) as [|c l]; [right; auto|].
  destruct (existsb _ (firstn 2 checklist_patterns)).
  - destruct (_ && _); [|right; auto].
    left. unfold flush, has_system_with_tasks. rewrite Ha, Hb, Hi. reflexivity.
  - destruct (existsb _ (skipn 2 checklist_patterns)).
    + match goal with
      | |- context [if ?c then add_task _ _ else _] => destruct c
      end; right; cbn [add_task current_system inspections]; auto.
    + destruct (rmatch no_flags numbered_item (c :: l)); [|right; auto].
      match goal with
      | |- context [if ?c then add_task _ _ else _] => destruct c
      end; right; cbn [add_task current_system inspections]; auto.
Qed.

(** X25. [extract_checklist_items] drops what comes before the first
    heading: lines in front of the text that hold no heading, task lines
    included, do not change the result. *)
Theorem lines_before_the_first_heading_are_dropped (front rest : pystr) :
  forallb (fun line => negb (is_heading line)) (split_nl front) = true ->
  extract_checklist_items (front ++ nl :: rest) = extract_checklist_items rest.
Proof.
  intros Hfront. unfold extract_checklist_items, split_nl.
  rewrite split_nl_aux_app, fold_left_app. fold (split_nl front) (split_nl rest).
  set (init := {| inspections := []; current_system := None;
                  current_tasks := []; task_number := 1 |}).
  assert (Hstart : same_outcome (fold_left checklist_line (split_nl front) init) init).
  { right.
    assert (G : forall lines st,
      forallb (fun line => negb (is_heading line)) lines = true ->
      current_system st = None ->
      current_system (fold_left checklist_line lines st) = None /\
      inspections (fold_left checklist_line lines st) = inspections st).
    { induction lines as [|l lines IH]; intros st Hl Hs; simpl; [auto|].
      simpl in Hl. apply andb_true_iff in Hl. destruct Hl as [Hl1 Hl2].
      apply negb_true_iff in Hl1.
      destruct (@checklist_line_outside st l Hl1 Hs) as [Hs' Hi'].
      destruct (IH (checklist_line st l) Hl2 Hs') as [H1 H2].
      split; [exact H1|]. rewrite H2. exact Hi'. }
    destruct (G (split_nl front) init Hfront eq_refl) as [H1 H2]. auto. }
  assert (Hrun : forall lines a b, same_outcome a b ->
            same_outcome (fold_left checklist_line lines a)
                         (fold_left checklist_line lines b)).
  { induction lines as [|l lines IH]; intros a b H; simpl; [exact H|].
    apply IH. apply checklist_line_same_outcome. exact H. }
  destruct (Hrun (split_nl rest) _ _ Hstart) as [->|(Ha & Hb & Hi)]; [reflexivity|].
  unfold flush, has_system_with_tasks. rewrite Ha, Hb, Hi. reflexivity.
Qed.

Lemma lines_before_the_first_heading_witness :
  extract_checklist_items pump_page
  = extract_checklist_items "Cooling water pump system
1. Check the pump seal for leaks
- Inspect the coupling guard
".
Proof.
  apply (@lines_before_the_first_heading_are_dropped "1. Record the ambient temperature").
  vm_compute. reflexivity.
Defined.

Lemma count_contains (sub : pystr) (s : pystr) :
  count_from sub s 0 = 0 <-> contains sub s = false.
Proof.
  induction s as [|c s IH]; simpl.
  - destruct (startswith sub []); simpl; split; intros; congruence.
  - destruct (startswith sub (c :: s)); simpl; [split; intros; discriminate|].
    exact IH.
Qed.

(** [re.search] of a literal, without regard to case, is a substring test
    on the lowered strings. *)
Lemma found_Lit (s text : pystr) :
  found ignore_case (Lit s) text = contains (lower s) (lower text).
Proof.
  rewrite found_finditer.
  pose proof (finditer_Lit_count s text) as Hc. unfold count in Hc.
  pose proof (count_contains (lower s) (lower text)) as Hz.
  destruct (finditer ignore_case (Lit s) text) as [|m ms]; simpl in *.
  - symmetry. apply Hz. symmetry. exact Hc.
  - destruct (contains (lower s) (lower text)); [reflexivity|].
    destruct Hz as [_ Hz]. rewrite (Hz eq_refl) in Hc. discriminate.
Qed.

(** X26. Whenever [extract_custom_user_systems] returns, it yields nothing
    exactly when the text has no title "Belt Scraper system N-Inspection
    Checklist" and does not contain the phrase "Belt Conveyor Inspection",
    both without regard to case. *)
Theorem custom_strategy_fires_on_title_or_phrase (text : pystr)
    (systems : list Inspection.t) :
  extract_custom_user_systems text = inr systems ->
  (systems = [] <->
   finditer ignore_case custom_system_pattern text = [] /\
   contains (lower "Belt Conveyor Inspection") (lower text) = false).
Proof.
  intros H. apply custom_returned in H. destruct H as (extracted & _ & ->).
  unfold custom_systems. cbv zeta.
  pose proof (found_Lit "Belt Conveyor Inspection" text) as Hf.
  fold conveyor_pattern in Hf. rewrite Hf. clear Hf.
  destruct (finditer ignore_case custom_system_pattern text) as [|m ms].
  - cbn [titled_systems]. cbv iota.
    destruct (contains (lower "Belt Conveyor Inspection") (lower text)).
    + split; [|intros [_ H]; discriminate].
      intros H. apply (f_equal (@List.length _)) in H.
      rewrite length_map, length_seq in H. cbn [List.length] in H. lia.
    + split; auto.
  - cbn [titled_systems mem existsb]. cbv iota. split; [discriminate|].
    intros [H _]. discriminate.
Qed.

Lemma custom_strategy_fires_witness :
  exists systems,
    extract_custom_user_systems two_reports = inr systems /\
    (systems = [] <->
     finditer ignore_case custom_system_pattern two_reports = [] /\
     contains (lower "Belt Conveyor Inspection") (lower two_reports) = false).
Proof.
  eexists. split; [vm_compute; reflexivity|].
  apply (@custom_strategy_fires_on_title_or_phrase two_reports). vm_compute. reflexivity.
Defined.
